(** * Repository initialisation of the jit version-control tool

  A shallow embedding of [internal/initialize.go] (package [internal]), of
  the [init] command of [cmd/initialize.go] (package [cmd]) and of the
  constants of [pkg/util/constants.go], over a small model of the
  operating-system calls and of the flag parser the Go code uses, followed by
  the properties of the initialisation pipeline. *)

From Stdlib Require Import NArith Ascii String.
From stdpp Require Import gmap strings list fin_maps sorting.

Local Open Scope N_scope.

(** ** Constants of [pkg/util/constants.go] *)

Module util.

Definition JitDirName : string := ".jit".

Definition MAIN : string := "main".
Definition HEAD : string := "head".
Definition STAGE : string := "stage".
Definition CONFIG : string := "config".
Definition LOGS : string := "logs".
Definition INFO : string := "info".
Definition BRANCHES : string := "branches".
Definition SNAPSHOTS : string := "snapshots".
Definition OBJECTS : string := "objects".

(** [const DefaultFilePerm = 0644] (an octal literal). *)
Definition DefaultFilePerm : N := 0x1a4.

(** [const JitVersion = "1.0.0"] and the command name [Init = "init"]. *)
Definition JitVersion : string := "1.0.0".
Definition Init : string := "init".

(** [type File string] with its two values. *)
Inductive File := DataFile | Directory.

#[global] Instance File_eq_dec : EqDecision File.
Proof. solve_decision. Defined.

End util.

(** ** The Go standard library: [strings.Join], [path/filepath] (Unix) *)

Module strings.

(** [strings.Join(elems, sep)]. *)
Fixpoint Join (elems : list string) (sep : string) : string :=
  match elems with
  | [] => ""
  | [e] => e
  | e :: rest => e +:+ sep +:+ Join rest sep
  end.

End strings.

Module filepath.

(** The elements of a path: the text between separators. *)
Fixpoint splitSlash (s : string) : list string :=
  match s with
  | EmptyString => [""]
  | String c r =>
      if Ascii.eqb c "/" then "" :: splitSlash r
      else match splitSlash r with
           | h :: t => String c h :: t
           | [] => [String c ""]
           end
  end.

Definition isRooted (s : string) : bool :=
  match s with
  | String c _ => Ascii.eqb c "/"
  | EmptyString => false
  end.

(** One step of [Clean] over the elements, the output kept as a stack
    (innermost element first): empty and [.] elements are dropped, [..]
    removes the element before it, is dropped at the root of a rooted path
    and is kept at the front of a relative one. *)
Definition cleanStep (rooted : bool) (stk : list string) (e : string)
  : list string :=
  if String.eqb e "" || String.eqb e "." then stk
  else if String.eqb e ".." then
    match stk with
    | top :: below => if String.eqb top ".." then e :: stk else below
    | [] => if rooted then [] else [e]
    end
  else e :: stk.

Definition cleanElems (s : string) : list string :=
  rev (fold_left (cleanStep (isRooted s)) (splitSlash s) []).

(** [filepath.Clean]: the shortest path name equivalent to [s] by purely
    lexical processing. *)
Definition Clean (s : string) : string :=
  if String.eqb s "" then "."
  else
    let es := cleanElems s in
    if isRooted s then "/" +:+ strings.Join es "/"
    else match es with
         | [] => "."
         | _ => strings.Join es "/"
         end.

(** [filepath.Join]: leading empty elements are ignored, the rest is joined
    with the separator and cleaned; no non-empty element gives [""]. *)
Fixpoint Join (elem : list string) : string :=
  match elem with
  | [] => ""
  | e :: rest =>
      if String.eqb e "" then Join rest
      else Clean (strings.Join elem "/")
  end.

End filepath.

(** ** [strconv.ParseUint] for an explicit base between 2 and 36 *)

Module strconv.

Inductive NumError := ErrSyntax | ErrRange.

Definition lower (c : N) : N := N.lor c 0x20.

(** The value of one digit, [None] for a byte that is no digit. *)
Definition digit (c : ascii) : option N :=
  let b := N_of_ascii c in
  if (48 <=? b) && (b <=? 57) then Some (b - 48)
  else if (97 <=? lower b) && (lower b <=? 122) then Some (lower b - 97 + 10)
  else None.

Definition maxUint64 : N := 2 ^ 64 - 1.

Fixpoint parseLoop (base cutoff maxVal : N) (s : string) (n : N)
  : N * option NumError :=
  match s with
  | EmptyString => (n, None)
  | String c r =>
      match digit c with
      | None => (0, Some ErrSyntax)
      | Some d =>
          if base <=? d then (0, Some ErrSyntax)
          else if cutoff <=? n then (maxVal, Some ErrRange)
          else
            let n1 := n * base + d in
            if maxVal <? n1 then (maxVal, Some ErrRange)
            else parseLoop base cutoff maxVal r n1
      end
  end.

Definition ParseUint (s : string) (base bitSize : N) : N * option NumError :=
  if String.eqb s "" then (0, Some ErrSyntax)
  else parseLoop base (maxUint64 / base + 1) (2 ^ bitSize - 1) s 0.

End strconv.


(** ** The operating system, as far as [package os] is used

    The file system is a finite map from resolved paths (the list of the
    elements of the cleaned absolute path, outermost first; [[]] is the root
    directory) to nodes.  Path resolution is lexical: symbolic links are
    created but never traversed, so a path whose resolution would cross one is
    outside the model.  Permission bits are recorded on the nodes as the calls
    pass them; whether the platform grants access is part of the world: the
    set [denied] holds the directories in which the process may not create or
    remove entries and the files it may not open for writing.  The outcomes
    that depend on the environment alone are oracles of the world: the random
    names drawn by [CreateTemp], the success of each [Write] (this subsumes a
    platform that refuses to write through a descriptor opened without write
    access), and the privilege to create symbolic links.  Every call is
    recorded in the event list of the world, with the error number when it
    fails. *)

Module os.

Inductive Errno :=
  ENOENT | EEXIST | ENOTDIR | EISDIR | EACCES | EPERM | ENOTEMPTY | ELOOP
| EIO | EINVAL | EBADF.

(** Go's [error] values: the structured errors of [package os] and the
    text errors made with [errors.New]; [None] stands for [nil]. *)
Inductive error :=
| PathError (op path : string) (e : Errno)
| LinkError (op old new : string) (e : Errno)
| SyscallError (op : string) (e : Errno)
| errorString (msg : string).

Inductive Node :=
| File (mode : N) (content : string)
| Dir (mode : N)
| Link (target : string).

Definition Path := list string.

(** An [os.File]: the name it was opened under, the node and the flags. *)
Record Handle := mkHandle { hname : string; hkey : Path; hflag : N }.

Inductive Call :=
| CGetwd
| CStat (name : string)
| COpenFile (name : string) (flag : N) (perm : N)
| CMkdir (name : string) (perm : N)
| CMkdirAll (name : string) (perm : N)
| CSymlink (oldname newname : string)
| CRemove (name : string)
| CWrite (name : string) (data : string)
| CClose (name : option string).

(** The stages of the initialisation pipeline; their marks in the event
    list are ghost state, written where the Go text starts the stage. *)
Inductive Stage := RESOLVE_DIRS | LINK_IF_SEPARATE | SCAFFOLD | WRITE_CONFIG | SET_BRANCH.

Inductive Event :=
| EvStage (s : Stage)
| EvCall (c : Call) (failed : option Errno)
| EvLog (msg : string) (e : option error).

Record World := mkWorld {
  fs : gmap Path Node;
  cwd : option string;
  denied : gset Path;
  linkPriv : bool;
  temps : list string;
  writes : list bool;
  events : list Event
}.

Definition setFs (f : gmap Path Node → gmap Path Node) (w : World) : World :=
  mkWorld (f (fs w)) (cwd w) (denied w) (linkPriv w) (temps w) (writes w) (events w).

Definition emit (e : Event) (w : World) : World :=
  mkWorld (fs w) (cwd w) (denied w) (linkPriv w) (temps w) (writes w) (events w ++ [e]).

(** Computations over the world. *)
Definition M (A : Type) : Type := World → A * World.

Definition ret {A} (a : A) : M A := λ w, (a, w).

Definition bind {A B} (m : M A) (k : A → M B) : M B :=
  λ w, let (a, w') := m w in k a w'.

Declare Scope os_scope.
Delimit Scope os_scope with os.
Notation "x <- m ;; k" := (bind m (λ x, k))
  (at level 20, m at level 99, k at level 200, only parsing) : os_scope.
Notation "'let*' p := m 'in' k" := (bind m (λ p, k))
  (at level 10, p pattern, m at level 99, k at level 200, only parsing) : os_scope.
Notation "m ;; k" := (bind m (λ _, k))
  (at level 100, k at level 200, only parsing, right associativity) : os_scope.
Local Open Scope os_scope.

Definition stage (s : Stage) : M unit := λ w, ((), emit (EvStage s) w).

(** [log.Println] and [log.Printf]: the text and the error value printed. *)
Definition log (msg : string) (e : option error) : M unit :=
  λ w, ((), emit (EvLog msg e) w).

(** *** Paths *)

Definition resolve (w : World) (name : string) : option Path :=
  if String.eqb name "" then None
  else if filepath.isRooted name then Some (filepath.cleanElems name)
  else match cwd w with
       | Some d => Some (filepath.cleanElems (d +:+ "/" +:+ name))
       | None => None
       end.

Definition parent (k : Path) : Path := removelast k.

(** May an entry be created at (or removed from) [k]?  [None] when it may. *)
Definition entryCheck (w : World) (k : Path) : option Errno :=
  match k with
  | [] => Some EINVAL
  | _ =>
      match fs w !! parent k with
      | None => Some ENOENT
      | Some (Dir _) =>
          if decide (parent k ∈ denied w) then Some EACCES else None
      | Some _ => Some ENOTDIR
      end
  end.

(** *** Flags and modes *)

Definition O_RDONLY : N := 0x0.
Definition O_WRONLY : N := 0x1.
Definition O_RDWR : N := 0x2.
Definition O_CREATE : N := 0x40.
Definition O_EXCL : N := 0x80.
Definition O_TRUNC : N := 0x200.
Definition O_APPEND : N := 0x400.

Definition has (flag bit : N) : bool := negb (N.land flag bit =? 0).

Definition ModeSetuid : N := 2 ^ 23.
Definition ModeSetgid : N := 2 ^ 22.
Definition ModeSticky : N := 2 ^ 20.

(** [os.FileMode(x)] for a [uint64]: conversion to 32 bits. *)
Definition FileMode (x : N) : N := x mod 2 ^ 32.

(** [syscallMode]: the permission bits and the three special bits. *)
Definition syscallMode (i : N) : N :=
  N.lor (N.lor (N.lor (N.land i 0x1ff)
    (if has i ModeSetuid then 0x800 else 0))
    (if has i ModeSetgid then 0x400 else 0))
    (if has i ModeSticky then 0x200 else 0).

(** *** The calls *)

Record FileInfo := mkFileInfo { IsDir : bool }.

Definition isDirNode (n : Node) : bool :=
  match n with Dir _ => true | _ => false end.

(** [os.Getwd]. *)
Definition Getwd : M (string * option error) := λ w,
  match cwd w with
  | Some d => ((d, None), emit (EvCall CGetwd None) w)
  | None =>
      (("", Some (SyscallError "getwd" ENOENT)),
       emit (EvCall CGetwd (Some ENOENT)) w)
  end.

(** [os.Stat]. *)
Definition Stat (name : string) : M (option FileInfo * option error) := λ w,
  match resolve w name ≫= (λ k, fs w !! k) with
  | Some n =>
      ((Some (mkFileInfo (isDirNode n)), None),
       emit (EvCall (CStat name) None) w)
  | None =>
      ((None, Some (PathError "stat" name ENOENT)),
       emit (EvCall (CStat name) (Some ENOENT)) w)
  end.

Definition writeAccess (flag : N) : bool := has flag O_WRONLY || has flag O_RDWR.

(** The [open] system call on the node of [name]. *)
Definition openNode (name : string) (flag perm : N) (w : World)
  : (option Handle * option Errno) * World :=
  match resolve w name with
  | None => ((None, Some ENOENT), w)
  | Some k =>
      let h := Some (mkHandle name k flag) in
      match fs w !! k with
      | Some n =>
          if has flag O_CREATE && has flag O_EXCL then ((None, Some EEXIST), w)
          else
            match n with
            | Dir _ =>
                if has flag O_CREATE || writeAccess flag || has flag O_TRUNC
                then ((None, Some EISDIR), w)
                else ((h, None), w)
            | Link _ => ((None, Some ELOOP), w)
            | File m c =>
                if (writeAccess flag || has flag O_TRUNC)
                     && bool_decide (k ∈ denied w)
                then ((None, Some EACCES), w)
                else if has flag O_TRUNC
                then ((h, None), setFs (insert k (File m "")) w)
                else ((h, None), w)
            end
      | None =>
          if has flag O_CREATE then
            match entryCheck w k with
            | Some e => ((None, Some e), w)
            | None =>
                ((h, None), setFs (insert k (File (syscallMode perm) "")) w)
            end
          else ((None, Some ENOENT), w)
      end
  end.

(** [os.OpenFile]. *)
Definition OpenFile (name : string) (flag perm : N)
  : M (option Handle * option error) := λ w,
  match openNode name flag perm w with
  | ((h, None), w') => ((h, None), emit (EvCall (COpenFile name flag perm) None) w')
  | ((_, Some e), w') =>
      ((None, Some (PathError "open" name e)),
       emit (EvCall (COpenFile name flag perm) (Some e)) w')
  end.

(** [os.Create(name)] is [OpenFile(name, O_RDWR|O_CREATE|O_TRUNC, 0666)]. *)
Definition Create (name : string) : M (option Handle * option error) :=
  OpenFile name (N.lor O_RDWR (N.lor O_CREATE O_TRUNC)) 0x1b6.

(** [File.Name]. *)
Definition Name (h : option Handle) : string :=
  match h with Some h => hname h | None => "" end.

(** [File.Close]; a nil file gives [ErrInvalid]. *)
Definition Close (h : option Handle) : M (option error) := λ w,
  match h with
  | Some h' => (None, emit (EvCall (CClose (Some (hname h'))) None) w)
  | None =>
      (Some (errorString "invalid argument"),
       emit (EvCall (CClose None) (Some EINVAL)) w)
  end.

Definition nextWrite (w : World) : bool * World :=
  match writes w with
  | [] => (true, w)
  | b :: rest =>
      (b, mkWorld (fs w) (cwd w) (denied w) (linkPriv w) (temps w) rest (events w))
  end.

(** The bytes of a file after [data] is written through a descriptor:
    at the end in append mode, else at the position of a fresh descriptor,
    the start (this program writes at most once through such a one). *)
Definition written (flag : N) (content data : string) : string :=
  if has flag O_APPEND then content +:+ data
  else data +:+ String.substring (String.length data)
                  (String.length content - String.length data) content.

(** [File.Write] and [File.WriteString]. *)
Definition Write (h : option Handle) (data : string) : M (nat * option error) := λ w,
  match h with
  | None =>
      ((0%nat, Some (errorString "invalid argument")),
       emit (EvCall (CWrite "" data) (Some EINVAL)) w)
  | Some h' =>
      let (good, w1) := nextWrite w in
      match good, fs w1 !! hkey h' with
      | true, Some (File m c) =>
          ((String.length data, None),
           emit (EvCall (CWrite (hname h') data) None)
             (setFs (insert (hkey h') (File m (written (hflag h') c data))) w1))
      | true, _ =>
          ((0%nat, Some (PathError "write" (hname h') EBADF)),
           emit (EvCall (CWrite (hname h') data) (Some EBADF)) w1)
      | false, _ =>
          ((0%nat, Some (PathError "write" (hname h') EIO)),
           emit (EvCall (CWrite (hname h') data) (Some EIO)) w1)
      end
  end.

Definition mkdirNode (k : Path) (perm : N) (w : World) : option Errno * World :=
  match fs w !! k with
  | Some _ => (Some EEXIST, w)
  | None =>
      match entryCheck w k with
      | Some e => (Some e, w)
      | None => (None, setFs (insert k (Dir (syscallMode perm))) w)
      end
  end.

(** [os.Mkdir]. *)
Definition Mkdir (name : string) (perm : N) : M (option error) := λ w,
  match resolve w name with
  | None =>
      (Some (PathError "mkdir" name ENOENT),
       emit (EvCall (CMkdir name perm) (Some ENOENT)) w)
  | Some k =>
      match mkdirNode k perm w with
      | (Some e, w') =>
          (Some (PathError "mkdir" name e), emit (EvCall (CMkdir name perm) (Some e)) w')
      | (None, w') => (None, emit (EvCall (CMkdir name perm) None) w')
      end
  end.

(** [os.MkdirAll] on the resolved path, innermost element first: a
    directory is accepted as it is, another node is an error, and a missing
    one is made after its parents. *)
Fixpoint mkdirAllRev (rk : list string) (perm : N) (w : World)
  : option Errno * World :=
  match fs w !! rev rk with
  | Some (Dir _) => (None, w)
  | Some _ => (Some ENOTDIR, w)
  | None =>
      match rk with
      | [] => (Some ENOENT, w)
      | _ :: rp =>
          match mkdirAllRev rp perm w with
          | (Some e, w1) => (Some e, w1)
          | (None, w1) => mkdirNode (rev rk) perm w1
          end
      end
  end.

Definition MkdirAll (name : string) (perm : N) : M (option error) := λ w,
  match resolve w name with
  | None =>
      (Some (PathError "mkdir" name ENOENT),
       emit (EvCall (CMkdirAll name perm) (Some ENOENT)) w)
  | Some k =>
      match mkdirAllRev (rev k) perm w with
      | (Some e, w') =>
          (Some (PathError "mkdir" name e),
           emit (EvCall (CMkdirAll name perm) (Some e)) w')
      | (None, w') => (None, emit (EvCall (CMkdirAll name perm) None) w')
      end
  end.

(** [os.Symlink]; creating links needs a privilege on some platforms. *)
Definition Symlink (oldname newname : string) : M (option error) := λ w,
  let fail e :=
    (Some (LinkError "symlink" oldname newname e),
     emit (EvCall (CSymlink oldname newname) (Some e)) w) in
  if negb (linkPriv w) then fail EPERM
  else
    match resolve w newname with
    | None => fail ENOENT
    | Some k =>
        match fs w !! k with
        | Some _ => fail EEXIST
        | None =>
            match entryCheck w k with
            | Some e => fail e
            | None =>
                (None, emit (EvCall (CSymlink oldname newname) None)
                         (setFs (insert k (Link oldname)) w))
            end
        end
    end.

Definition hasChild (w : World) (k : Path) : bool :=
  bool_decide (set_Exists (λ k', k' ≠ [] ∧ parent k' = k) (dom (fs w))).

(** [os.Remove]. *)
Definition Remove (name : string) : M (option error) := λ w,
  let fail e :=
    (Some (PathError "remove" name e), emit (EvCall (CRemove name) (Some e)) w) in
  match resolve w name with
  | None => fail ENOENT
  | Some k =>
      match fs w !! k with
      | None => fail ENOENT
      | Some n =>
          if isDirNode n && hasChild w k then fail ENOTEMPTY
          else
            match entryCheck w k with
            | Some e => fail e
            | None =>
                (None, emit (EvCall (CRemove name) None) (setFs (delete k) w))
            end
      end
  end.

Definition endsWithSlash (s : string) : bool :=
  match String.get (String.length s - 1) s with
  | Some c => Ascii.eqb c "/"
  | None => false
  end.

(** [joinPath] of [package os]: plain concatenation, no cleaning. *)
Definition joinPath (dir name : string) : string :=
  if endsWithSlash dir then dir +:+ name else dir +:+ "/" +:+ name.

Definition setTemps (t : list string) (w : World) : World :=
  mkWorld (fs w) (cwd w) (denied w) (linkPriv w) t (writes w) (events w).

(** The loop of [os.CreateTemp] for a pattern without a star: a random string
    is drawn for every attempt, and an attempt is repeated, up to 10000
    times, when the name exists. *)
Fixpoint createTempLoop (prefix : string) (pattern : string)
    (draws : list string) (try : N) (w : World)
  : (option Handle * option error) * World :=
  match draws with
  | [] =>
      ((None, Some (PathError "createtemp" (pattern +:+ "*") EEXIST)), setTemps [] w)
  | r :: rest =>
      let name := prefix +:+ r in
      let flag := N.lor O_RDWR (N.lor O_CREATE O_EXCL) in
      match OpenFile name flag 0x180 (setTemps rest w) with
      | ((_, Some (PathError _ _ EEXIST)), w1) =>
          if try + 1 <? 10000 then createTempLoop prefix pattern rest (try + 1) w1
          else ((None, Some (PathError "createtemp" (pattern +:+ "*") EEXIST)), w1)
      | r1 => r1
      end
  end.

(** [os.CreateTemp(dir, pattern)] for a non-empty [dir]. *)
Definition CreateTemp (dir pattern : string) : M (option Handle * option error) :=
  λ w, createTempLoop (joinPath dir pattern) pattern (temps w) 0 w.

(** [filepath.Abs], placed here as it reads the working directory. *)
Definition Abs (path : string) : M (string * option error) :=
  if filepath.isRooted path then ret (filepath.Clean path, None)
  else
    let* (wd, err) := Getwd in
    match err with
    | Some e => ret ("", Some e)
    | None => ret (filepath.Join [wd; path], None)
    end.

End os.

(** ** [package internal]: [initialize.go] *)

Module internal.

Import os.
Local Open Scope os_scope.

(** Go's [any], for the values the options map holds. *)
Inductive any := anyBool (b : bool) | anyString (s : string) | anyInt (n : N).

(** The type assertions [v.(bool)] and [v.(string)] in their two-value
    form: the zero value and [false] on a missing key or another type. *)
Definition assertBool (v : option any) : bool * bool :=
  match v with Some (anyBool b) => (b, true) | _ => (false, false) end.

Definition assertString (v : option any) : string * bool :=
  match v with Some (anyString s) => (s, true) | _ => ("", false) end.

Definition jitFileSystem : gmap string util.File :=
  list_to_map
    [ (util.MAIN, util.DataFile);
      (util.HEAD, util.DataFile);
      (util.STAGE, util.DataFile);
      (util.CONFIG, util.DataFile);
      (util.LOGS, util.Directory);
      (util.INFO, util.Directory);
      (util.BRANCHES, util.Directory);
      (util.SNAPSHOTS, util.Directory);
      (util.OBJECTS, util.Directory) ].

Definition ConstructFinalJitDir (wkDir sepDir : string) (bare : bool) : string :=
  if negb (String.eqb sepDir "") then sepDir
  else if bare then wkDir
  else filepath.Join [wkDir; util.JitDirName].

Definition ValidateDirPath (currentDir : string) : M (option error) :=
  let* (info, pathErr) := Stat currentDir in
  match pathErr with
  | Some e => ret (Some e)
  | None =>
      if negb (from_option IsDir false info)
      then ret (Some (errorString (currentDir +:+ " is not a directory")))
      else ret None
  end.

Definition CheckWritePermission (currentDir : string) : M (option error) :=
  let* (file, tempErr) := CreateTemp currentDir "test" in
  match tempErr with
  | Some _ =>
      ret (Some (errorString
             ("you don't have write permissions here -> " +:+ currentDir)))
  | None =>
      (* the two deferred calls, the last one registered first *)
      closeErr <- Close file ;;
      (match closeErr with
       | Some e => log "Error closing temporary file: " (Some e)
       | None => ret ()
       end) ;;
      removeErr <- Remove (Name file) ;;
      (match removeErr with
       | Some e => log "Error removing temporary file: " (Some e)
       | None => ret ()
       end) ;;
      ret None
  end.

Definition GetJitRootDir (dirPath : string) : M (string * option error) :=
  if negb (String.eqb dirPath "") then
    validPathErr <- ValidateDirPath dirPath ;;
    match validPathErr with
    | Some e => ret ("", Some e)
    | None =>
        permErr <- CheckWritePermission dirPath ;;
        match permErr with
        | Some e => ret ("", Some e)
        | None => ret (dirPath, None)
        end
    end
  else
    let* (curDir, curErr) := Getwd in
    match curErr with
    | Some e => ret ("", Some e)
    | None => ret (curDir, None)
    end.

Definition SetUpInitialBranch (jitDir initialBranch : string)
  : M (bool * option error) :=
  let branchPath := filepath.Join [jitDir; util.BRANCHES; initialBranch] in
  let* (bf, openBranchErr) :=
    OpenFile branchPath (N.lor O_APPEND O_CREATE) util.DefaultFilePerm in
  match openBranchErr with
  | Some e => Close bf ;; ret (false, Some e)
  | None =>
      let headPath := filepath.Join [jitDir; util.HEAD] in
      let* (hf, openHeadErr) :=
        OpenFile headPath (N.lor O_RDWR (N.lor O_CREATE O_TRUNC))
          util.DefaultFilePerm in
      match openHeadErr with
      | Some e => Close hf ;; Close bf ;; ret (false, Some e)
      | None =>
          let* (_, writeErr) := Write hf (Name bf) in
          match writeErr with
          | Some e => Close hf ;; Close bf ;; ret (false, Some e)
          | None => Close hf ;; Close bf ;; ret (true, None)
          end
      end
  end.

Section Ranges.

(** The order in which a [for ... range] statement visits a map is not
    specified by Go; the program is embedded over any such order. *)
Variable range : ∀ V : Type, gmap string V → list (string * V).

(** The body of the loop of [CreateJitDir] for the entries still to be
    visited; [break] ends the loop. *)
Fixpoint createEntries (wkDir : string) (entries : list (string * util.File))
  : M unit :=
  match entries with
  | [] => ret ()
  | (k, v) :: rest =>
      brk <-
        (if decide (v = util.DataFile) then
           let* (file, createErr) := Create (filepath.Join [wkDir; k]) in
           match createErr with
           | Some e => log "" (Some e) ;; ret true
           | None =>
               closeErr <- Close file ;;
               match closeErr with
               | Some e => log "" (Some e) ;; ret true
               | None => ret false
               end
           end
         else ret false) ;;
      if brk : bool then ret ()
      else
        brk <-
          (if decide (v = util.Directory) then
             createErr <-
               MkdirAll (filepath.Join [wkDir; k]) util.DefaultFilePerm ;;
             match createErr with
             | Some e => log "" (Some e) ;; ret true
             | None => ret false
             end
           else ret false) ;;
        if brk : bool then ret () else createEntries wkDir rest
  end.

Definition AlreadyInitialized (wkDir : string) : error :=
  errorString
    (" " +:+ wkDir +:+ " already contains a jit repository. change the current directory or remove the .jit from current directory.").

Definition CreateJitDir (wkDir : string) (sepDir bare : bool)
    (filePermission : N) : M (bool * option error) :=
  if negb sepDir && negb bare then
    mkErr <- Mkdir (filepath.Join [wkDir; util.JitDirName])
               (FileMode filePermission) ;;
    match mkErr with
    | Some _ => ret (false, Some (AlreadyInitialized wkDir))
    | None =>
        createEntries (filepath.Join [wkDir; util.JitDirName])
          (range _ jitFileSystem) ;;
        ret (true, None)
    end
  else
    createEntries wkDir (range _ jitFileSystem) ;;
    ret (true, None).

Fixpoint writeEntries (f : option Handle) (entries : list (string * string))
  : M unit :=
  match entries with
  | [] => ret ()
  | (k, v) :: rest =>
      let line := k +:+ "=" +:+ v +:+ String "010" "" in
      let* (_, writeErr) := Write f line in
      (match writeErr with
       | Some e => log "" (Some e)
       | None => ret ()
       end) ;;
      writeEntries f rest
  end.

Definition WriteToConfigFile (config : gmap string string) (jitDir : string)
  : M (bool * option error) :=
  let configFile := filepath.Join [jitDir; util.CONFIG] in
  let* (f, openErr) :=
    OpenFile configFile (N.lor O_APPEND O_CREATE) util.DefaultFilePerm in
  match openErr with
  | Some e => Close f ;; ret (false, Some e)
  | None =>
      writeEntries f (range _ config) ;;
      Close f ;;
      ret (true, None)
  end.

Definition SymlinkError : error :=
  errorString
    "start the terminal in administrative mode to use separate directory option".

Definition InitializeJitRepository (options : gmap string any) (dir : string)
  : M (bool * option error) :=
  let '(quiet, ok) := assertBool (options !! "quiet") in
  (if negb ok then log "Quiet mode failed" None else ret ()) ;;
  let '(bare, ok) := assertBool (options !! "bare") in
  (if negb ok then log "Bare option failed" None else ret ()) ;;
  let '(separateJitDir, ok) := assertString (options !! "separate-jit-dir") in
  (if negb ok then log "Separate Jit Dir failed" None else ret ()) ;;
  let '(template, ok) := assertString (options !! "template") in
  (if negb ok then log "Template option failed" None else ret ()) ;;
  let '(objectFormat, ok) := assertString (options !! "object-format") in
  (if negb ok then log "Object format option failed" None else ret ()) ;;
  let '(initialBranch, ok) := assertString (options !! "initial-branch") in
  (if negb ok then log "Initial Branch option failed" None else ret ()) ;;
  let '(directoryPerm, ok) := assertString (options !! "perm") in
  (if negb ok then log "Permission option failed" None else ret ()) ;;
  let '(parsed, convertErr) := strconv.ParseUint directoryPerm 8 32 in
  let filePermission :=
    match convertErr with Some _ => 0x1ed | None => parsed end in
  stage RESOLVE_DIRS ;;
  let* (sepDir, sepErr) :=
    (if negb (String.eqb separateJitDir "") then GetJitRootDir separateJitDir
     else ret ("", None)) in
  match sepErr with
  | Some e => ret (false, Some e)
  | None =>
  let* (workingDir, wkDirErr) := GetJitRootDir dir in
  match wkDirErr with
  | Some e => ret (false, Some e)
  | None =>
  let* (_, scaffoldErr) :=
    (if negb (String.eqb separateJitDir "") then
       stage LINK_IF_SEPARATE ;;
       createErr <-
         Symlink sepDir (filepath.Join [workingDir; util.JitDirName]) ;;
       match createErr with
       | Some _ => ret (false, Some SymlinkError)
       | None =>
           stage SCAFFOLD ;;
           CreateJitDir sepDir true bare filePermission
       end
     else
       stage SCAFFOLD ;;
       CreateJitDir workingDir false bare filePermission) in
  match scaffoldErr with
  | Some e => ret (false, Some e)
  | None =>
  stage WRITE_CONFIG ;;
  let config : gmap string string :=
    <["INITIAL-BRANCH" := initialBranch]>
      (<["OBJECT-FORMAT" := objectFormat]> (<["TEMPLATE" := template]> ∅)) in
  let finalJitDir := ConstructFinalJitDir workingDir sepDir bare in
  let* (_, writeErr) := WriteToConfigFile config finalJitDir in
  (match writeErr with
   | Some e => log "" (Some e)
   | None => ret ()
   end) ;;
  stage SET_BRANCH ;;
  let* (_, setupErr) := SetUpInitialBranch finalJitDir initialBranch in
  match setupErr with
  | Some e =>
      log "encountered an error while creating a jit repository." None ;;
      ret (false, Some e)
  | None =>
      (if negb quiet then
         let* (dirAbs, _) := Abs workingDir in
         log ("Successfully initialized a new jit repository -> "
                +:+ filepath.Join [dirAbs; util.JitDirName]) None
       else ret ()) ;;
      ret (true, None)
  end end end end.

End Ranges.

End internal.

(** ** [package flag], as far as the commands use it *)

Module flag.

(** [strconv.ParseBool], which [boolValue.Set] calls. *)
Definition ParseBool (str : string) : option bool :=
  if existsb (String.eqb str) ["1"; "t"; "T"; "true"; "TRUE"; "True"] then Some true
  else if existsb (String.eqb str) ["0"; "f"; "F"; "false"; "FALSE"; "False"]
  then Some false
  else None.

(** A flag of a set: a [boolValue] or a [stringValue], bound to a variable
    of the program state [S] it sets. *)
Inductive Value (S : Type) :=
| boolValue (set : bool → S → S)
| stringValue (set : string → S → S).

Arguments boolValue {S} set.
Arguments stringValue {S} set.

Inductive Error :=
| ErrHelp
| badSyntax (s : string)
| notDefined (name : string)
| invalidBoolean (value name : string)
| needsArgument (name : string).

(** The text before and after the first [=]. *)
Fixpoint cutEq (s : string) : option (string * string) :=
  match s with
  | EmptyString => None
  | String c r =>
      if Ascii.eqb c "=" then Some (EmptyString, r)
      else match cutEq r with
           | Some (a, b) => Some (String c a, b)
           | None => None
           end
  end.

(** The name of a flag and its value, if the argument holds one: the
    equals sign is looked for from the second character on. *)
Definition nameValue (name : string) : string * option string :=
  match name with
  | EmptyString => (name, None)
  | String c r =>
      match cutEq r with
      | Some (a, v) => (String c a, Some v)
      | None => (name, None)
      end
  end.

Definition startsWith (c : ascii) (s : string) : bool :=
  match s with String d _ => Ascii.eqb c d | EmptyString => false end.

Definition dropDashes (numMinuses : nat) (s : string) : string :=
  String.substring numMinuses (String.length s - numMinuses) s.

Section Parse.

Context {S : Type}.
Variable formal : gmap string (Value S).

(** [FlagSet.Parse]: [parseOne] is repeated while it sees a flag.  The
    result is the state with the flags set and the arguments that remain, or
    the error that ended the parsing. *)
Fixpoint Parse (args : list string) (st : S) : (S * list string) + Error :=
  match args with
  | [] => inl (st, [])
  | s :: rest =>
      if (String.length s <? 2)%nat || negb (startsWith "-" s) then inl (st, args)
      else
        let double := startsWith "-" (dropDashes 1 s) in
        if double && (String.length s =? 2)%nat then inl (st, rest)
        else
          let name := dropDashes (if double then 2 else 1) s in
          if (String.length name =? 0)%nat || startsWith "-" name || startsWith "=" name
          then inr (badSyntax s)
          else
            let (name, value) := nameValue name in
            match formal !! name with
            | None =>
                if String.eqb name "help" || String.eqb name "h" then inr ErrHelp
                else inr (notDefined name)
            | Some (boolValue set) =>
                match value with
                | Some v =>
                    match ParseBool v with
                    | Some b => Parse rest (set b st)
                    | None => inr (invalidBoolean v name)
                    end
                | None => Parse rest (set true st)
                end
            | Some (stringValue set) =>
                match value with
                | Some v => Parse rest (set v st)
                | None =>
                    match rest with
                    | v :: rest' => Parse rest' (set v st)
                    | [] => inr (needsArgument name)
                    end
                end
            end
  end.

End Parse.

(** [FlagSet.Arg(i)]: the empty string when there is no such argument. *)
Definition Arg (args : list string) (i : nat) : string := nth i args "".

(** The status a set made with [ExitOnError] ends the process with. *)
Definition exitStatus (e : Error) : N :=
  match e with ErrHelp => 0 | _ => 2 end.

End flag.

(** ** [package cmd] *)

Module cmd.

Import os internal.
Local Open Scope os_scope.

(** The package-level variables the flags of [initCmd] are bound to. *)
Record Vars := mkVars {
  quiet : bool;
  bare : bool;
  template : string;
  separateJitDir : string;
  objectFormat : string;
  branch : string;
  permission : string
}.

(** The variables as [init] leaves them: the defaults of the flags. *)
Definition defaults : Vars := mkVars false false "" "" "sha1" "main" "0755".

Definition setQuiet (b : bool) (v : Vars) : Vars :=
  mkVars b (bare v) (template v) (separateJitDir v) (objectFormat v) (branch v)
    (permission v).
Definition setBare (b : bool) (v : Vars) : Vars :=
  mkVars (quiet v) b (template v) (separateJitDir v) (objectFormat v) (branch v)
    (permission v).
Definition setTemplate (s : string) (v : Vars) : Vars :=
  mkVars (quiet v) (bare v) s (separateJitDir v) (objectFormat v) (branch v)
    (permission v).
Definition setSeparateJitDir (s : string) (v : Vars) : Vars :=
  mkVars (quiet v) (bare v) (template v) s (objectFormat v) (branch v)
    (permission v).
Definition setObjectFormat (s : string) (v : Vars) : Vars :=
  mkVars (quiet v) (bare v) (template v) (separateJitDir v) s (branch v)
    (permission v).
Definition setBranch (s : string) (v : Vars) : Vars :=
  mkVars (quiet v) (bare v) (template v) (separateJitDir v) (objectFormat v) s
    (permission v).
Definition setPermission (s : string) (v : Vars) : Vars :=
  mkVars (quiet v) (bare v) (template v) (separateJitDir v) (objectFormat v)
    (branch v) s.

(** The flags [init] defines on [initCmd]. *)
Definition initCmd : gmap string (flag.Value Vars) :=
  list_to_map
    [ ("quiet", flag.boolValue setQuiet);
      ("q", flag.boolValue setQuiet);
      ("bare", flag.boolValue setBare);
      ("template", flag.stringValue setTemplate);
      ("separate-jit-dir", flag.stringValue setSeparateJitDir);
      ("object-format", flag.stringValue setObjectFormat);
      ("b", flag.stringValue setBranch);
      ("initial-branch", flag.stringValue setBranch);
      ("perm", flag.stringValue setPermission) ].

(** The options map [Initialize] builds from the variables. *)
Definition optionsOf (v : Vars) : gmap string any :=
  list_to_map
    [ ("quiet", anyBool (quiet v));
      ("bare", anyBool (bare v));
      ("separate-jit-dir", anyString (separateJitDir v));
      ("template", anyString (template v));
      ("object-format", anyString (objectFormat v));
      ("initial-branch", anyString (branch v));
      ("perm", anyString (permission v)) ].

(** How a call ends: it returns, leaving the variables, or the process
    exits with a status. *)
Inductive Outcome := Returned (v : Vars) | Exited (status : N).

Section Commands.

Variable range : ∀ V : Type, gmap string V → list (string * V).

(** [Initialize(args)].  [initCmd] is made with [flag.ExitOnError], so a
    parse error ends the process inside [Parse]; [log.Fatalln(initErr)] logs
    the error alone and ends the process with status 1. *)
Definition Initialize (args : list string) (v : Vars) : M Outcome :=
  match flag.Parse initCmd args v with
  | inr e => ret (Exited (flag.exitStatus e))
  | inl (v', rest) =>
      let workingDirectory := flag.Arg rest 0 in
      let options := optionsOf v' in
      let* (_, initErr) := InitializeJitRepository range options workingDirectory in
      match initErr with
      | Some e => log "" (Some e) ;; ret (Exited 1)
      | None => ret (Returned v')
      end
  end.

(** [handleCommand]. *)
Definition handleCommand (command : string) (args : list string) (v : Vars)
  : M Outcome :=
  if String.eqb command util.Init then Initialize args v
  else
    log ("Invalid command " +:+ command +:+ ": use jit -h for help"
           +:+ String "010" "") None ;;
    ret (Exited 1).

(** The variables of the global flags, and the flags [init] defines on
    [flag.CommandLine]. *)
Record Globals := mkGlobals { help : bool; version : bool }.

Definition commandLine : gmap string (flag.Value Globals) :=
  list_to_map
    [ ("help", flag.boolValue (λ b g, mkGlobals b (version g)));
      ("h", flag.boolValue (λ b g, mkGlobals b (version g)));
      ("version", flag.boolValue (λ b g, mkGlobals (help g) b));
      ("v", flag.boolValue (λ b g, mkGlobals (help g) b)) ].

(** What a run shows besides its log: the help pages ([util.DisplayHelpDocs],
    kept abstract) or a text on the standard output. *)
Inductive Shown := HelpDocs (topic : string) | Printed (text : string).

(** [Jit()], over the arguments of the process after its name. *)
Definition Jit (args : list string) (g : Globals) (v : Vars)
  : M (option Shown * Outcome) :=
  match flag.Parse commandLine args g with
  | inr e => ret (None, Exited (flag.exitStatus e))
  | inl (g', rest) =>
      if help g' then ret (Some (HelpDocs "index"), Returned v)
      else if version g'
      then ret (Some (Printed ("Jit Version " +:+ util.JitVersion)), Returned v)
      else
        match rest with
        | command :: commandArgs =>
            out <- handleCommand command commandArgs v ;;
            ret (None, out)
        | [] =>
            log "No command provided: use jit -h for help" None ;;
            ret (None, Exited 1)
        end
  end.

End Commands.

End cmd.

(** ** Worlds used to run the program on concrete inputs *)

Module Examples.

Import os internal.

(** An enumeration of a map, by ascending key: one of the orders a
    [range] may follow. *)
Definition enumerate : ∀ V : Type, gmap string V → list (string * V) :=
  λ V m, merge_sort (λ x y, String.le x.1 y.1) (map_to_list m).

Definition options (quiet bare : bool) (separate branch perm : string)
  : gmap string any :=
  list_to_map
    [ ("quiet", anyBool quiet); ("bare", anyBool bare);
      ("separate-jit-dir", anyString separate); ("template", anyString "");
      ("object-format", anyString "sha1"); ("initial-branch", anyString branch);
      ("perm", anyString perm) ].

(** A world whose file system holds the directories [dirs] (mode 0755)
    and nothing else. *)
Definition worldOf (dirs : list Path) (deny : list Path) (draws : list string)
  : World :=
  mkWorld (list_to_map ((λ d, (d, Dir 0x1ed)) <$> dirs)) (Some "/home")
    (list_to_set deny) true draws [] [].

(** [/w] is an empty writable directory. *)
Definition fresh : World := worldOf [[]; ["home"]; ["w"]] [] ["1"; "2"].

(** [/w] holds two directories named [main] and [branches]. *)
Definition occupied : World :=
  worldOf [[]; ["home"]; ["w"]; ["w"; "main"]; ["w"; "branches"]] [] ["1"; "2"].

(** [/w] holds two directories named [config] and [branches]. *)
Definition configTaken : World :=
  worldOf [[]; ["home"]; ["w"]; ["w"; "config"]; ["w"; "branches"]] [] ["1"; "2"].

(** [/w] exists but the process may not create entries in it. *)
Definition readOnly : World := worldOf [[]; ["home"]; ["w"]] [["w"]] ["1"; "2"].

End Examples.

(** * Properties *)

Module Props.

Import os internal.
Local Open Scope os_scope.

Arguments filepath.Join : simpl never.
Arguments filepath.Clean : simpl never.
Arguments Getwd : simpl never.
Arguments Stat : simpl never.
Arguments OpenFile : simpl never.
Arguments Create : simpl never.
Arguments Close : simpl never.
Arguments Write : simpl never.
Arguments Mkdir : simpl never.
Arguments MkdirAll : simpl never.
Arguments Symlink : simpl never.
Arguments Remove : simpl never.
Arguments CreateTemp : simpl never.
Arguments Abs : simpl never.
Arguments log : simpl never.
Arguments stage : simpl never.
Arguments FileMode : simpl never.

(** ** The layout planner *)

(** C6. [ConstructFinalJitDir] is a function of its three arguments alone:
    a non-empty separate directory is the root whatever [bare] is; with no
    separate directory the root is the working directory for a bare
    repository and the working directory joined with [.jit] otherwise. *)
Theorem ConstructFinalJitDir_plan (wkDir : string) :
  (∀ (c : ascii) (sep : string) (anyBool : bool),
      ConstructFinalJitDir wkDir (String c sep) anyBool = String c sep)
  ∧ ConstructFinalJitDir wkDir "" true = wkDir
  ∧ ConstructFinalJitDir wkDir "" false
    = filepath.Join [wkDir; util.JitDirName].
Proof. repeat split. Qed.

(** ** The guard of the scaffolder *)

Lemma CreateJitDir_guard_fails range wkDir perm w e w1 :
  Mkdir (filepath.Join [wkDir; util.JitDirName]) (FileMode perm) w = (Some e, w1) →
  CreateJitDir range wkDir false false perm w
  = ((false, Some (AlreadyInitialized wkDir)), w1).
Proof. intros H. unfold CreateJitDir, bind. simpl. by rewrite H. Qed.

Lemma CreateJitDir_error_kind range wkDir sepDir bare perm w ok err w1 :
  CreateJitDir range wkDir sepDir bare perm w = ((ok, Some err), w1) →
  ok = false ∧ err = AlreadyInitialized wkDir ∧ sepDir = false ∧ bare = false.
Proof.
  unfold CreateJitDir, bind, ret.
  destruct sepDir, bare; simpl;
    try (destruct (createEntries _ _ _) as [[] ?]; intros [=]).
  destruct (Mkdir _ _ _) as [[e|] w2].
  - by intros [= <- <- <-].
  - destruct (createEntries _ _ _) as [[] ?]. intros [=].
Qed.

(** C10. Whatever makes the creation of the metadata directory fail (it
    exists already, its parent is missing or is no directory, access is
    denied), [CreateJitDir] returns the "already contains a jit repository"
    error for the working directory and leaves the world as the failed
    [Mkdir] left it; and no error of [CreateJitDir] is of another kind. *)
Theorem guard_reports_AlreadyInitialized range wkDir perm w :
  (∀ e w1,
      Mkdir (filepath.Join [wkDir; util.JitDirName]) (FileMode perm) w
      = (Some e, w1) →
      CreateJitDir range wkDir false false perm w
      = ((false, Some (AlreadyInitialized wkDir)), w1))
  ∧ (∀ sepDir bare ok err w1,
      CreateJitDir range wkDir sepDir bare perm w = ((ok, Some err), w1) →
      err = AlreadyInitialized wkDir).
Proof.
  split.
  - intros e w1 H. by apply (CreateJitDir_guard_fails _ _ _ _ e).
  - intros ????? H. by apply CreateJitDir_error_kind in H as (_ & ? & _).
Qed.

(** The guard fails for want of permission, not because [.jit] exists. *)
Lemma guard_reports_AlreadyInitialized_witness :
  Mkdir (filepath.Join ["/w"; util.JitDirName]) (FileMode 0x1ed) Examples.readOnly
  = (Some (PathError "mkdir" "/w/.jit" EACCES),
     emit (EvCall (CMkdir "/w/.jit" 0x1ed) (Some EACCES)) Examples.readOnly)
  ∧ CreateJitDir Examples.enumerate "/w" false false 0x1ed Examples.readOnly
    = ((false, Some (AlreadyInitialized "/w")),
       emit (EvCall (CMkdir "/w/.jit" 0x1ed) (Some EACCES)) Examples.readOnly).
Proof.
  split; [vm_compute; reflexivity|].
  apply (proj1 (guard_reports_AlreadyInitialized Examples.enumerate "/w" 0x1ed
                  Examples.readOnly) (PathError "mkdir" "/w/.jit" EACCES)).
  vm_compute; reflexivity.
Defined.

(** ** Worlds that grow

    No call of the program but [Remove] takes a node away or changes its
    kind, and none changes the environment. *)

Inductive Kind := KFile | KDir | KLink.

Definition kind (n : Node) : Kind :=
  match n with File _ _ => KFile | Dir _ => KDir | Link _ => KLink end.

Record grows (w w' : World) : Prop := mkGrows {
  grows_cwd : cwd w' = cwd w;
  grows_denied : denied w' = denied w;
  grows_linkPriv : linkPriv w' = linkPriv w;
  grows_nodes :
    ∀ k n, fs w !! k = Some n → ∃ n', fs w' !! k = Some n' ∧ kind n' = kind n
}.

Lemma grows_refl w : grows w w.
Proof. split; eauto. Qed.

Lemma grows_trans w1 w2 w3 : grows w1 w2 → grows w2 w3 → grows w1 w3.
Proof.
  intros [] []. split; try congruence.
  intros k n Hk. edestruct grows_nodes0 as (n' & Hn' & Hk'); [done|].
  edestruct grows_nodes1 as (n'' & Hn'' & Hk''); [done|].
  exists n''. split; [done|congruence].
Qed.

Lemma grows_emit e w : grows w (emit e w).
Proof. split; eauto. Qed.

Lemma grows_sameFs w w' :
  fs w' = fs w → cwd w' = cwd w → denied w' = denied w →
  linkPriv w' = linkPriv w → grows w w'.
Proof. intros Hf ???. split; try done. rewrite Hf. eauto. Qed.

Lemma grows_insert w k n :
  (∀ n0, fs w !! k = Some n0 → kind n = kind n0) →
  grows w (setFs (insert k n) w).
Proof.
  intros Hk. split; try done. intros k' n' Hn'. simpl.
  destruct (decide (k = k')) as [<-|Hne].
  - rewrite lookup_insert_eq. eauto.
  - rewrite lookup_insert_ne by done. eauto.
Qed.

Lemma resolve_grows w w' name : grows w w' → resolve w' name = resolve w name.
Proof. intros []. unfold resolve. by rewrite grows_cwd0. Qed.

Definition Grows {A} (m : M A) : Prop := ∀ w, grows w (m w).2.

Lemma Grows_ret {A} (a : A) : Grows (ret a).
Proof. intros w. apply grows_refl. Qed.

Lemma Grows_bind {A B} (m : M A) (k : A → M B) :
  Grows m → (∀ a, Grows (k a)) → Grows (bind m k).
Proof.
  intros Hm Hk w. unfold bind. specialize (Hm w).
  destruct (m w) as [a w1]. eapply grows_trans; [exact Hm|apply Hk].
Qed.

Lemma Grows_log msg e : Grows (log msg e).
Proof. intros w. apply grows_emit. Qed.

Lemma Grows_stage s : Grows (stage s).
Proof. intros w. apply grows_emit. Qed.

Lemma Grows_Getwd : Grows Getwd.
Proof. intros w. unfold Getwd. destruct (cwd w); apply grows_emit. Qed.

Lemma Grows_Stat name : Grows (Stat name).
Proof. intros w. unfold Stat. destruct (_ ≫= _); apply grows_emit. Qed.

Lemma Grows_Close h : Grows (Close h).
Proof. intros w. unfold Close. destruct h; apply grows_emit. Qed.

Lemma grows_openNode name flag perm w : grows w (openNode name flag perm w).2.
Proof.
  unfold openNode.
  repeat case_match; simpl; try apply grows_refl;
    apply grows_insert; intros n0 Hn0; by simplify_eq.
Qed.

Lemma Grows_OpenFile name flag perm : Grows (OpenFile name flag perm).
Proof.
  intros w. unfold OpenFile. pose proof (grows_openNode name flag perm w) as H.
  destruct (openNode name flag perm w) as [[h [e|]] w1]; simpl in *;
    (eapply grows_trans; [exact H|apply grows_emit]).
Qed.

Lemma Grows_Create name : Grows (Create name).
Proof. apply Grows_OpenFile. Qed.

Lemma grows_nextWrite w : grows w (nextWrite w).2.
Proof. unfold nextWrite. destruct (writes w); by apply grows_sameFs. Qed.

Lemma Grows_Write h data : Grows (Write h data).
Proof.
  intros w. unfold Write. destruct h as [h|]; [|apply grows_emit].
  pose proof (grows_nextWrite w) as H.
  destruct (nextWrite w) as [good w1]; simpl in H.
  eapply grows_trans; [exact H|].
  destruct good; [|apply grows_emit].
  destruct (fs w1 !! hkey h) as [[m c| |]|] eqn:Hk; try apply grows_emit.
  eapply grows_trans; [|apply grows_emit].
  apply grows_insert. intros n0 Hn0. by simplify_eq.
Qed.

Lemma grows_mkdirNode k perm w : grows w (mkdirNode k perm w).2.
Proof.
  unfold mkdirNode. repeat case_match; simpl; try apply grows_refl.
  apply grows_insert. intros n0 Hn0. by simplify_eq.
Qed.

Lemma Grows_Mkdir name perm : Grows (Mkdir name perm).
Proof.
  intros w. unfold Mkdir. destruct (resolve w name) as [k|]; [|apply grows_emit].
  pose proof (grows_mkdirNode k perm w) as H.
  destruct (mkdirNode k perm w) as [[e|] w1]; simpl in *;
    (eapply grows_trans; [exact H|apply grows_emit]).
Qed.

Lemma grows_mkdirAllRev rk perm w : grows w (mkdirAllRev rk perm w).2.
Proof.
  revert w. induction rk as [|c rp IH]; intros w; simpl.
  - repeat case_match; apply grows_refl.
  - destruct (fs w !! _) as [[]|]; simpl; try apply grows_refl.
    specialize (IH w). destruct (mkdirAllRev rp perm w) as [[e|] w1]; [done|].
    simpl in IH. eapply grows_trans; [exact IH|apply grows_mkdirNode].
Qed.

Lemma Grows_MkdirAll name perm : Grows (MkdirAll name perm).
Proof.
  intros w. unfold MkdirAll. destruct (resolve w name) as [k|]; [|apply grows_emit].
  pose proof (grows_mkdirAllRev (rev k) perm w) as H.
  destruct (mkdirAllRev (rev k) perm w) as [[e|] w1]; simpl in *;
    (eapply grows_trans; [exact H|apply grows_emit]).
Qed.

Lemma Grows_Symlink old new : Grows (Symlink old new).
Proof.
  intros w. unfold Symlink. repeat case_match; simpl; try apply grows_emit.
  eapply grows_trans; [|apply grows_emit]. apply grows_insert.
  intros n0 Hn0. by simplify_eq.
Qed.

Lemma Grows_Abs path : Grows (Abs path).
Proof.
  unfold Abs. destruct (filepath.isRooted path); [apply Grows_ret|].
  apply Grows_bind; [apply Grows_Getwd|]. intros [wd [e|]]; apply Grows_ret.
Qed.

(** ** Calls that leave the file system as it is *)

Record sameFiles (w w' : World) : Prop := mkSameFiles {
  same_fs : fs w' = fs w;
  same_cwd : cwd w' = cwd w;
  same_denied : denied w' = denied w;
  same_linkPriv : linkPriv w' = linkPriv w
}.

Lemma sameFiles_refl w : sameFiles w w.
Proof. by split. Qed.

Lemma sameFiles_trans w1 w2 w3 : sameFiles w1 w2 → sameFiles w2 w3 → sameFiles w1 w3.
Proof. intros [] []. split; congruence. Qed.

Lemma sameFiles_emit e w : sameFiles w (emit e w).
Proof. by split. Qed.

Lemma sameFiles_grows w w' : sameFiles w w' → grows w w'.
Proof. intros []. by apply grows_sameFs. Qed.

Lemma resolve_sameFiles w w' name : sameFiles w w' → resolve w' name = resolve w name.
Proof. intros H. by apply resolve_grows, sameFiles_grows. Qed.

Definition Keeps {A} (m : M A) : Prop := ∀ w, sameFiles w (m w).2.

Lemma Keeps_Grows {A} (m : M A) : Keeps m → Grows m.
Proof. intros H w. apply sameFiles_grows, H. Qed.

Lemma Keeps_ret {A} (a : A) : Keeps (ret a).
Proof. intros w. apply sameFiles_refl. Qed.

Lemma Keeps_bind {A B} (m : M A) (k : A → M B) :
  Keeps m → (∀ a, Keeps (k a)) → Keeps (bind m k).
Proof.
  intros Hm Hk w. unfold bind. specialize (Hm w).
  destruct (m w) as [a w1]. eapply sameFiles_trans; [exact Hm|apply Hk].
Qed.

Lemma Keeps_log msg e : Keeps (log msg e).
Proof. intros w. apply sameFiles_emit. Qed.

Lemma Keeps_stage s : Keeps (stage s).
Proof. intros w. apply sameFiles_emit. Qed.

Lemma Keeps_Getwd : Keeps Getwd.
Proof. intros w. unfold Getwd. destruct (cwd w); apply sameFiles_emit. Qed.

Lemma Keeps_Stat name : Keeps (Stat name).
Proof. intros w. unfold Stat. destruct (_ ≫= _); apply sameFiles_emit. Qed.

Lemma Keeps_Close h : Keeps (Close h).
Proof. intros w. unfold Close. destruct h; apply sameFiles_emit. Qed.

Lemma Keeps_Abs path : Keeps (Abs path).
Proof.
  unfold Abs. destruct (filepath.isRooted path); [apply Keeps_ret|].
  apply Keeps_bind; [apply Keeps_Getwd|]. intros [wd [e|]]; apply Keeps_ret.
Qed.

Lemma openNode_failed name flag perm w h e w1 :
  openNode name flag perm w = ((h, Some e), w1) → w1 = w.
Proof. unfold openNode. repeat case_match; by intros [=]. Qed.

(** An exclusive creation succeeds on a name that was free only. *)
Lemma openNode_excl name flag perm w h w1 :
  has flag O_CREATE && has flag O_EXCL = true →
  openNode name flag perm w = ((h, None), w1) →
  ∃ k, resolve w name = Some k
       ∧ h = Some (mkHandle name k flag)
       ∧ fs w !! k = None
       ∧ entryCheck w k = None
       ∧ w1 = setFs (insert k (File (syscallMode perm) "")) w.
Proof.
  intros Hx. unfold openNode. rewrite Hx.
  destruct (resolve w name) as [k|]; [|by intros [=]].
  destruct (fs w !! k) eqn:Hk; [by intros [=]|].
  apply andb_true_iff in Hx as [-> _].
  destruct (entryCheck w k) eqn:He; intros [=]; subst. by exists k.
Qed.

Lemma parent_shorter (k : Path) : k ≠ [] → (length (parent k) < length k)%nat.
Proof.
  unfold parent. induction k as [|a [|b k] IH]; [done|simpl; lia|].
  intros _. change (removelast (a :: b :: k)) with (a :: removelast (b :: k)).
  simpl in *. specialize (IH ltac:(done)). lia.
Qed.

Lemma entryCheck_insert w k n :
  entryCheck w k = None → entryCheck (setFs (insert k n) w) k = None.
Proof.
  unfold entryCheck. destruct k as [|a k]; [done|]. simpl fs.
  rewrite lookup_insert_ne; [done|].
  intros Heq. pose proof (parent_shorter (a :: k) ltac:(done)) as Hlt.
  rewrite <- Heq in Hlt. lia.
Qed.

Lemma entryCheck_sameFiles w w' k : sameFiles w w' → entryCheck w' k = entryCheck w k.
Proof. intros []. unfold entryCheck. by rewrite same_fs0, same_denied0. Qed.

(** [CreateTemp] either fails and changes nothing, or makes one file under
    a name that was free. *)
Lemma createTempLoop_spec prefix pattern draws try w h err w1 :
  createTempLoop prefix pattern draws try w = ((h, err), w1) →
  match err with
  | Some _ => sameFiles w w1
  | None =>
      ∃ name k flag w0,
        h = Some (mkHandle name k flag)
        ∧ sameFiles w w0
        ∧ resolve w name = Some k
        ∧ fs w !! k = None
        ∧ entryCheck w k = None
        ∧ sameFiles (setFs (insert k (File (syscallMode 0x180) "")) w0) w1
  end.
Proof.
  revert try w. induction draws as [|r rest IH]; intros try w; simpl.
  - intros [= <- <- <-]. by split.
  - unfold OpenFile.
    destruct (openNode _ _ _ (setTemps rest w)) as [[h0 [e|]] w2] eqn:Hopen.
    + apply openNode_failed in Hopen as ->.
      assert (sameFiles w (emit (EvCall (COpenFile (prefix +:+ r)
                 (N.lor O_RDWR (N.lor O_CREATE O_EXCL)) 0x180) (Some e))
                 (setTemps rest w))) as Hs by (by split).
      destruct e; try (intros [= <- <- <-]; exact Hs).
      destruct (try + 1 <? 10000).
      * intros Hrec. apply IH in Hrec. destruct err as [e'|].
        -- eapply sameFiles_trans; [exact Hs|exact Hrec].
        -- destruct Hrec as (name & k & flag & w0 & -> & Hw0 & Hres & Hk & Hc & Hw1).
           exists name, k, flag, w0. split; [done|].
           split; [eapply sameFiles_trans; [exact Hs|exact Hw0]|].
           split; [by rewrite <- Hres; symmetry; apply resolve_sameFiles|].
           destruct Hs. split; [congruence|].
           split; [|done]. rewrite <- Hc. symmetry.
           by apply entryCheck_sameFiles.
      * intros [= <- <- <-]. exact Hs.
    + apply openNode_excl in Hopen as (k & Hres & -> & Hk & Hc & ->); [|done].
      intros [= <- <- <-].
      exists (prefix +:+ r), k, (N.lor O_RDWR (N.lor O_CREATE O_EXCL)), (setTemps rest w).
      repeat split; try done.
Qed.

Lemma Remove_created name k n w :
  resolve w name = Some k → fs w !! k = Some n → isDirNode n = false →
  entryCheck w k = None →
  Remove name w = (None, emit (EvCall (CRemove name) None) (setFs (delete k) w)).
Proof.
  intros Hres Hk Hn Hc. unfold Remove. rewrite Hres, Hk, Hn, Hc. done.
Qed.

Lemma Keeps_CheckWritePermission currentDir : Keeps (CheckWritePermission currentDir).
Proof.
  intros w. unfold CheckWritePermission, bind, CreateTemp.
  destruct (createTempLoop _ _ _ _ w) as [[h err] w1] eqn:Hloop.
  apply createTempLoop_spec in Hloop. destruct err as [e|]; [done|].
  destruct Hloop as (name & k & flag & w0 & -> & Hw0 & Hres & Hk & Hc & Hw1).
  simpl.
  set (w2 := emit _ w1).
  assert (sameFiles (setFs (insert k (File (syscallMode 0x180) "")) w0) w2) as Hw2.
  { eapply sameFiles_trans; [exact Hw1|apply sameFiles_emit]. }
  erewrite (Remove_created name k (File (syscallMode 0x180) "") w2).
  - destruct Hw2 as [Hf2 Hc2 Hd2 Hl2], Hw0 as [Hf0 Hc0 Hd0 Hl0].
    subst w2. simpl in Hf2, Hc2, Hd2, Hl2.
    split; simpl; try congruence.
    rewrite Hf2, delete_insert_eq, Hf0. by apply delete_id.
  - rewrite (resolve_sameFiles _ _ _ Hw2).
    change (resolve w0 name = Some k). by rewrite (resolve_sameFiles _ _ _ Hw0).
  - destruct Hw2 as [-> _ _ _]. simpl. apply lookup_insert_eq.
  - done.
  - rewrite (entryCheck_sameFiles _ _ _ Hw2). apply entryCheck_insert.
    by rewrite (entryCheck_sameFiles _ _ _ Hw0).
Qed.

Lemma Keeps_ValidateDirPath currentDir : Keeps (ValidateDirPath currentDir).
Proof.
  unfold ValidateDirPath. apply Keeps_bind; [apply Keeps_Stat|].
  intros [info [e|]]; [apply Keeps_ret|]. destruct (negb _); apply Keeps_ret.
Qed.

Lemma Keeps_GetJitRootDir dirPath : Keeps (GetJitRootDir dirPath).
Proof.
  unfold GetJitRootDir. destruct (negb _).
  - apply Keeps_bind; [apply Keeps_ValidateDirPath|].
    intros [e|]; [apply Keeps_ret|].
    apply Keeps_bind; [apply Keeps_CheckWritePermission|].
    intros [e|]; apply Keeps_ret.
  - apply Keeps_bind; [apply Keeps_Getwd|]. intros [d [e|]]; apply Keeps_ret.
Qed.

(** The directory a successful [GetJitRootDir] returns. *)
Definition workingDirOf (w : World) (dir : string) : string :=
  if String.eqb dir "" then default "" (cwd w) else dir.

Lemma GetJitRootDir_value dirPath w d w1 :
  GetJitRootDir dirPath w = ((d, None), w1) → d = workingDirOf w dirPath.
Proof.
  unfold GetJitRootDir, workingDirOf, bind, ret.
  destruct (String.eqb dirPath ""); simpl.
  - unfold Getwd. destruct (cwd w); by intros [=].
  - destruct (ValidateDirPath dirPath w) as [[e|] w2]; [by intros [=]|].
    destruct (CheckWritePermission dirPath w2) as [[e|] w3]; by intros [=].
Qed.

(** ** Opening and writing files *)

Lemma string_app_cons (a : ascii) (s t : string) :
  String a s +:+ t = String a (s +:+ t).
Proof. reflexivity. Qed.

Lemma string_app_nil_r (s : string) : s +:+ "" = s.
Proof. induction s as [|a s IH]; [done|]. by rewrite string_app_cons, IH. Qed.

Lemma string_app_assoc (a b c : string) : (a +:+ b) +:+ c = a +:+ b +:+ c.
Proof.
  induction a as [|x a IH]; [done|]. by rewrite !string_app_cons, IH.
Qed.

Lemma substring_empty n m : String.substring n m "" = "".
Proof. by destruct n, m. Qed.

Lemma written_fresh flag data :
  has flag O_APPEND = false → written flag "" data = data.
Proof.
  intros H. unfold written. rewrite H, substring_empty. apply string_app_nil_r.
Qed.

Lemma openNode_ok name flag perm w h w1 :
  openNode name flag perm w = ((h, None), w1) →
  ∃ k n, resolve w name = Some k
         ∧ h = Some (mkHandle name k flag)
         ∧ fs w1 !! k = Some n
         ∧ (has flag O_CREATE = true → kind n = KFile)
         ∧ (has flag O_TRUNC = true → ∃ m, n = File m "").
Proof.
  unfold openNode. destruct (resolve w name) as [k|]; [|by intros [=]].
  destruct (fs w !! k) as [n|] eqn:Hk.
  - destruct (has flag O_CREATE && has flag O_EXCL); [by intros [=]|].
    destruct n as [m c|m|t]; [| |by intros [=]].
    + destruct (_ && bool_decide _); [by intros [=]|].
      destruct (has flag O_TRUNC) eqn:Ht; intros [= <- <-].
      * exists k, (File m ""). simpl. rewrite lookup_insert_eq. eauto 10.
      * exists k, (File m c). repeat split; try done.
    + destruct (has flag O_CREATE) eqn:Hc; [by intros [=]|].
      destruct (writeAccess flag); [by intros [=]|].
      destruct (has flag O_TRUNC) eqn:Ht; [by intros [=]|].
      intros [= <- <-]. exists k, (Dir m). repeat split; try done.
  - destruct (has flag O_CREATE); [|by intros [=]].
    destruct (entryCheck w k); intros [= <- <-].
    exists k, (File (syscallMode perm) ""). simpl. rewrite lookup_insert_eq.
    eauto 10.
Qed.

Lemma OpenFile_ok name flag perm w h w1 :
  OpenFile name flag perm w = ((h, None), w1) →
  ∃ k n, resolve w name = Some k
         ∧ h = Some (mkHandle name k flag)
         ∧ fs w1 !! k = Some n
         ∧ (has flag O_CREATE = true → kind n = KFile)
         ∧ (has flag O_TRUNC = true → ∃ m, n = File m "").
Proof.
  unfold OpenFile.
  destruct (openNode name flag perm w) as [[h0 [e|]] w2] eqn:Hopen; [by intros [=]|].
  intros [= <- <-]. by apply openNode_ok in Hopen.
Qed.

Lemma Write_ok h data w n w1 :
  Write (Some h) data w = ((n, None), w1) →
  ∃ m c, fs w !! hkey h = Some (File m c)
         ∧ fs w1 = <[hkey h := File m (written (hflag h) c data)]> (fs w).
Proof.
  unfold Write, nextWrite.
  destruct (writes w) as [|[] rest]; simpl;
    destruct (fs w !! hkey h) as [[m c| |]|]; intros [=]; subst; eauto.
Qed.

Lemma kind_file n : kind n = KFile → ∃ m c, n = File m c.
Proof. destruct n; intros [=]; eauto. Qed.

Lemma Grows_SetUpInitialBranch jitDir initialBranch :
  Grows (SetUpInitialBranch jitDir initialBranch).
Proof.
  unfold SetUpInitialBranch.
  apply Grows_bind; [apply Grows_OpenFile|]. intros [bf [e|]].
  { apply Grows_bind; [apply Grows_Close|]. intros _. apply Grows_ret. }
  apply Grows_bind; [apply Grows_OpenFile|]. intros [hf [e|]].
  { repeat (apply Grows_bind; [apply Grows_Close|]; intros _). apply Grows_ret. }
  apply Grows_bind; [apply Grows_Write|]. intros [n [e|]];
    repeat (apply Grows_bind; [apply Grows_Close|]; intros _); apply Grows_ret.
Qed.

(** What a successful [SetUpInitialBranch] leaves: the branch file, and a
    head file whose whole content is the name of the branch file. *)
Lemma SetUpInitialBranch_ok jitDir initialBranch w ok w1 :
  SetUpInitialBranch jitDir initialBranch w = ((ok, None), w1) →
  let branchPath := filepath.Join [jitDir; util.BRANCHES; initialBranch] in
  ok = true
  ∧ ∃ kb kh mb cb mh,
      resolve w branchPath = Some kb
      ∧ resolve w (filepath.Join [jitDir; util.HEAD]) = Some kh
      ∧ fs w1 !! kb = Some (File mb cb)
      ∧ fs w1 !! kh = Some (File mh branchPath).
Proof.
  intros Hrun branchPath. pose proof (Grows_SetUpInitialBranch jitDir initialBranch w) as Hg.
  rewrite Hrun in Hg. simpl in Hg. revert Hrun.
  unfold SetUpInitialBranch, bind, ret. fold branchPath.
  destruct (OpenFile branchPath _ _ w) as [[bf [e|]] wa] eqn:Hb.
  { destruct (Close bf wa). by intros [=]. }
  apply OpenFile_ok in Hb as Hb'. destruct Hb' as (kb & nb & Hrb & -> & Hnb & Hcb & _).
  apply kind_file in Hcb as (mb & cb & ->); [|done].
  pose proof (Grows_OpenFile branchPath (N.lor O_APPEND O_CREATE)
                util.DefaultFilePerm w) as Hga. rewrite Hb in Hga. simpl in Hga.
  destruct (OpenFile (filepath.Join [jitDir; util.HEAD]) _ _ wa)
    as [[hf [e|]] wb] eqn:Hh.
  { destruct (Close hf wb) as [? ?]. destruct (Close _ _). by intros [=]. }
  apply OpenFile_ok in Hh as Hh'. destruct Hh' as (kh & nh & Hrh & -> & Hnh & _ & Ht).
  destruct Ht as (mh & ->); [done|].
  rewrite (resolve_grows _ _ _ Hga) in Hrh.
  destruct (Write _ _ wb) as [[n [e|]] wc] eqn:Hw.
  { destruct (Close _ wc) as [? ?]. destruct (Close _ _). by intros [=]. }
  apply Write_ok in Hw as (m & c & Hk & Hfs). simpl in Hk, Hfs.
  rewrite Hnh in Hk. injection Hk as <- <-.
  rewrite written_fresh in Hfs by done.
  simpl. intros [= <- Hw1]. split; [done|].
  assert (fs w1 = fs wc) as Hw1f by (by rewrite <- Hw1).
  clear Hw1. rename Hw1f into Hw1.
  assert (∃ mb' cb', fs w1 !! kb = Some (File mb' cb')) as (mb' & cb' & Hkb).
  { destruct Hg as [_ _ _ Hnodes].
    rewrite Hw1, Hfs. destruct (decide (kh = kb)) as [->|Hne].
    - rewrite lookup_insert_eq. eauto.
    - rewrite lookup_insert_ne by done.
      pose proof (Grows_OpenFile (filepath.Join [jitDir; util.HEAD])
                    (N.lor O_RDWR (N.lor O_CREATE O_TRUNC))
                    util.DefaultFilePerm wa) as Hgb.
      rewrite Hh in Hgb. simpl in Hgb. destruct Hgb as [_ _ _ Hn].
      destruct (Hn _ _ Hnb) as (n' & Hn' & Hk').
      apply kind_file in Hk' as (? & ? & ->). eauto. }
  exists kb, kh, mb', cb', mh. repeat split; try done.
  rewrite Hw1, Hfs. apply lookup_insert_eq.
Qed.

(** ** The scaffolder and the metadata writer grow the world *)

Lemma Grows_createEntries wkDir entries : Grows (createEntries wkDir entries).
Proof.
  induction entries as [|[k v] rest IH]; simpl; [apply Grows_ret|].
  apply Grows_bind.
  - destruct (decide (v = util.DataFile)) as [Hv|Hv]; [|apply Grows_ret].
    apply Grows_bind; [apply Grows_Create|]. intros [file [e|]].
    + apply Grows_bind; [apply Grows_log|]. intros _. apply Grows_ret.
    + apply Grows_bind; [apply Grows_Close|]. intros [e|]; [|apply Grows_ret].
      apply Grows_bind; [apply Grows_log|]. intros _. apply Grows_ret.
  - intros [|]; [apply Grows_ret|]. apply Grows_bind.
    + destruct (decide (v = util.Directory)) as [Hv|Hv]; [|apply Grows_ret].
      apply Grows_bind; [apply Grows_MkdirAll|]. intros [e|]; [|apply Grows_ret].
      apply Grows_bind; [apply Grows_log|]. intros _. apply Grows_ret.
    + intros [|]; [apply Grows_ret|apply IH].
Qed.

Lemma Grows_CreateJitDir range wkDir sepDir bare perm :
  Grows (CreateJitDir range wkDir sepDir bare perm).
Proof.
  unfold CreateJitDir. destruct (negb sepDir && negb bare).
  - apply Grows_bind; [apply Grows_Mkdir|]. intros [e|]; [apply Grows_ret|].
    apply Grows_bind; [apply Grows_createEntries|]. intros _. apply Grows_ret.
  - apply Grows_bind; [apply Grows_createEntries|]. intros _. apply Grows_ret.
Qed.

Lemma Grows_writeEntries f entries : Grows (writeEntries f entries).
Proof.
  induction entries as [|[k v] rest IH]; simpl; [apply Grows_ret|].
  apply Grows_bind; [apply Grows_Write|]. intros [n [e|]].
  - apply Grows_bind; [apply Grows_log|]. intros _. apply IH.
  - apply Grows_bind; [apply Grows_ret|]. intros _. apply IH.
Qed.

Lemma Grows_WriteToConfigFile range config jitDir :
  Grows (WriteToConfigFile range config jitDir).
Proof.
  unfold WriteToConfigFile.
  apply Grows_bind; [apply Grows_OpenFile|]. intros [f [e|]].
  - apply Grows_bind; [apply Grows_Close|]. intros _. apply Grows_ret.
  - apply Grows_bind; [apply Grows_writeEntries|]. intros _.
    apply Grows_bind; [apply Grows_Close|]. intros _. apply Grows_ret.
Qed.

(** ** The pipeline after the options are read

    [pipeline] is the text of [InitializeJitRepository] from the first stage
    on, over the values of the options; [readOptions] gives these values. *)

Record Options := mkOptions {
  quiet : bool;
  bare : bool;
  separateJitDir : string;
  template : string;
  objectFormat : string;
  initialBranch : string;
  directoryPerm : string
}.

Definition readOptions (options : gmap string any) : Options :=
  mkOptions (assertBool (options !! "quiet")).1
            (assertBool (options !! "bare")).1
            (assertString (options !! "separate-jit-dir")).1
            (assertString (options !! "template")).1
            (assertString (options !! "object-format")).1
            (assertString (options !! "initial-branch")).1
            (assertString (options !! "perm")).1.

Definition filePermissionOf (o : Options) : N :=
  match strconv.ParseUint (directoryPerm o) 8 32 with
  | (_, Some _) => 0x1ed
  | (parsed, None) => parsed
  end.

Definition configOf (o : Options) : gmap string string :=
  <["INITIAL-BRANCH" := initialBranch o]>
    (<["OBJECT-FORMAT" := objectFormat o]> (<["TEMPLATE" := template o]> ∅)).

(** The tail of the pipeline, from the write-config stage on. *)
Definition finish (range : ∀ V : Type, gmap string V → list (string * V))
    (o : Options) (finalJitDir workingDir : string) : M (bool * option error) :=
  stage WRITE_CONFIG ;;
  let* (_, writeErr) := WriteToConfigFile range (configOf o) finalJitDir in
  (match writeErr with
   | Some e => log "" (Some e)
   | None => ret ()
   end) ;;
  stage SET_BRANCH ;;
  let* (_, setupErr) := SetUpInitialBranch finalJitDir (initialBranch o) in
  match setupErr with
  | Some e =>
      log "encountered an error while creating a jit repository." None ;;
      ret (false, Some e)
  | None =>
      (if negb (quiet o) then
         let* (dirAbs, _) := Abs workingDir in
         log ("Successfully initialized a new jit repository -> "
                +:+ filepath.Join [dirAbs; util.JitDirName]) None
       else ret ()) ;;
      ret (true, None)
  end.

(** Link and scaffold, as the Go text nests them. *)
Definition linkAndScaffold (range : ∀ V : Type, gmap string V → list (string * V))
    (o : Options) (sepDir workingDir : string) : M (bool * option error) :=
  if negb (String.eqb (separateJitDir o) "") then
    stage LINK_IF_SEPARATE ;;
    createErr <- Symlink sepDir (filepath.Join [workingDir; util.JitDirName]) ;;
    match createErr with
    | Some _ => ret (false, Some SymlinkError)
    | None =>
        stage SCAFFOLD ;;
        CreateJitDir range sepDir true (bare o) (filePermissionOf o)
    end
  else
    stage SCAFFOLD ;;
    CreateJitDir range workingDir false (bare o) (filePermissionOf o).

Definition resolveSeparate (o : Options) : M (string * option error) :=
  if negb (String.eqb (separateJitDir o) "") then GetJitRootDir (separateJitDir o)
  else ret ("", None).

Definition pipeline (range : ∀ V : Type, gmap string V → list (string * V))
    (o : Options) (dir : string) : M (bool * option error) :=
  stage RESOLVE_DIRS ;;
  let* (sepDir, sepErr) := resolveSeparate o in
  match sepErr with
  | Some e => ret (false, Some e)
  | None =>
      let* (workingDir, wkDirErr) := GetJitRootDir dir in
      match wkDirErr with
      | Some e => ret (false, Some e)
      | None =>
          let* (_, scaffoldErr) := linkAndScaffold range o sepDir workingDir in
          match scaffoldErr with
          | Some e => ret (false, Some e)
          | None =>
              finish range o (ConstructFinalJitDir workingDir sepDir (bare o))
                workingDir
          end
      end
  end.

(** The world after some more events. *)
Definition note (evs : list Event) (w : World) : World :=
  foldl (λ w e, emit e w) w evs.

(** The messages logged for options of a wrong type or missing. *)
Definition optionLogs (options : gmap string any) : list Event :=
  (if negb (assertBool (options !! "quiet")).2
   then [EvLog "Quiet mode failed" None] else [])
  ++ (if negb (assertBool (options !! "bare")).2
      then [EvLog "Bare option failed" None] else [])
  ++ (if negb (assertString (options !! "separate-jit-dir")).2
      then [EvLog "Separate Jit Dir failed" None] else [])
  ++ (if negb (assertString (options !! "template")).2
      then [EvLog "Template option failed" None] else [])
  ++ (if negb (assertString (options !! "object-format")).2
      then [EvLog "Object format option failed" None] else [])
  ++ (if negb (assertString (options !! "initial-branch")).2
      then [EvLog "Initial Branch option failed" None] else [])
  ++ (if negb (assertString (options !! "perm")).2
      then [EvLog "Permission option failed" None] else []).

Lemma note_app l1 l2 w : note (l1 ++ l2) w = note l2 (note l1 w).
Proof. apply foldl_app. Qed.

Lemma sameFiles_note evs w : sameFiles w (note evs w).
Proof.
  revert w. induction evs as [|e evs IH]; intros w; [apply sameFiles_refl|].
  simpl. eapply sameFiles_trans; [apply sameFiles_emit|apply IH].
Qed.

Lemma events_note evs w : events (note evs w) = events w ++ evs.
Proof.
  revert w. induction evs as [|e evs IH]; intros w; simpl.
  - by rewrite app_nil_r.
  - rewrite IH. simpl. by rewrite <- app_assoc.
Qed.

Lemma oracles_note evs w :
  temps (note evs w) = temps w ∧ writes (note evs w) = writes w.
Proof.
  revert w. induction evs as [|e evs IH]; intros w; [done|].
  simpl. destruct (IH (emit e w)) as [-> ->]. done.
Qed.

Lemma bind_logIf {A} (b : bool) msg (k : unit → M A) w :
  bind (if b then log msg None else ret ()) k w
  = k () (note (if b then [EvLog msg None] else []) w).
Proof. by destruct b. Qed.

Lemma InitializeJitRepository_unfold range options dir w :
  InitializeJitRepository range options dir w
  = pipeline range (readOptions options) dir (note (optionLogs options) w).
Proof.
  unfold InitializeJitRepository, optionLogs, pipeline, readOptions,
    resolveSeparate, linkAndScaffold, finish, filePermissionOf, configOf.
  destruct (assertBool (options !! "quiet")) as [q ok1].
  destruct (assertBool (options !! "bare")) as [b ok2].
  destruct (assertString (options !! "separate-jit-dir")) as [sp ok3].
  destruct (assertString (options !! "template")) as [t ok4].
  destruct (assertString (options !! "object-format")) as [f ok5].
  destruct (assertString (options !! "initial-branch")) as [br ok6].
  destruct (assertString (options !! "perm")) as [pm ok7].
  cbn [fst snd quiet bare separateJitDir template objectFormat initialBranch
       directoryPerm].
  rewrite !note_app.
  destruct (strconv.ParseUint pm 8 32) as [parsed [e|]];
    repeat (rewrite bind_logIf; cbv beta); reflexivity.
Qed.

(** ** The configuration file *)

(** The line written for an entry: [fmt.Sprintf("%s=%s\n", k, v)]. *)
Definition configLine (kv : string * string) : string :=
  kv.1 +:+ "=" +:+ kv.2 +:+ String "010" "".

(** Does the next write succeed, and what is left of the oracle. *)
Definition nextGood (oracle : list bool) : bool := default true (head oracle).

(** The lines of the entries whose write succeeds, in the order written. *)
Fixpoint keptLines (oracle : list bool) (entries : list (string * string)) : string :=
  match entries with
  | [] => ""
  | kv :: rest =>
      (if nextGood oracle then configLine kv else "")
        +:+ keptLines (tail oracle) rest
  end.

(** The events of the loop: a write for every entry, and a log line after
    every write that fails. *)
Fixpoint writeTrace (name : string) (oracle : list bool)
    (entries : list (string * string)) : list Event :=
  match entries with
  | [] => []
  | kv :: rest =>
      (if nextGood oracle
       then [EvCall (CWrite name (configLine kv)) None]
       else [EvCall (CWrite name (configLine kv)) (Some EIO);
             EvLog "" (Some (PathError "write" name EIO))])
        ++ writeTrace name (tail oracle) rest
  end.

Fixpoint allLines (entries : list (string * string)) : string :=
  match entries with
  | [] => ""
  | kv :: rest => configLine kv +:+ allLines rest
  end.

Lemma keptLines_all oracle entries :
  Forall (eq true) oracle → keptLines oracle entries = allLines entries.
Proof.
  revert oracle. induction entries as [|kv rest IH]; intros oracle Ho; [done|].
  simpl. destruct Ho as [|b oracle <- Ho]; simpl; by rewrite IH.
Qed.

Lemma allLines_app l1 l2 : allLines (l1 ++ l2) = allLines l1 +:+ allLines l2.
Proof.
  induction l1 as [|kv l1 IH]; [done|]. simpl.
  by rewrite IH, string_app_assoc.
Qed.

Lemma allLines_ends l kv :
  ∃ b, allLines (l ++ [kv]) = b +:+ String "010" "".
Proof.
  exists (allLines l +:+ kv.1 +:+ "=" +:+ kv.2).
  rewrite allLines_app. simpl. unfold configLine.
  by rewrite string_app_nil_r, !string_app_assoc.
Qed.

(** Every entry has its line in the text, at the very start of what was
    appended or after a line feed. *)
Lemma allLines_own_line entries kv prior :
  kv ∈ entries →
  ∃ before after,
    prior +:+ allLines entries = before +:+ configLine kv +:+ after
    ∧ (before = prior ∨ ∃ b, before = b +:+ String "010" "").
Proof.
  intros (l1 & l2 & ->)%list_elem_of_split.
  exists (prior +:+ allLines l1), (allLines l2). split.
  - rewrite allLines_app. simpl. by rewrite !string_app_assoc.
  - destruct l1 as [|x l1 _] using rev_ind.
    + left. apply string_app_nil_r.
    + right. destruct (allLines_ends l1 x) as [b ->].
      exists (prior +:+ b). by rewrite string_app_assoc.
Qed.

Lemma OpenFile_writes name flag perm w :
  writes (OpenFile name flag perm w).2 = writes w.
Proof. unfold OpenFile, openNode. by repeat case_match; simplify_eq. Qed.

Lemma writeEntries_spec h entries w m c :
  fs w !! hkey h = Some (File m c) →
  has (hflag h) O_APPEND = true →
  let w1 := (writeEntries (Some h) entries w).2 in
  fs w1 = <[hkey h := File m (c +:+ keptLines (writes w) entries)]> (fs w)
  ∧ events w1 = events w ++ writeTrace (hname h) (writes w) entries.
Proof.
  revert w c. induction entries as [|[k v] rest IH]; intros w c Hk Happ.
  - simpl. rewrite string_app_nil_r, app_nil_r. split; [|done].
    symmetry. by apply insert_id.
  - cbn [writeEntries]. unfold bind. cbv zeta.
    unfold Write, nextWrite, nextGood, log, ret.
    destruct (writes w) as [|[] oracle] eqn:Ho; simpl; rewrite ?Hk; simpl.
    + set (w2 := emit _ _).
      destruct (IH w2 (c +:+ configLine (k, v))) as [Hf He].
      { subst w2. simpl. unfold written. rewrite Happ. apply lookup_insert_eq. }
      { done. }
      subst w2. simpl in *. rewrite Hf, He, Ho. split.
      * by rewrite insert_insert_eq, string_app_assoc.
      * by rewrite <- app_assoc.
    + set (w2 := emit _ _).
      destruct (IH w2 (c +:+ configLine (k, v))) as [Hf He].
      { subst w2. simpl. unfold written. rewrite Happ. apply lookup_insert_eq. }
      { done. }
      subst w2. simpl in *. rewrite Hf, He. split.
      * by rewrite insert_insert_eq, string_app_assoc.
      * by rewrite <- app_assoc.
    + set (w2 := emit _ (emit _ _)).
      destruct (IH w2 c) as [Hf He]; [done|done|].
      subst w2. simpl in *. rewrite Hf, He. split; [done|].
      by rewrite <- !app_assoc.
Qed.



(** ** The initial branch and the head file *)

(** The root the layout planner computes for a call. *)
Definition computedRoot (w : World) (o : Options) (dir : string) : string :=
  ConstructFinalJitDir (workingDirOf w dir) (separateJitDir o) (bare o).

Lemma finish_inv range o finalJitDir workingDir w r w1 :
  finish range o finalJitDir workingDir w = (r, w1) →
  ∃ wa ok err wb,
    grows w wa
    ∧ SetUpInitialBranch finalJitDir (initialBranch o) wa = ((ok, err), wb)
    ∧ sameFiles wb w1
    ∧ r = match err with Some e => (false, Some e) | None => (true, None) end.
Proof.
  unfold finish, bind.
  destruct (stage WRITE_CONFIG w) as [[] w2] eqn:H1.
  destruct (WriteToConfigFile range (configOf o) finalJitDir w2) as [[okw ew] w3] eqn:H2.
  destruct (match ew with Some e => log "" (Some e) | None => ret () end w3)
    as [[] w4] eqn:H3.
  destruct (stage SET_BRANCH w4) as [[] w5] eqn:H4.
  destruct (SetUpInitialBranch finalJitDir (initialBranch o) w5) as [[ok err] w6] eqn:H5.
  assert (grows w w5) as Hg.
  { pose proof (Grows_stage WRITE_CONFIG w) as G1. rewrite H1 in G1.
    pose proof (Grows_WriteToConfigFile range (configOf o) finalJitDir w2) as G2.
    rewrite H2 in G2.
    assert (grows w3 w4) as G3.
    { destruct ew; [pose proof (Grows_log "" (Some e) w3) as G|
                    pose proof (Grows_ret () w3) as G]; by rewrite H3 in G. }
    pose proof (Grows_stage SET_BRANCH w4) as G4. rewrite H4 in G4.
    simpl in *. eauto using grows_trans. }
  intros Hr. exists w5, ok, err, w6. split; [done|]. split; [done|].
  destruct err as [e|].
  - injection Hr as <- <-. split; [apply sameFiles_emit|done].
  - revert Hr. destruct (negb (quiet o)).
    + unfold bind. destruct (Abs workingDir w6) as [[dirAbs e] w7] eqn:H6.
      pose proof (Keeps_Abs workingDir w6) as K. rewrite H6 in K. simpl in K.
      intros [= <- <-]. split; [|done].
      eapply sameFiles_trans; [exact K|apply sameFiles_emit].
    + intros [= <- <-]. split; [apply sameFiles_refl|done].
Qed.

Lemma resolveSeparate_inv o w sepDir w1 :
  resolveSeparate o w = ((sepDir, None), w1) →
  sepDir = separateJitDir o ∧ sameFiles w w1.
Proof.
  unfold resolveSeparate. destruct (String.eqb_spec (separateJitDir o) "") as [He|Hne].
  - simpl. intros [= <- <-]. split; [done|apply sameFiles_refl].
  - simpl. intros H. pose proof (Keeps_GetJitRootDir (separateJitDir o) w) as K.
    rewrite H in K. split; [|exact K].
    apply GetJitRootDir_value in H. subst. unfold workingDirOf.
    by destruct (String.eqb_spec (separateJitDir o) "").
Qed.

Lemma Grows_linkAndScaffold range o sepDir workingDir :
  Grows (linkAndScaffold range o sepDir workingDir).
Proof.
  unfold linkAndScaffold. destruct (negb _).
  - apply Grows_bind; [apply Grows_stage|]. intros _.
    apply Grows_bind; [apply Grows_Symlink|]. intros [e|]; [apply Grows_ret|].
    apply Grows_bind; [apply Grows_stage|]. intros _. apply Grows_CreateJitDir.
  - apply Grows_bind; [apply Grows_stage|]. intros _. apply Grows_CreateJitDir.
Qed.

(** A run of the pipeline that returns no error went through all stages. *)
Lemma pipeline_inv range o dir w r w1 :
  pipeline range o dir w = (r, w1) →
  r.2 = None →
  ∃ w2 w3 w4 ok,
    sameFiles w w2
    ∧ GetJitRootDir dir w2 = ((workingDirOf w dir, None), w3)
    ∧ linkAndScaffold range o (separateJitDir o) (workingDirOf w dir) w3
      = ((ok, None), w4)
    ∧ finish range o (computedRoot w o dir) (workingDirOf w dir) w4 = (r, w1).
Proof.
  unfold pipeline, bind, stage.
  destruct (resolveSeparate o (emit (EvStage RESOLVE_DIRS) w))
    as [[sepDir [e|]] w2] eqn:H1; [by intros [= <- <-]|].
  apply resolveSeparate_inv in H1 as [-> K1].
  destruct (GetJitRootDir dir w2) as [[workingDir [e|]] w3] eqn:H2;
    [by intros [= <- <-]|].
  assert (sameFiles w w2) as K.
  { eapply sameFiles_trans; [apply sameFiles_emit|exact K1]. }
  apply GetJitRootDir_value in H2 as Hv.
  assert (workingDir = workingDirOf w dir) as ->.
  { rewrite Hv. unfold workingDirOf. by destruct K as [_ -> _ _]. }
  destruct (linkAndScaffold range o (separateJitDir o) (workingDirOf w dir) w3)
    as [[ok [e|]] w4] eqn:H3; [by intros [= <- <-]|].
  intros Hf _. exists w2, w3, w4, ok. done.
Qed.

Lemma isRooted_app a b : filepath.isRooted a = true → filepath.isRooted (a +:+ b) = true.
Proof. by destruct a. Qed.

Lemma Join_rooted a rest :
  filepath.isRooted a = true → filepath.isRooted (filepath.Join (a :: rest)) = true.
Proof.
  intros Ha. unfold filepath.Join.
  destruct (String.eqb_spec a "") as [->|Hne]; [done|]. fold filepath.Join.
  assert (filepath.isRooted (strings.Join (a :: rest) "/") = true) as Hr.
  { destruct rest; [done|]. by apply isRooted_app. }
  unfold filepath.Clean.
  destruct (String.eqb_spec (strings.Join (a :: rest) "/") "") as [He|_].
  - by rewrite He in Hr.
  - by rewrite Hr.
Qed.



(** ** The event list is ghost state

    Two worlds that differ in their events only give the same results and
    stay so: shown for the calls of the resolve stage. *)

Record alike (w w' : World) : Prop := mkAlike {
  alike_fs : fs w' = fs w;
  alike_cwd : cwd w' = cwd w;
  alike_denied : denied w' = denied w;
  alike_linkPriv : linkPriv w' = linkPriv w;
  alike_temps : temps w' = temps w;
  alike_writes : writes w' = writes w
}.

Definition Blind {A} (m : M A) : Prop :=
  ∀ w w', alike w w' → (m w').1 = (m w).1 ∧ alike (m w).2 (m w').2.

Lemma alike_note evs w : alike w (note evs w).
Proof.
  destruct (sameFiles_note evs w), (oracles_note evs w). by split.
Qed.

Lemma alike_emit e e' w w' : alike w w' → alike (emit e w) (emit e' w').
Proof. intros []. by split. Qed.

Lemma Blind_ret {A} (a : A) : Blind (ret a).
Proof. by intros w w' H. Qed.

Lemma Blind_bind {A B} (m : M A) (k : A → M B) :
  Blind m → (∀ a, Blind (k a)) → Blind (bind m k).
Proof.
  intros Hm Hk w w' H. unfold bind. destruct (Hm w w' H) as [Hr Hw].
  destruct (m w) as [a w1], (m w') as [a' w1']. simpl in *. subst a'.
  by apply Hk.
Qed.

Lemma Blind_log msg e : Blind (log msg e).
Proof. intros w w' H. split; [done|]. by apply alike_emit. Qed.

Lemma Blind_Getwd : Blind Getwd.
Proof.
  intros w w' H. unfold Getwd. rewrite (alike_cwd _ _ H).
  destruct (cwd w); (split; [done|by apply alike_emit]).
Qed.

Lemma resolve_alike w w' name : alike w w' → resolve w' name = resolve w name.
Proof. intros H. unfold resolve. by rewrite (alike_cwd _ _ H). Qed.

Lemma Blind_Stat name : Blind (Stat name).
Proof.
  intros w w' H. unfold Stat.
  rewrite (resolve_alike _ _ _ H), (alike_fs _ _ H).
  destruct (_ ≫= _); (split; [done|by apply alike_emit]).
Qed.

Lemma Blind_Close h : Blind (Close h).
Proof.
  intros w w' H. unfold Close. destruct h; (split; [done|by apply alike_emit]).
Qed.

Lemma alike_setFs f w w' : alike w w' → alike (setFs f w) (setFs f w').
Proof. intros []. split; simpl; congruence. Qed.

Lemma alike_setTemps t w w' : alike w w' → alike (setTemps t w) (setTemps t w').
Proof. intros []. split; simpl; congruence. Qed.

Lemma entryCheck_alike w w' k : alike w w' → entryCheck w' k = entryCheck w k.
Proof.
  intros H. unfold entryCheck. by rewrite (alike_fs _ _ H), (alike_denied _ _ H).
Qed.

Lemma openNode_alike name flag perm w w' :
  alike w w' →
  (openNode name flag perm w').1 = (openNode name flag perm w).1
  ∧ alike (openNode name flag perm w).2 (openNode name flag perm w').2.
Proof.
  intros H. unfold openNode.
  rewrite (resolve_alike _ _ _ H), (alike_fs _ _ H), (alike_denied _ _ H).
  destruct (resolve w name) as [k|]; [|done].
  rewrite (entryCheck_alike _ _ k H).
  repeat case_match; simpl; split; try done; by apply alike_setFs.
Qed.

Lemma Blind_OpenFile name flag perm : Blind (OpenFile name flag perm).
Proof.
  intros w w' H. unfold OpenFile.
  destruct (openNode_alike name flag perm w w' H) as [Hr Hw].
  destruct (openNode name flag perm w) as [[h e] w1],
           (openNode name flag perm w') as [[h' e'] w1'].
  simpl in *. injection Hr as -> ->.
  destruct e; (split; [done|by apply alike_emit]).
Qed.

Lemma hasChild_alike w w' k : alike w w' → hasChild w' k = hasChild w k.
Proof. intros H. unfold hasChild. by rewrite (alike_fs _ _ H). Qed.

Lemma Blind_Remove name : Blind (Remove name).
Proof.
  intros w w' H. unfold Remove.
  rewrite (resolve_alike _ _ _ H), (alike_fs _ _ H).
  destruct (resolve w name) as [k|]; [|split; [done|by apply alike_emit]].
  rewrite (entryCheck_alike _ _ k H), (hasChild_alike _ _ k H).
  repeat case_match; (split; [done|]); apply alike_emit; try done.
  by apply alike_setFs.
Qed.

Lemma createTempLoop_alike prefix pattern draws try w w' :
  alike w w' →
  (createTempLoop prefix pattern draws try w').1
  = (createTempLoop prefix pattern draws try w).1
  ∧ alike (createTempLoop prefix pattern draws try w).2
          (createTempLoop prefix pattern draws try w').2.
Proof.
  revert try w w'. induction draws as [|r rest IH]; intros try w w' H; simpl.
  - split; [done|]. by apply alike_setTemps.
  - destruct (Blind_OpenFile (prefix +:+ r) (N.lor O_RDWR (N.lor O_CREATE O_EXCL))
                0x180 (setTemps rest w) (setTemps rest w')) as [Hr Hw];
      [by apply alike_setTemps|].
    destruct (OpenFile _ _ _ (setTemps rest w)) as [[h e] w1],
             (OpenFile _ _ _ (setTemps rest w')) as [[h' e'] w1'].
    simpl in *. injection Hr as -> ->.
    destruct e as [[op path []| | |]|]; try done.
    destruct (try + 1 <? 10000); [by apply IH|done].
Qed.

Lemma Blind_CreateTemp dir pattern : Blind (CreateTemp dir pattern).
Proof.
  intros w w' H. unfold CreateTemp. rewrite (alike_temps _ _ H).
  by apply createTempLoop_alike.
Qed.

Lemma Blind_GetJitRootDir dirPath : Blind (GetJitRootDir dirPath).
Proof.
  unfold GetJitRootDir. destruct (negb _).
  - apply Blind_bind.
    + unfold ValidateDirPath. apply Blind_bind; [apply Blind_Stat|].
      intros [info [e|]]; [apply Blind_ret|]. destruct (negb _); apply Blind_ret.
    + intros [e|]; [apply Blind_ret|]. apply Blind_bind.
      * unfold CheckWritePermission. apply Blind_bind; [apply Blind_CreateTemp|].
        intros [file [e|]]; [apply Blind_ret|].
        apply Blind_bind; [apply Blind_Close|]. intros closeErr.
        apply Blind_bind; [destruct closeErr; [apply Blind_log|apply Blind_ret]|].
        intros _. apply Blind_bind; [apply Blind_Remove|]. intros removeErr.
        apply Blind_bind; [destruct removeErr; [apply Blind_log|apply Blind_ret]|].
        intros _. apply Blind_ret.
      * intros [e|]; apply Blind_ret.
  - apply Blind_bind; [apply Blind_Getwd|]. intros [d [e|]]; apply Blind_ret.
Qed.

(** ** Initialising twice *)

Lemma Mkdir_ok name perm w w1 :
  Mkdir name perm w = (None, w1) →
  ∃ k, resolve w name = Some k ∧ fs w1 !! k = Some (Dir (syscallMode perm)).
Proof.
  unfold Mkdir, mkdirNode. destruct (resolve w name) as [k|]; [|by intros [=]].
  destruct (fs w !! k); [by intros [=]|].
  destruct (entryCheck w k); intros [= <-].
  exists k. simpl. by rewrite lookup_insert_eq.
Qed.

Lemma Mkdir_exists name perm k w :
  resolve w name = Some k → is_Some (fs w !! k) →
  Mkdir name perm w
  = (Some (PathError "mkdir" name EEXIST),
     emit (EvCall (CMkdir name perm) (Some EEXIST)) w).
Proof.
  intros Hr [n Hn]. unfold Mkdir, mkdirNode. by rewrite Hr, Hn.
Qed.

Lemma grows_is_Some w w' k : grows w w' → is_Some (fs w !! k) → is_Some (fs w' !! k).
Proof. intros [_ _ _ H] [n Hn]. destruct (H k n Hn) as (n' & -> & _). eauto. Qed.

Lemma Grows_finish range o finalJitDir workingDir :
  Grows (finish range o finalJitDir workingDir).
Proof.
  intros w. destruct (finish range o finalJitDir workingDir w) as [r w1] eqn:H.
  apply finish_inv in H as (wa & ok & err & wb & Hg & Hs & Kb & _).
  pose proof (Grows_SetUpInitialBranch finalJitDir (initialBranch o) wa) as G.
  rewrite Hs in G. simpl in *.
  eauto using grows_trans, sameFiles_grows.
Qed.

(** C7. Without the bare and separate-directory options, a second
    initialisation of a working directory that a first one initialised (and
    that still resolves: it is there and the write probe succeeds) returns
    the "already contains a jit repository" error and leaves the file system
    exactly as the first call left it. *)
Theorem second_initialization_refused range1 range2 options dir w w1 r2 w2 :
  bare (readOptions options) = false →
  separateJitDir (readOptions options) = "" →
  InitializeJitRepository range1 options dir w = ((true, None), w1) →
  (GetJitRootDir dir w1).1.2 = None →
  InitializeJitRepository range2 options dir w1 = (r2, w2) →
  r2 = (false, Some (AlreadyInitialized (workingDirOf w dir)))
  ∧ fs w2 = fs w1.
Proof.
  intros Hbare Hsep. rewrite !InitializeJitRepository_unfold.
  set (o := readOptions options) in *. intros Hrun1 Hres2 Hrun2.
  (* the first call made the metadata directory, and it is still there *)
  apply pipeline_inv in Hrun1 as (wa & wb & wc & ok & Ka & Hg & Hl & Hf); [|done].
  pose proof (sameFiles_note (optionLogs options) w) as K0.
  assert (workingDirOf (note (optionLogs options) w) dir = workingDirOf w dir) as Hwd.
  { unfold workingDirOf. by destruct K0 as [_ -> _ _]. }
  rewrite Hwd in Hg, Hl, Hf. set (wd := workingDirOf w dir) in *.
  pose proof (Keeps_GetJitRootDir dir wa) as Kb. rewrite Hg in Kb. simpl in Kb.
  pose proof (Grows_finish range1 o (computedRoot (note (optionLogs options) w) o dir)
                wd wc) as Gf. rewrite Hf in Gf. simpl in Gf.
  assert (∃ kj, resolve w1 (filepath.Join [wd; util.JitDirName]) = Some kj
               ∧ is_Some (fs w1 !! kj)) as (kj & Rj & Fj).
  { revert Hl. unfold linkAndScaffold, CreateJitDir, bind. rewrite Hsep, Hbare. simpl.
    destruct (Mkdir (filepath.Join [wd; util.JitDirName])
                (FileMode (filePermissionOf o)) (emit (EvStage SCAFFOLD) wb))
      as [[e|] wm] eqn:Hm; [by intros [=]|].
    pose proof (Grows_Mkdir (filepath.Join [wd; util.JitDirName])
                  (FileMode (filePermissionOf o)) (emit (EvStage SCAFFOLD) wb)) as Gm.
    rewrite Hm in Gm. simpl in Gm.
    destruct (createEntries _ _ wm) as [[] we] eqn:He. intros [= _ <-].
    pose proof (Grows_createEntries (filepath.Join [wd; util.JitDirName])
                  (range1 _ jitFileSystem) wm) as Ge. rewrite He in Ge. simpl in Ge.
    apply Mkdir_ok in Hm as (kj & Rj & Fj). exists kj.
    assert (grows wm w1) as G by eauto using grows_trans.
    split.
    - rewrite (resolve_grows _ _ _ G), (resolve_grows _ _ _ Gm). exact Rj.
    - eapply grows_is_Some; [exact G|]. by rewrite Fj. }
  assert (cwd w1 = cwd w) as Hcwd.
  { pose proof (Grows_linkAndScaffold range1 o (separateJitDir o) wd wb) as Gl.
    rewrite Hl in Gl. simpl in Gl.
    rewrite (grows_cwd _ _ Gf), (grows_cwd _ _ Gl).
    destruct Kb as [_ -> _ _], Ka as [_ -> _ _], K0 as [_ -> _ _]. done. }
  clear Hg Hl Hf Gf Kb Ka K0 Hwd wa wb wc ok.
  (* the second call *)
  revert Hrun2. unfold pipeline, resolveSeparate, bind, stage. rewrite Hsep. simpl.
  set (ws := emit (EvStage RESOLVE_DIRS) (note (optionLogs options) w1)).
  assert (alike w1 ws) as A.
  { destruct (alike_note (optionLogs options) w1). by split. }
  destruct (Blind_GetJitRootDir dir w1 ws A) as [Hr _].
  pose proof (Keeps_GetJitRootDir dir ws) as Kg.
  destruct (GetJitRootDir dir ws) as [[wd' err] wg] eqn:Hg.
  simpl in Hr, Kg. rewrite <- Hr in Hres2. simpl in Hres2. subst err.
  apply GetJitRootDir_value in Hg as Hv.
  assert (wd' = wd) as ->.
  { rewrite Hv. unfold wd, workingDirOf. rewrite (alike_cwd _ _ A). by rewrite Hcwd. }
  unfold linkAndScaffold, CreateJitDir, bind, stage. rewrite Hsep, Hbare. simpl.
  assert (sameFiles w1 (emit (EvStage SCAFFOLD) wg)) as Ks.
  { eapply sameFiles_trans; [|apply sameFiles_emit].
    eapply sameFiles_trans; [|exact Kg]. destruct A. by split. }
  rewrite (Mkdir_exists _ _ kj).
  - intros [= <- <-]. split; [done|]. by destruct Ks.
  - by rewrite (resolve_sameFiles _ _ _ Ks).
  - by rewrite (same_fs _ _ Ks).
Qed.

(** The fresh directory [/w], initialised twice with the default options. *)
Lemma second_initialization_refused_witness :
  let opts := Examples.options true false "" "main" "0755" in
  let first := InitializeJitRepository Examples.enumerate opts "/w" Examples.fresh in
  let second := InitializeJitRepository Examples.enumerate opts "/w" first.2 in
  first.1 = (true, None)
  ∧ second.1 = (false, Some (AlreadyInitialized "/w"))
  ∧ fs second.2 = fs first.2.
Proof.
  intros opts first second. split; [vm_compute; reflexivity|].
  apply (second_initialization_refused Examples.enumerate Examples.enumerate
           opts "/w" Examples.fresh first.2 second.1 second.2);
    vm_compute; reflexivity.
Defined.

(** ** The pipeline as a state machine

    The state machine of the specification, written from its words: the
    stages are run in a fixed order; a stage that fails ends the run with
    [(false, err)] when the failure is fatal, and the run goes on when it is
    not; a run that gets through all stages ends with [(true, nil)]. *)

Fixpoint runStages (fatal : Stage → bool) (act : Stage → M (option error))
    (stages : list Stage) : M (bool * option error) :=
  match stages with
  | [] => ret (true, None)
  | s :: rest =>
      stage s ;;
      err <- act s ;;
      match err with
      | Some e =>
          if fatal s then ret (false, Some e) else runStages fatal act rest
      | None => runStages fatal act rest
      end
  end.

(** The link stage is there only when a separate directory is asked for. *)
Definition stageOrder (o : Options) : list Stage :=
  [RESOLVE_DIRS]
  ++ (if negb (String.eqb (separateJitDir o) "") then [LINK_IF_SEPARATE] else [])
  ++ [SCAFFOLD; WRITE_CONFIG; SET_BRANCH].

(** What a stage does and the error it reports, for the working directory
    [workingDir] the resolve stage yields. *)
Definition stageAction (range : ∀ V : Type, gmap string V → list (string * V))
    (o : Options) (dir workingDir : string) (s : Stage) : M (option error) :=
  let sepDir := separateJitDir o in
  let finalJitDir := ConstructFinalJitDir workingDir sepDir (bare o) in
  match s with
  | RESOLVE_DIRS =>
      let* (_, sepErr) := resolveSeparate o in
      match sepErr with
      | Some e => ret (Some e)
      | None => let* (_, wkDirErr) := GetJitRootDir dir in ret wkDirErr
      end
  | LINK_IF_SEPARATE =>
      createErr <- Symlink sepDir (filepath.Join [workingDir; util.JitDirName]) ;;
      ret (match createErr with Some _ => Some SymlinkError | None => None end)
  | SCAFFOLD =>
      let* (_, createJitDirErr) :=
        (if negb (String.eqb sepDir "")
         then CreateJitDir range sepDir true (bare o) (filePermissionOf o)
         else CreateJitDir range workingDir false (bare o) (filePermissionOf o)) in
      ret createJitDirErr
  | WRITE_CONFIG =>
      let* (_, writeErr) := WriteToConfigFile range (configOf o) finalJitDir in
      (match writeErr with
       | Some e => log "" (Some e)
       | None => ret ()
       end) ;;
      ret writeErr
  | SET_BRANCH =>
      let* (_, setupErr) := SetUpInitialBranch finalJitDir (initialBranch o) in
      (match setupErr with
       | Some e =>
           log "encountered an error while creating a jit repository." None
       | None =>
           if negb (quiet o) then
             let* (dirAbs, _) := Abs workingDir in
             log ("Successfully initialized a new jit repository -> "
                    +:+ filepath.Join [dirAbs; util.JitDirName]) None
           else ret ()
       end) ;;
      ret setupErr
  end.

(** A failure of the write-config stage is not fatal; every other one is. *)
Definition fatalStage (s : Stage) : bool :=
  match s with WRITE_CONFIG => false | _ => true end.

(** The stage marks among some events. *)
Definition marks (evs : list Event) : list Stage :=
  omap (λ e, match e with EvStage s => Some s | _ => None end) evs.

Lemma finish_runStages range o dir workingDir w :
  finish range o (ConstructFinalJitDir workingDir (separateJitDir o) (bare o))
    workingDir w
  = runStages fatalStage (stageAction range o dir workingDir)
      [WRITE_CONFIG; SET_BRANCH] w.
Proof.
  unfold finish. cbn [runStages stageAction fatalStage]. unfold bind, ret.
  destruct (stage WRITE_CONFIG w) as [[] w1].
  destruct (WriteToConfigFile _ _ _ w1) as [[okw [e|]] w2].
  - destruct (log "" (Some e) w2) as [[] w3].
    destruct (stage SET_BRANCH w3) as [[] w4].
    destruct (SetUpInitialBranch _ _ w4) as [[oks [e'|]] w5].
    + by destruct (log _ None w5) as [[] w6].
    + destruct (negb (quiet o)); [|done].
      destruct (Abs workingDir w5) as [[dirAbs x] w6].
      by destruct (log _ None w6) as [[] w7].
  - destruct (stage SET_BRANCH w2) as [[] w4].
    destruct (SetUpInitialBranch _ _ w4) as [[oks [e'|]] w5].
    + by destruct (log _ None w5) as [[] w6].
    + destruct (negb (quiet o)); [|done].
      destruct (Abs workingDir w5) as [[dirAbs x] w6].
      by destruct (log _ None w6) as [[] w7].
Qed.

(** *** Only the pipeline writes stage marks *)

Definition Quiet {A} (m : M A) : Prop :=
  ∀ w, marks (events (m w).2) = marks (events w).

Lemma marks_emit_stage s w :
  marks (events (emit (EvStage s) w)) = marks (events w) ++ [s].
Proof. unfold marks. simpl. by rewrite omap_app. Qed.

Lemma marks_emit_call c r w : marks (events (emit (EvCall c r) w)) = marks (events w).
Proof. unfold marks. simpl. by rewrite omap_app, app_nil_r. Qed.

Lemma marks_emit_log msg e w : marks (events (emit (EvLog msg e) w)) = marks (events w).
Proof. unfold marks. simpl. by rewrite omap_app, app_nil_r. Qed.

Lemma Quiet_ret {A} (a : A) : Quiet (ret a).
Proof. done. Qed.

Lemma Quiet_bind {A B} (m : M A) (k : A → M B) :
  Quiet m → (∀ a, Quiet (k a)) → Quiet (bind m k).
Proof.
  intros Hm Hk w. unfold bind. specialize (Hm w).
  destruct (m w) as [a w1]. simpl in Hm. by rewrite Hk.
Qed.

Lemma Quiet_log msg e : Quiet (log msg e).
Proof. intros w. apply marks_emit_log. Qed.

Lemma Quiet_Getwd : Quiet Getwd.
Proof. intros w. unfold Getwd. destruct (cwd w); apply marks_emit_call. Qed.

Lemma Quiet_Stat name : Quiet (Stat name).
Proof. intros w. unfold Stat. destruct (_ ≫= _); apply marks_emit_call. Qed.

Lemma Quiet_Close h : Quiet (Close h).
Proof. intros w. unfold Close. destruct h; apply marks_emit_call. Qed.

Lemma openNode_events name flag perm w :
  events (openNode name flag perm w).2 = events w.
Proof. unfold openNode. by repeat case_match. Qed.

Lemma Quiet_OpenFile name flag perm : Quiet (OpenFile name flag perm).
Proof.
  intros w. unfold OpenFile. pose proof (openNode_events name flag perm w) as H.
  destruct (openNode name flag perm w) as [[h [e|]] w1]; cbn [fst snd] in *;
    by rewrite marks_emit_call, H.
Qed.

Lemma Quiet_Write h data : Quiet (Write h data).
Proof.
  intros w. unfold Write, nextWrite. destruct h as [h|]; [|apply marks_emit_call].
  destruct (writes w) as [|[] rest]; cbn [fst snd];
    repeat case_match; cbn [fst snd]; by rewrite marks_emit_call.
Qed.

Lemma mkdirNode_events k perm w : events (mkdirNode k perm w).2 = events w.
Proof. unfold mkdirNode. by repeat case_match. Qed.

Lemma Quiet_Mkdir name perm : Quiet (Mkdir name perm).
Proof.
  intros w. unfold Mkdir. destruct (resolve w name) as [k|]; [|apply marks_emit_call].
  pose proof (mkdirNode_events k perm w) as H.
  destruct (mkdirNode k perm w) as [[e|] w1]; cbn [fst snd] in *;
    by rewrite marks_emit_call, H.
Qed.

Lemma mkdirAllRev_events rk perm w : events (mkdirAllRev rk perm w).2 = events w.
Proof.
  revert w. induction rk as [|c rp IH]; intros w; simpl.
  - by repeat case_match.
  - destruct (fs w !! _) as [[]|]; try done.
    specialize (IH w). destruct (mkdirAllRev rp perm w) as [[e|] w1]; [done|].
    simpl in IH. by rewrite mkdirNode_events.
Qed.

Lemma Quiet_MkdirAll name perm : Quiet (MkdirAll name perm).
Proof.
  intros w. unfold MkdirAll. destruct (resolve w name) as [k|]; [|apply marks_emit_call].
  pose proof (mkdirAllRev_events (rev k) perm w) as H.
  destruct (mkdirAllRev (rev k) perm w) as [[e|] w1]; cbn [fst snd] in *;
    by rewrite marks_emit_call, H.
Qed.

Lemma Quiet_Symlink old new : Quiet (Symlink old new).
Proof.
  intros w. unfold Symlink. cbv zeta.
  repeat case_match; cbn [fst snd]; by rewrite marks_emit_call.
Qed.

Lemma Quiet_Remove name : Quiet (Remove name).
Proof.
  intros w. unfold Remove. cbv zeta.
  repeat case_match; cbn [fst snd]; by rewrite marks_emit_call.
Qed.

Lemma createTempLoop_marks prefix pattern draws try w :
  marks (events (createTempLoop prefix pattern draws try w).2) = marks (events w).
Proof.
  revert try w. induction draws as [|r rest IH]; intros try w; [done|].
  cbn [createTempLoop].
  pose proof (Quiet_OpenFile (prefix +:+ r) (N.lor O_RDWR (N.lor O_CREATE O_EXCL))
                0x180 (setTemps rest w)) as Q.
  destruct (OpenFile _ _ _ (setTemps rest w)) as [[h e] w1]. simpl in Q.
  destruct e as [[op path []| | |]|]; try done.
  destruct (try + 1 <? 10000); [|done]. by rewrite IH.
Qed.

Lemma Quiet_CreateTemp dir pattern : Quiet (CreateTemp dir pattern).
Proof. intros w. apply createTempLoop_marks. Qed.

Lemma Quiet_Abs path : Quiet (Abs path).
Proof.
  unfold Abs. destruct (filepath.isRooted path); [apply Quiet_ret|].
  apply Quiet_bind; [apply Quiet_Getwd|]. intros [wd [e|]]; apply Quiet_ret.
Qed.

Lemma Quiet_GetJitRootDir dirPath : Quiet (GetJitRootDir dirPath).
Proof.
  unfold GetJitRootDir. destruct (negb _).
  - apply Quiet_bind.
    + unfold ValidateDirPath. apply Quiet_bind; [apply Quiet_Stat|].
      intros [info [e|]]; [apply Quiet_ret|]. destruct (negb _); apply Quiet_ret.
    + intros [e|]; [apply Quiet_ret|]. apply Quiet_bind.
      * unfold CheckWritePermission. apply Quiet_bind; [apply Quiet_CreateTemp|].
        intros [file [e|]]; [apply Quiet_ret|].
        apply Quiet_bind; [apply Quiet_Close|]. intros closeErr.
        apply Quiet_bind; [destruct closeErr; [apply Quiet_log|apply Quiet_ret]|].
        intros _. apply Quiet_bind; [apply Quiet_Remove|]. intros removeErr.
        apply Quiet_bind; [destruct removeErr; [apply Quiet_log|apply Quiet_ret]|].
        intros _. apply Quiet_ret.
      * intros [e|]; apply Quiet_ret.
  - apply Quiet_bind; [apply Quiet_Getwd|]. intros [d [e|]]; apply Quiet_ret.
Qed.

Lemma Quiet_createEntries wkDir entries : Quiet (createEntries wkDir entries).
Proof.
  induction entries as [|[k v] rest IH]; simpl; [apply Quiet_ret|].
  apply Quiet_bind.
  - destruct (decide (v = util.DataFile)) as [Hv|Hv]; [|apply Quiet_ret].
    apply Quiet_bind; [apply Quiet_OpenFile|]. intros [file [e|]].
    + apply Quiet_bind; [apply Quiet_log|]. intros _. apply Quiet_ret.
    + apply Quiet_bind; [apply Quiet_Close|]. intros [e|]; [|apply Quiet_ret].
      apply Quiet_bind; [apply Quiet_log|]. intros _. apply Quiet_ret.
  - intros [|]; [apply Quiet_ret|]. apply Quiet_bind.
    + destruct (decide (v = util.Directory)) as [Hv|Hv]; [|apply Quiet_ret].
      apply Quiet_bind; [apply Quiet_MkdirAll|]. intros [e|]; [|apply Quiet_ret].
      apply Quiet_bind; [apply Quiet_log|]. intros _. apply Quiet_ret.
    + intros [|]; [apply Quiet_ret|apply IH].
Qed.

Lemma Quiet_CreateJitDir range wkDir sepDir bare perm :
  Quiet (CreateJitDir range wkDir sepDir bare perm).
Proof.
  unfold CreateJitDir. destruct (negb sepDir && negb bare).
  - apply Quiet_bind; [apply Quiet_Mkdir|]. intros [e|]; [apply Quiet_ret|].
    apply Quiet_bind; [apply Quiet_createEntries|]. intros _. apply Quiet_ret.
  - apply Quiet_bind; [apply Quiet_createEntries|]. intros _. apply Quiet_ret.
Qed.

Lemma Quiet_writeEntries f entries : Quiet (writeEntries f entries).
Proof.
  induction entries as [|[k v] rest IH]; simpl; [apply Quiet_ret|].
  apply Quiet_bind; [apply Quiet_Write|]. intros [n [e|]].
  - apply Quiet_bind; [apply Quiet_log|]. intros _. apply IH.
  - apply Quiet_bind; [apply Quiet_ret|]. intros _. apply IH.
Qed.

Lemma Quiet_WriteToConfigFile range config jitDir :
  Quiet (WriteToConfigFile range config jitDir).
Proof.
  unfold WriteToConfigFile.
  apply Quiet_bind; [apply Quiet_OpenFile|]. intros [f [e|]].
  - apply Quiet_bind; [apply Quiet_Close|]. intros _. apply Quiet_ret.
  - apply Quiet_bind; [apply Quiet_writeEntries|]. intros _.
    apply Quiet_bind; [apply Quiet_Close|]. intros _. apply Quiet_ret.
Qed.

Lemma Quiet_SetUpInitialBranch jitDir initialBranch :
  Quiet (SetUpInitialBranch jitDir initialBranch).
Proof.
  unfold SetUpInitialBranch.
  apply Quiet_bind; [apply Quiet_OpenFile|]. intros [bf [e|]].
  { apply Quiet_bind; [apply Quiet_Close|]. intros _. apply Quiet_ret. }
  apply Quiet_bind; [apply Quiet_OpenFile|]. intros [hf [e|]].
  { repeat (apply Quiet_bind; [apply Quiet_Close|]; intros _). apply Quiet_ret. }
  apply Quiet_bind; [apply Quiet_Write|]. intros [n [e|]];
    repeat (apply Quiet_bind; [apply Quiet_Close|]; intros _); apply Quiet_ret.
Qed.

Lemma Quiet_stageAction range o dir workingDir s :
  Quiet (stageAction range o dir workingDir s).
Proof.
  destruct s; cbn [stageAction].
  - apply Quiet_bind.
    + unfold resolveSeparate. destruct (negb _);
        [apply Quiet_GetJitRootDir|apply Quiet_ret].
    + intros [x [e|]]; [apply Quiet_ret|].
      apply Quiet_bind; [apply Quiet_GetJitRootDir|]. intros [y e]. apply Quiet_ret.
  - apply Quiet_bind; [apply Quiet_Symlink|]. intros e. apply Quiet_ret.
  - apply Quiet_bind; [destruct (negb _); apply Quiet_CreateJitDir|].
    intros [x e]. apply Quiet_ret.
  - apply Quiet_bind; [apply Quiet_WriteToConfigFile|]. intros [x e].
    apply Quiet_bind; [destruct e; [apply Quiet_log|apply Quiet_ret]|].
    intros _. apply Quiet_ret.
  - apply Quiet_bind; [apply Quiet_SetUpInitialBranch|]. intros [x e].
    apply Quiet_bind; [|intros _; apply Quiet_ret].
    destruct e; [apply Quiet_log|]. destruct (negb _); [|apply Quiet_ret].
    apply Quiet_bind; [apply Quiet_Abs|]. intros [d x']. apply Quiet_log.
Qed.

(** The marks a run of the machine adds are the stages it started: an
    initial segment of the list, the whole list when it ends with
    [(true, nil)], and it ends with [(false, err)] otherwise. *)
Lemma runStages_marks fatal act stages w :
  (∀ s, Quiet (act s)) →
  let run := runStages fatal act stages w in
  ∃ started,
    marks (events run.2) = marks (events w) ++ started
    ∧ started `prefix_of` stages
    ∧ (run.1 = (true, None) ∧ started = stages ∨ ∃ e, run.1 = (false, Some e)).
Proof.
  intros Hq. revert w. induction stages as [|s rest IH]; intros w; cbn [runStages].
  - exists []. rewrite app_nil_r. repeat split; [done|by left].
  - unfold bind, stage. pose proof (Hq s (emit (EvStage s) w)) as Q.
    destruct (act s (emit (EvStage s) w)) as [err w1]. cbn [fst snd] in Q.
    rewrite marks_emit_stage in Q.
    assert (∃ started,
              marks (events (runStages fatal act rest w1).2)
              = marks (events w) ++ started
              ∧ started `prefix_of` s :: rest
              ∧ ((runStages fatal act rest w1).1 = (true, None) ∧ started = s :: rest
                 ∨ ∃ e, (runStages fatal act rest w1).1 = (false, Some e))) as Hrest.
    { destruct (IH w1) as (started & Hm & Hp & Hr).
      exists (s :: started). rewrite Hm, Q, <- app_assoc. split; [done|].
      split; [by apply prefix_cons|].
      destruct Hr as [[? ->]|?]; [by left|by right]. }
    destruct err as [e|]; [|exact Hrest].
    destruct (fatal s); [|exact Hrest].
    exists [s]. split; [done|]. split; [|right; by exists e].
    by apply prefix_cons, prefix_nil.
Qed.

Lemma bind_eq {A B} (m : M A) (k k' : A → M B) w :
  (∀ a w1, m w = (a, w1) → k a w1 = k' a w1) → bind m k w = bind m k' w.
Proof. intros H. unfold bind. destruct (m w) as [a w1] eqn:E. by apply H. Qed.

Lemma bind_assoc {A B C} (m : M A) (f : A → M B) (k : B → M C) w :
  bind (bind m f) k w = bind m (λ a, bind (f a) k) w.
Proof. unfold bind. by destruct (m w). Qed.

Lemma InitializeJitRepository_runStages range options dir w :
  InitializeJitRepository range options dir w
  = runStages fatalStage
      (stageAction range (readOptions options) dir (workingDirOf w dir))
      (stageOrder (readOptions options))
      (note (optionLogs options) w).
Proof.
  rewrite InitializeJitRepository_unfold.
  set (o := readOptions options). set (w0 := note (optionLogs options) w).
  assert (cwd w0 = cwd w) as Hcwd by apply (same_cwd _ _ (sameFiles_note _ w)).
  unfold pipeline, stageOrder. cbn [app runStages].
  apply bind_eq. intros [] w1 Hs1.
  assert (cwd w1 = cwd w) as Hcwd1.
  { pose proof (Keeps_stage RESOLVE_DIRS w0) as K. rewrite Hs1 in K.
    simpl in K. by rewrite (same_cwd _ _ K). }
  cbn [stageAction fatalStage]. rewrite bind_assoc.
  apply bind_eq. intros [sepDir [e|]] w2 Hsep; [done|].
  apply resolveSeparate_inv in Hsep as [-> K2].
  rewrite bind_assoc. apply bind_eq. intros [workingDir [e|]] w3 Hwk; [done|].
  apply GetJitRootDir_value in Hwk as ->.
  assert (workingDirOf w2 dir = workingDirOf w dir) as ->.
  { unfold workingDirOf. by rewrite (same_cwd _ _ K2), Hcwd1. }
  set (wd := workingDirOf w dir).
  change (bind (ret None) ?k w3) with (k None w3). cbv beta iota.
  unfold linkAndScaffold.
  destruct (negb (String.eqb (separateJitDir o) "")) eqn:Hneg.
  - cbn [app runStages stageAction fatalStage]. rewrite bind_assoc.
    apply bind_eq. intros [] w4 _. rewrite !bind_assoc.
    apply bind_eq. intros [e|] w5 _; [done|].
    change (bind (ret None) ?k w5) with (k None w5). cbv beta iota.
    rewrite Hneg, !bind_assoc. apply bind_eq. intros [] w6 _.
    rewrite !bind_assoc. apply bind_eq. intros [okc [e|]] w7 _; [done|].
    apply (finish_runStages range o dir wd w7).
  - cbn [app runStages stageAction fatalStage]. rewrite Hneg, !bind_assoc.
    apply bind_eq. intros [] w6 _.
    rewrite !bind_assoc. apply bind_eq. intros [okc [e|]] w7 _; [done|].
    apply (finish_runStages range o dir wd w7).
Qed.

Lemma marks_app l1 l2 : marks (l1 ++ l2) = marks l1 ++ marks l2.
Proof. apply omap_app. Qed.

Lemma marks_if_log (b : bool) msg : marks (if b then [EvLog msg None] else []) = [].
Proof. by destruct b. Qed.

Lemma marks_optionLogs options : marks (optionLogs options) = [].
Proof. unfold optionLogs. by rewrite !marks_app, !marks_if_log. Qed.



(** ** Runs in which the scaffolder meets an occupied slot *)

(** The creation of one entry of the layout fails. *)
Definition entryFails (wkDir : string) (kv : string * util.File) (w : World) : Prop :=
  match kv.2 with
  | util.DataFile => is_Some (Create (filepath.Join [wkDir; kv.1]) w).1.2
  | util.Directory =>
      is_Some (MkdirAll (filepath.Join [wkDir; kv.1]) util.DefaultFilePerm w).1
  end.

(** After an entry whose creation fails the loop visits no other entry. *)
Lemma createEntries_stops wkDir kv rest w :
  entryFails wkDir kv w →
  createEntries wkDir (kv :: rest) w = createEntries wkDir [kv] w.
Proof.
  destruct kv as [k v]. unfold entryFails. cbn [fst snd createEntries].
  unfold bind, ret. destruct v; simpl.
  - destruct (Create _ w) as [[file [e|]] w1]; simpl; [|by intros [? [=]]].
    intros _. by destruct (log "" (Some e) w1).
  - destruct (MkdirAll _ _ w) as [[e|] w1]; simpl; [|by intros [? [=]]].
    intros _. by destruct (log "" (Some e) w1).
Qed.

(** With the bare or the separate-directory option [CreateJitDir] returns
    [(true, nil)] whatever happens to the entries. *)
Lemma CreateJitDir_never_reports range wkDir sepDir bare perm w :
  negb sepDir && negb bare = false →
  (CreateJitDir range wkDir sepDir bare perm w).1 = (true, None).
Proof.
  intros H. unfold CreateJitDir, bind. rewrite H.
  by destruct (createEntries _ _ w).
Qed.

(** C4. In a bare repository whose working directory holds a directory
    named [main], the creation of the file [main] fails; [CreateJitDir]
    stops creating (the entries after [main] are never attempted), logs the
    failure and returns [(true, nil)]: the failure is not reported. *)
Theorem CreateJitDir_swallows_failure :
  let run := CreateJitDir Examples.enumerate "/w" false true 0x1ed Examples.occupied in
  run.1 = (true, None)
  ∧ events run.2
    = [ EvCall (CMkdirAll "/w/branches" 0x1a4) None;
        EvCall (COpenFile "/w/config" 0x242 0x1b6) None;
        EvCall (CClose (Some "/w/config")) None;
        EvCall (COpenFile "/w/head" 0x242 0x1b6) None;
        EvCall (CClose (Some "/w/head")) None;
        EvCall (CMkdirAll "/w/info" 0x1a4) None;
        EvCall (CMkdirAll "/w/logs" 0x1a4) None;
        EvCall (COpenFile "/w/main" 0x242 0x1b6) (Some EISDIR);
        EvLog "" (Some (PathError "open" "/w/main" EISDIR)) ]
  ∧ fs run.2 !! ["w"; "objects"] = None
  ∧ fs run.2 !! ["w"; "snapshots"] = None
  ∧ fs run.2 !! ["w"; "stage"] = None.
Proof. vm_compute. repeat split. Qed.

(** C1. The same working directory, initialised as a bare repository with
    the default options: [InitializeJitRepository] returns [(true, nil)]
    although [main] is a directory and [objects], [snapshots] and [stage]
    do not exist at the computed root [/w]. *)
Theorem initialize_succeeds_with_incomplete_layout :
  let run :=
    InitializeJitRepository Examples.enumerate
      (Examples.options true true "" "main" "0755") "/w" Examples.occupied in
  run.1 = (true, None)
  ∧ ConstructFinalJitDir "/w" "" true = "/w"
  ∧ fs run.2 !! ["w"; "main"] = Some (Dir 0x1ed)
  ∧ fs run.2 !! ["w"; "objects"] = None
  ∧ fs run.2 !! ["w"; "snapshots"] = None
  ∧ fs run.2 !! ["w"; "stage"] = None.
Proof. vm_compute. repeat split. Qed.

(** ** The permission option *)

(** C8. The permission string [invalid] is no base-8 number, and yet the
    initialisation of a fresh directory with it returns [(true, nil)] and
    creates the repository, the metadata directory with mode 0755. *)
Theorem invalid_permission_falls_back :
  let run :=
    InitializeJitRepository Examples.enumerate
      (Examples.options true false "" "main" "invalid") "/w" Examples.fresh in
  strconv.ParseUint "invalid" 8 32 = (0, Some strconv.ErrSyntax)
  ∧ run.1 = (true, None)
  ∧ fs Examples.fresh !! ["w"; ".jit"] = None
  ∧ fs run.2 !! ["w"; ".jit"] = Some (Dir 0x1ed)
  ∧ fs run.2 !! ["w"; ".jit"; "head"]
    = Some (File 0x1b6 "/w/.jit/branches/main").
Proof. vm_compute. repeat split. Qed.

(** C9. With the permission string [0700] the metadata directory is made
    with mode 0700, and the five directories of the layout with the fixed
    [util.DefaultFilePerm], 0644. *)
Theorem layout_directories_use_default_mode :
  let run :=
    InitializeJitRepository Examples.enumerate
      (Examples.options true false "" "main" "0700") "/w" Examples.fresh in
  strconv.ParseUint "0700" 8 32 = (0x1c0, None)
  ∧ run.1 = (true, None)
  ∧ fs run.2 !! ["w"; ".jit"] = Some (Dir 0x1c0)
  ∧ Forall (λ d, fs run.2 !! ["w"; ".jit"; d] = Some (Dir util.DefaultFilePerm))
      [util.LOGS; util.INFO; util.BRANCHES; util.SNAPSHOTS; util.OBJECTS].
Proof. vm_compute. repeat split; repeat constructor. Qed.

(** * Further properties

    ** Paths

    [filepath.Clean] runs a stack machine over the elements of a path; the
    lemmas below relate the node a name resolves to with the nodes of the
    names made from it by [Clean], [Join] and [joinPath]. *)

Definition noSlash (x : string) : bool :=
  forallb (λ c, negb (Ascii.eqb c "/")) (list_ascii_of_string x).

Definition simpleName (x : string) : bool :=
  negb (String.eqb x "" || String.eqb x "." || String.eqb x "..") && noSlash x.

Lemma splitSlash_nonempty s : filepath.splitSlash s ≠ [].
Proof.
  destruct s as [|c r]; simpl; [done|].
  destruct (Ascii.eqb c "/"); [done|]. by destruct (filepath.splitSlash r).
Qed.

Lemma splitSlash_app a b :
  filepath.splitSlash (a +:+ "/" +:+ b) = filepath.splitSlash a ++ filepath.splitSlash b.
Proof.
  induction a as [|c r IH]; [done|].
  rewrite string_app_cons. simpl. rewrite IH.
  destruct (Ascii.eqb c "/"); [done|].
  pose proof (splitSlash_nonempty r). by destruct (filepath.splitSlash r).
Qed.

Lemma splitSlash_noSlash x : noSlash x = true → filepath.splitSlash x = [x].
Proof.
  unfold noSlash. induction x as [|c r IH]; [done|]. simpl.
  intros [Hc Hr]%andb_true_iff. apply negb_true_iff in Hc. rewrite Hc, IH; done.
Qed.

Lemma noSlash_splitSlash s : Forall (λ e, noSlash e = true) (filepath.splitSlash s).
Proof.
  induction s as [|c r IH]; simpl; [by repeat constructor|].
  destruct (Ascii.eqb c "/") eqn:Hc; [by constructor|].
  destruct (filepath.splitSlash r) as [|h t]; [by repeat constructor; unfold noSlash; simpl; rewrite Hc|].
  apply Forall_cons in IH as [Hh Ht]. constructor; [|done].
  unfold noSlash in *. simpl. by rewrite Hc, Hh.
Qed.

(** The stack machine of [Clean]. *)

Definition pushed (e : string) : Prop := e ≠ "" ∧ e ≠ "." ∧ e ≠ "..".

Lemma cleanStep_pushed r stk e : pushed e → filepath.cleanStep r stk e = e :: stk.
Proof.
  intros (H1 & H2 & H3). unfold filepath.cleanStep.
  apply String.eqb_neq in H1, H2, H3. by rewrite H1, H2, H3.
Qed.

Lemma simpleName_pushed x : simpleName x = true → pushed x ∧ noSlash x = true.
Proof.
  unfold simpleName. intros [H1 H2]%andb_true_iff. split; [|done].
  apply negb_true_iff in H1. apply orb_false_iff in H1 as [H1 H3].
  apply orb_false_iff in H1 as [H1 H1'].
  by repeat split; apply String.eqb_neq.
Qed.

Lemma fold_pushed r l stk :
  Forall pushed l → fold_left (filepath.cleanStep r) l stk = rev l ++ stk.
Proof.
  revert stk. induction l as [|e l IH]; intros stk Hl; [done|].
  apply Forall_cons in Hl as [He Hl]. simpl.
  rewrite cleanStep_pushed, IH by done. by rewrite <- app_assoc.
Qed.

(** The elements on the stack are never empty or [.]; on the stack of a
    rooted path, started empty, they are never [..] either. *)
Definition kept (e : string) : Prop := e ≠ "" ∧ e ≠ ".".

Lemma cleanStep_kept r stk e :
  Forall kept stk → Forall kept (filepath.cleanStep r stk e).
Proof.
  intros Hs. unfold filepath.cleanStep.
  destruct (String.eqb_spec e ""); [done|].
  destruct (String.eqb_spec e "."); [done|]. simpl.
  destruct (String.eqb_spec e "..") as [->|].
  - destruct stk as [|top below].
    + destruct r; [done|]. by repeat constructor.
    + destruct (String.eqb top ".."); [by constructor|].
      by apply Forall_cons in Hs as [_ ?].
  - by constructor.
Qed.

Lemma fold_kept r l stk :
  Forall kept stk → Forall kept (fold_left (filepath.cleanStep r) l stk).
Proof.
  revert stk. induction l as [|e l IH]; intros stk Hs; [done|].
  simpl. apply IH. by apply cleanStep_kept.
Qed.

Lemma cleanStep_pushed_all stk e :
  Forall pushed stk → Forall pushed (filepath.cleanStep true stk e).
Proof.
  intros Hs. unfold filepath.cleanStep.
  destruct (String.eqb_spec e ""); [done|].
  destruct (String.eqb_spec e "."); [done|]. simpl.
  destruct (String.eqb_spec e "..") as [->|].
  - destruct stk as [|top below]; [done|].
    apply Forall_cons in Hs as [(_ & _ & Ht) Hb].
    apply String.eqb_neq in Ht. by rewrite Ht.
  - by constructor.
Qed.

Lemma fold_pushed_all l stk :
  Forall pushed stk → Forall pushed (fold_left (filepath.cleanStep true) l stk).
Proof.
  revert stk. induction l as [|e l IH]; intros stk Hs; [done|].
  simpl. apply IH. by apply cleanStep_pushed_all.
Qed.

Lemma cleanStep_noSlash r stk e :
  noSlash e = true → Forall (λ x, noSlash x = true) stk →
  Forall (λ x, noSlash x = true) (filepath.cleanStep r stk e).
Proof.
  intros He Hs. unfold filepath.cleanStep.
  repeat case_match; try done; try by constructor.
  by apply Forall_cons in Hs as [_ ?].
Qed.

Lemma fold_noSlash r l stk :
  Forall (λ x, noSlash x = true) l → Forall (λ x, noSlash x = true) stk →
  Forall (λ x, noSlash x = true) (fold_left (filepath.cleanStep r) l stk).
Proof.
  revert stk. induction l as [|e l IH]; intros stk Hl Hs; [done|].
  apply Forall_cons in Hl as [He Hl]. simpl. apply IH; [done|].
  by apply cleanStep_noSlash.
Qed.

(** Running the machine over its own result, read outermost first, is
    running it over the input. *)
Lemma fold_replay r stk l :
  fold_left (filepath.cleanStep r) (rev (fold_left (filepath.cleanStep false) l [])) stk
  = fold_left (filepath.cleanStep r) l stk.
Proof.
  induction l as [|e l IH] using rev_ind; [done|].
  rewrite !fold_left_app. simpl. rewrite <- IH.
  set (N := fold_left (filepath.cleanStep false) l []).
  assert (Forall kept N) as HN by (by apply fold_kept).
  clearbody N. clear IH.
  unfold filepath.cleanStep at 2.
  destruct (String.eqb_spec e "") as [->|He1]; [done|].
  destruct (String.eqb_spec e ".") as [->|He2]; [done|]. simpl.
  destruct (String.eqb_spec e "..") as [->|He3].
  - destruct N as [|top below]; [done|].
    destruct (String.eqb_spec top "..") as [->|Ht].
    + simpl. by rewrite fold_left_app.
    + simpl. rewrite fold_left_app. simpl.
      apply Forall_cons in HN as [[Ht1 Ht2] _].
      rewrite (cleanStep_pushed r _ top) by done.
      unfold filepath.cleanStep. simpl.
      apply String.eqb_neq in Ht. by rewrite Ht.
  - simpl. by rewrite fold_left_app.
Qed.

Lemma splitSlash_Join es :
  es ≠ [] → Forall (λ x, noSlash x = true) es →
  filepath.splitSlash (strings.Join es "/") = es.
Proof.
  induction es as [|e es IH]; [done|]. intros _ Hes.
  apply Forall_cons in Hes as [He Hes].
  destruct es as [|e' es]; [by apply splitSlash_noSlash|].
  change (strings.Join (e :: e' :: es) "/")
    with (e +:+ "/" +:+ strings.Join (e' :: es) "/").
  rewrite splitSlash_app, IH, splitSlash_noSlash; done.
Qed.

Lemma isRooted_app_ne a b : a ≠ "" → filepath.isRooted (a +:+ b) = filepath.isRooted a.
Proof. by destruct a. Qed.

Lemma app_ne_empty a b : a ≠ "" → a +:+ b ≠ "".
Proof. by destruct a. Qed.

Lemma noSlash_not_rooted e : e ≠ "" → noSlash e = true → filepath.isRooted e = false.
Proof.
  destruct e as [|c e]; [done|]. intros _. unfold noSlash. simpl.
  intros [Hc _]%andb_true_iff. by apply negb_true_iff in Hc.
Qed.

(** The elements of the cleaned path. *)
Lemma cleanElems_facts s :
  Forall kept (filepath.cleanElems s)
  ∧ Forall (λ x, noSlash x = true) (filepath.cleanElems s)
  ∧ (filepath.isRooted s = true → Forall pushed (filepath.cleanElems s)).
Proof.
  unfold filepath.cleanElems. repeat split.
  - apply Forall_rev, fold_kept. done.
  - apply Forall_rev, fold_noSlash; [apply noSlash_splitSlash|done].
  - intros ->. apply Forall_rev, fold_pushed_all. done.
Qed.

Lemma Join_head_rooted e es :
  filepath.isRooted (strings.Join (e :: es) "/") = filepath.isRooted e
  ∨ (e = "" ∧ es ≠ []).
Proof.
  destruct es as [|e' es]; [by left|].
  change (strings.Join (e :: e' :: es) "/")
    with (e +:+ "/" +:+ strings.Join (e' :: es) "/").
  destruct e; [by right|by left].
Qed.

Lemma Clean_rooted s : s ≠ "" → filepath.isRooted (filepath.Clean s) = filepath.isRooted s.
Proof.
  intros Hs. unfold filepath.Clean. apply String.eqb_neq in Hs as Hs'. rewrite Hs'.
  destruct (filepath.isRooted s) eqn:Hr; [done|].
  destruct (cleanElems_facts s) as (Hk & Hn & _).
  destruct (filepath.cleanElems s) as [|e es]; [done|].
  apply Forall_cons in Hk as [[He _] _]. apply Forall_cons in Hn as [Hn _].
  destruct (Join_head_rooted e es) as [->|[-> _]]; [|done].
  by apply noSlash_not_rooted.
Qed.

Lemma Clean_ne s : filepath.Clean s ≠ "".
Proof.
  unfold filepath.Clean. destruct (String.eqb s ""); [done|].
  destruct (filepath.isRooted s); [done|].
  destruct (cleanElems_facts s) as (Hk & _ & _).
  destruct (filepath.cleanElems s) as [|e es]; [done|].
  apply Forall_cons in Hk as [[He _] _].
  destruct es as [|e' es]; [done|].
  change (strings.Join (e :: e' :: es) "/")
    with (e +:+ "/" +:+ strings.Join (e' :: es) "/").
  by apply app_ne_empty.
Qed.

Lemma splitSlash_slash x : filepath.splitSlash ("/" +:+ x) = "" :: filepath.splitSlash x.
Proof. reflexivity. Qed.

(** The elements of [Clean s], split again, are the cleaned elements. *)
Lemma splitSlash_Clean s :
  s ≠ "" →
  fold_left (filepath.cleanStep (filepath.isRooted s))
    (filepath.splitSlash (filepath.Clean s)) []
  = fold_left (filepath.cleanStep (filepath.isRooted s)) (filepath.cleanElems s) [].
Proof.
  intros Hs. unfold filepath.Clean. apply String.eqb_neq in Hs as Hs'. rewrite Hs'.
  destruct (cleanElems_facts s) as (Hk & Hn & Hp).
  destruct (filepath.isRooted s) eqn:Hr.
  - destruct (filepath.cleanElems s) as [|e es] eqn:He; [done|].
    rewrite splitSlash_slash, splitSlash_Join; done.
  - destruct (filepath.cleanElems s) as [|e es] eqn:He; [done|].
    rewrite splitSlash_Join; done.
Qed.

Lemma cleanElems_Clean s :
  filepath.isRooted s = true → filepath.cleanElems (filepath.Clean s) = filepath.cleanElems s.
Proof.
  intros Hr. assert (s ≠ "") as Hs by (by intros ->).
  destruct (cleanElems_facts s) as (_ & _ & Hp).
  unfold filepath.cleanElems at 1. rewrite Clean_rooted, Hr by done.
  pose proof (splitSlash_Clean s Hs) as H. rewrite Hr in H. rewrite H.
  rewrite fold_pushed by auto. by rewrite app_nil_r, rev_involutive.
Qed.

Lemma fold_Clean_relative r stk s :
  s ≠ "" → filepath.isRooted s = false →
  fold_left (filepath.cleanStep r) (filepath.splitSlash (filepath.Clean s)) stk
  = fold_left (filepath.cleanStep r) (filepath.splitSlash s) stk.
Proof.
  intros Hs Hr. rewrite <- (fold_replay r stk (filepath.splitSlash s)).
  unfold filepath.Clean. apply String.eqb_neq in Hs as Hs'. rewrite Hs', Hr.
  destruct (cleanElems_facts s) as (_ & Hn & _).
  unfold filepath.cleanElems in *. rewrite Hr in *.
  destruct (rev _) as [|e es] eqn:He; [done|].
  rewrite splitSlash_Join; done.
Qed.

Lemma cleanElems_prefix_Clean c s :
  s ≠ "" → filepath.isRooted s = false →
  filepath.cleanElems (c +:+ "/" +:+ filepath.Clean s)
  = filepath.cleanElems (c +:+ "/" +:+ s).
Proof.
  intros Hs Hr. unfold filepath.cleanElems.
  assert (∀ x, filepath.isRooted (c +:+ "/" +:+ x) = filepath.isRooted (c +:+ "/")) as Hc.
  { intros x. by destruct c. }
  rewrite (Hc s), (Hc (filepath.Clean s)).
  rewrite !splitSlash_app, !fold_left_app. by rewrite fold_Clean_relative.
Qed.

(** Cleaning a name does not change the node it names. *)
Lemma resolve_Clean w s : s ≠ "" → resolve w (filepath.Clean s) = resolve w s.
Proof.
  intros Hs. unfold resolve.
  pose proof (Clean_ne s) as Hc. apply String.eqb_neq in Hc, Hs as Hs'.
  rewrite Hc, Hs', Clean_rooted by done.
  destruct (filepath.isRooted s) eqn:Hr.
  - by rewrite cleanElems_Clean.
  - destruct (cwd w) as [d|]; [|done]. by rewrite cleanElems_prefix_Clean.
Qed.

Lemma cleanElems_child s x :
  s ≠ "" → simpleName x = true →
  filepath.cleanElems (s +:+ "/" +:+ x) = filepath.cleanElems s ++ [x].
Proof.
  intros Hs [Hp Hn]%simpleName_pushed. unfold filepath.cleanElems.
  rewrite isRooted_app_ne, splitSlash_app, fold_left_app by done.
  rewrite (splitSlash_noSlash x) by done. simpl.
  by rewrite cleanStep_pushed.
Qed.

(** A simple name under a directory names the child of that name. *)
Lemma resolve_child w d x :
  d ≠ "" → simpleName x = true →
  resolve w (d +:+ "/" +:+ x) = (λ k, k ++ [x]) <$> resolve w d.
Proof.
  intros Hd Hx. unfold resolve.
  pose proof (app_ne_empty d ("/" +:+ x) Hd) as Hne.
  apply String.eqb_neq in Hne, Hd as Hd'. rewrite Hne, Hd'.
  rewrite isRooted_app_ne by done.
  destruct (filepath.isRooted d).
  - simpl. by rewrite cleanElems_child.
  - destruct (cwd w) as [c|]; [|done]. simpl.
    replace (c +:+ "/" +:+ d +:+ "/" +:+ x) with ((c +:+ "/" +:+ d) +:+ "/" +:+ x)
      by (by rewrite !string_app_assoc).
    rewrite (cleanElems_child (c +:+ "/" +:+ d) x); [done| |done].
    by destruct c.
Qed.

Lemma resolve_Join w root x :
  root ≠ "" → simpleName x = true →
  resolve w (filepath.Join [root; x]) = (λ k, k ++ [x]) <$> resolve w root.
Proof.
  intros Hr Hx. unfold filepath.Join.
  apply String.eqb_neq in Hr as Hr'. rewrite Hr'.
  change (strings.Join [root; x] "/") with (root +:+ "/" +:+ x).
  rewrite resolve_Clean by (by apply app_ne_empty).
  by apply resolve_child.
Qed.

Lemma Join_ne root rest : root ≠ "" → filepath.Join (root :: rest) ≠ "".
Proof.
  intros Hr. unfold filepath.Join. apply String.eqb_neq in Hr as ->. apply Clean_ne.
Qed.

Lemma resolve_Join3 w root x y :
  root ≠ "" → simpleName x = true → simpleName y = true →
  resolve w (filepath.Join [root; x; y]) = (λ k, k ++ [x; y]) <$> resolve w root.
Proof.
  intros Hr Hx Hy. unfold filepath.Join.
  apply String.eqb_neq in Hr as Hr'. rewrite Hr'.
  change (strings.Join [root; x; y] "/") with (root +:+ "/" +:+ x +:+ "/" +:+ y).
  rewrite resolve_Clean by (by apply app_ne_empty).
  replace (root +:+ "/" +:+ x +:+ "/" +:+ y) with ((root +:+ "/" +:+ x) +:+ "/" +:+ y)
    by (by rewrite !string_app_assoc).
  rewrite (resolve_child w (root +:+ "/" +:+ x) y); [|by apply app_ne_empty|done].
  rewrite (resolve_child w root x) by done.
  destruct (resolve w root); simpl; [|done]. by rewrite <- app_assoc.
Qed.

Lemma endsWithSlash_split d :
  endsWithSlash d = true → ∃ d', d = d' +:+ "/".
Proof.
  unfold endsWithSlash. induction d as [|c d IH]; [done|].
  destruct d as [|c' d].
  - simpl. intros ->%Ascii.eqb_eq. by exists "".
  - intros H. destruct IH as [d' Hd'].
    { revert H. simpl. by rewrite Nat.sub_0_r. }
    exists (String c d'). by rewrite string_app_cons, <- Hd'.
Qed.

Lemma cleanElems_slash s : s ≠ "" → filepath.cleanElems (s +:+ "/") = filepath.cleanElems s.
Proof.
  intros Hs. unfold filepath.cleanElems.
  rewrite isRooted_app_ne by done.
  replace (s +:+ "/") with (s +:+ "/" +:+ "") by done.
  by rewrite splitSlash_app, fold_left_app.
Qed.

Lemma resolve_slash w s : s ≠ "" → resolve w (s +:+ "/") = resolve w s.
Proof.
  intros Hs. unfold resolve.
  pose proof (app_ne_empty s "/" Hs) as Hne.
  apply String.eqb_neq in Hne, Hs as Hs'. rewrite Hne, Hs'.
  rewrite isRooted_app_ne by done.
  destruct (filepath.isRooted s); [by rewrite cleanElems_slash|].
  destruct (cwd w) as [c|]; [|done].
  replace (c +:+ "/" +:+ s +:+ "/") with ((c +:+ "/" +:+ s) +:+ "/")
    by (by rewrite !string_app_assoc).
  rewrite cleanElems_slash; [done|]. by destruct c.
Qed.

(** [joinPath] under a directory names the child. *)
Lemma resolve_joinPath w d x :
  d ≠ "" → simpleName x = true →
  resolve w (joinPath d x) = (λ k, k ++ [x]) <$> resolve w d.
Proof.
  intros Hd Hx. unfold joinPath.
  destruct (endsWithSlash d) eqn:He; [|by apply resolve_child].
  apply endsWithSlash_split in He as [d' ->].
  destruct (decide (d' = "")) as [->|Hd'].
  - apply simpleName_pushed in Hx as Hx'. destruct Hx' as [Hp Hn].
    unfold resolve. simpl. unfold filepath.cleanElems. simpl.
    rewrite splitSlash_noSlash by done. simpl. by rewrite cleanStep_pushed.
  - rewrite resolve_slash by done. rewrite string_app_assoc.
    by apply resolve_child.
Qed.

Lemma parent_child (k : Path) x : parent (k ++ [x]) = k.
Proof. apply removelast_last. Qed.

Lemma entryCheck_child w (k : Path) x :
  entryCheck w (k ++ [x]) = None ↔ ∃ m, fs w !! k = Some (Dir m) ∧ k ∉ denied w.
Proof.
  unfold entryCheck. rewrite parent_child.
  destruct (k ++ [x]) eqn:Hk; [by destruct k|]. clear Hk.
  destruct (fs w !! k) as [[| |]|]; try (split; [done|by intros (? & ? & ?)]).
  case_decide.
  - split; [done|]. by intros (? & ? & ?).
  - split; [|done]. intros _. eauto.
Qed.

Definition tempFlag : N := N.lor O_RDWR (N.lor O_CREATE O_EXCL).

(** What a successful [CreateTemp] did: one of the drawn names was free. *)
Lemma createTempLoop_success prefix pattern draws try w h w1 :
  createTempLoop prefix pattern draws try w = ((h, None), w1) →
  ∃ r k rest,
    r ∈ draws
    ∧ resolve w (prefix +:+ r) = Some k
    ∧ fs w !! k = None
    ∧ entryCheck w k = None
    ∧ h = Some (mkHandle (prefix +:+ r) k tempFlag)
    ∧ fs w1 = <[k := File (syscallMode 0x180) ""]> (fs w)
    ∧ sameFiles (setFs (insert k (File (syscallMode 0x180) "")) w) w1
    ∧ temps w1 = rest.
Proof.
  revert try w. induction draws as [|r rest IH]; intros try w; simpl; [by intros [=]|].
  unfold OpenFile.
  destruct (openNode _ _ _ (setTemps rest w)) as [[h0 [e|]] w2] eqn:Hopen.
  - apply openNode_failed in Hopen as ->.
    destruct e; try by intros [=].
    destruct (try + 1 <? 10000); [|by intros [=]].
    intros Hrec. apply IH in Hrec as (r' & k & rest' & Hr & Hres & Hk & Hc & -> & Hf & Hs & Ht).
    exists r', k, rest'. repeat split; try done; try (by destruct Hs).
    by right.
  - apply openNode_excl in Hopen as (k & Hres & -> & Hk & Hc & ->); [|done].
    intros [= <- <-]. exists r, k, rest. repeat split; try done. by left.
Qed.

Lemma openNode_temp name perm w :
  openNode name tempFlag perm w
  = match resolve w name with
    | None => ((None, Some ENOENT), w)
    | Some k =>
        match fs w !! k with
        | Some _ => ((None, Some EEXIST), w)
        | None =>
            match entryCheck w k with
            | Some e => ((None, Some e), w)
            | None =>
                ((Some (mkHandle name k tempFlag), None),
                 setFs (insert k (File (syscallMode perm) "")) w)
            end
        end
    end.
Proof.
  unfold openNode. destruct (resolve w name) as [k|]; [|done].
  destruct (fs w !! k); [done|]. by destruct (entryCheck w k).
Qed.

(** The random names [CreateTemp] draws hold no separator (Go draws the
    decimal digits of a number). *)
Definition plainDraws (w : World) : Prop := Forall (λ r, noSlash r = true) (temps w).

Lemma plainDraws_fresh : plainDraws Examples.fresh.
Proof. repeat constructor. Qed.

Lemma simpleName_test r : noSlash r = true → simpleName ("test" +:+ r) = true.
Proof. intros H. unfold simpleName, noSlash in *. simpl. exact H. Qed.

Lemma joinPath_app d p r : joinPath d p +:+ r = joinPath d (p +:+ r).
Proof. unfold joinPath. destruct (endsWithSlash d); by rewrite !string_app_assoc. Qed.

Lemma ValidateDirPath_result currentDir w :
  (ValidateDirPath currentDir w).1
  = match resolve w currentDir ≫= (λ k, fs w !! k) with
    | None => Some (PathError "stat" currentDir ENOENT)
    | Some n =>
        if isDirNode n then None
        else Some (errorString (currentDir +:+ " is not a directory"))
    end.
Proof.
  unfold ValidateDirPath, bind, Stat, ret.
  destruct (resolve w currentDir ≫= _) as [[m c|m|t]|]; done.
Qed.


Lemma ValidateDirPath_ok currentDir w k m :
  resolve w currentDir = Some k → fs w !! k = Some (Dir m) →
  ValidateDirPath currentDir w = (None, emit (EvCall (CStat currentDir) None) w).
Proof.
  intros Hr Hk. unfold ValidateDirPath, bind, Stat, ret. rewrite Hr. simpl.
  by rewrite Hk.
Qed.

Lemma ValidateDirPath_inv currentDir w w1 :
  ValidateDirPath currentDir w = (None, w1) →
  ∃ k m, resolve w currentDir = Some k ∧ fs w !! k = Some (Dir m)
         ∧ w1 = emit (EvCall (CStat currentDir) None) w.
Proof.
  unfold ValidateDirPath, bind, Stat, ret.
  destruct (resolve w currentDir) as [k|] eqn:Hr; simpl; [|by intros [=]].
  destruct (fs w !! k) as [[m c|m|t]|] eqn:Hk; simpl; intros [=]. eauto.
Qed.

Definition noWritePermission (currentDir : string) : error :=
  errorString ("you don't have write permissions here -> " +:+ currentDir).

Lemma CreateTemp_inv currentDir w h w1 :
  currentDir ≠ "" → plainDraws w →
  CreateTemp currentDir "test" w = ((h, None), w1) →
  ∃ k m r,
    resolve w currentDir = Some k
    ∧ fs w !! k = Some (Dir m)
    ∧ (k ∉ denied w)
    ∧ r ∈ temps w
    ∧ fs w !! (k ++ [("test" +:+ r)%string]) = None.
Proof.
  intros Hd Hp. unfold CreateTemp. intros H.
  apply createTempLoop_success in H
    as (r & k' & rest & Hr & Hres & Hk & Hc & _).
  unfold plainDraws in Hp. rewrite Forall_forall in Hp. specialize (Hp r Hr).
  rewrite joinPath_app, resolve_joinPath in Hres; [|done|by apply simpleName_test].
  destruct (resolve w currentDir) as [k|]; [|done].
  injection Hres as <-. apply entryCheck_child in Hc as (m & Hm & Hden).
  exists k, m, r. done.
Qed.

Lemma CheckWritePermission_result currentDir w :
  (CheckWritePermission currentDir w).1
  = match (CreateTemp currentDir "test" w).1.2 with
    | Some _ => Some (noWritePermission currentDir)
    | None => None
    end.
Proof.
  unfold CheckWritePermission, bind.
  destruct (CreateTemp currentDir "test" w) as [[h [e|]] w1]; [done|].
  cbn [fst snd].
  destruct (Close h w1) as [[e|] w2].
  - destruct (log _ (Some e) w2) as [[] w3].
    destruct (Remove (Name h) w3) as [[e'|] w4]; [|done].
    by destruct (log _ (Some e') w4).
  - unfold ret at 1. destruct (Remove (Name h) w2) as [[e'|] w4]; [|done].
    by destruct (log _ (Some e') w4).
Qed.

(** X2. [CheckWritePermission] leaves the file system exactly as it found
    it, whether the probe succeeds or not: the temporary file is removed
    again.  When it returns [nil] the directory exists, is a directory and
    entries may be made in it; and whatever makes the probe fail, the error is
    the one "you don't have write permissions here" message. *)
Theorem CheckWritePermission_sound currentDir w :
  currentDir ≠ "" → plainDraws w →
  let run := CheckWritePermission currentDir w in
  fs run.2 = fs w
  ∧ (run.1 = None →
     ∃ k m, resolve w currentDir = Some k ∧ fs w !! k = Some (Dir m)
            ∧ k ∉ denied w)
  ∧ (∀ e, run.1 = Some e → e = noWritePermission currentDir).
Proof.
  intros Hd Hp. cbv zeta.
  split; [apply (Keeps_CheckWritePermission currentDir w)|].
  rewrite CheckWritePermission_result.
  destruct (CreateTemp currentDir "test" w) as [[h [e|]] w1] eqn:Hc; simpl.
  - split; [done|]. by intros e' [= <-].
  - split; [|done]. intros _.
    apply CreateTemp_inv in Hc as (k & m & r & ? & ? & ? & _); eauto.
Qed.

(** The probe in the fresh directory [/w]. *)
Lemma CheckWritePermission_sound_witness :
  let run := CheckWritePermission "/w" Examples.fresh in
  fs run.2 = fs Examples.fresh
  ∧ (run.1 = None →
     ∃ k m, resolve Examples.fresh "/w" = Some k
            ∧ fs Examples.fresh !! k = Some (Dir m)
            ∧ k ∉ denied Examples.fresh)
  ∧ (∀ e, run.1 = Some e → e = noWritePermission "/w").
Proof.
  apply (CheckWritePermission_sound "/w" Examples.fresh); [done|].
  repeat constructor.
Defined.

Lemma CheckWritePermission_inv currentDir w :
  currentDir ≠ "" → plainDraws w →
  (CheckWritePermission currentDir w).1 = None →
  ∃ k m, resolve w currentDir = Some k ∧ fs w !! k = Some (Dir m) ∧ k ∉ denied w.
Proof.
  intros Hd Hp. rewrite CheckWritePermission_result.
  destruct (CreateTemp currentDir "test" w) as [[h [e|]] w1] eqn:Hc; [done|].
  intros _. apply CreateTemp_inv in Hc as (k & m & r & ? & ? & ? & _); eauto.
Qed.

Lemma CheckWritePermission_writes currentDir w :
  writes (CheckWritePermission currentDir w).2 = writes w.
Proof.
  unfold CheckWritePermission, bind, CreateTemp.
  assert (∀ prefix pattern draws try w,
            writes (createTempLoop prefix pattern draws try w).2 = writes w) as Hloop.
  { clear. intros prefix pattern draws. induction draws as [|r rest IH]; intros try w; [done|].
    simpl. pose proof (OpenFile_writes (prefix +:+ r) tempFlag 0x180 (setTemps rest w)) as H.
    fold tempFlag.
    destruct (OpenFile _ _ _ _) as [[h [e|]] w1]; simpl in *; [|done].
    destruct e; try done. destruct e; try done.
    destruct (try + 1 <? 10000); [|done]. by rewrite IH. }
  specialize (Hloop (joinPath currentDir "test") "test" (temps w) 0 w).
  destruct (createTempLoop _ _ _ _ w) as [[h [e|]] w1]; [done|].
  cbn [fst snd] in *. rewrite <- Hloop.
  unfold Close, Remove, log, ret. repeat case_match; simplify_eq; done.
Qed.

Lemma CheckWritePermission_ok currentDir w k m r rest :
  currentDir ≠ "" →
  resolve w currentDir = Some k → fs w !! k = Some (Dir m) → k ∉ denied w →
  temps w = r :: rest → noSlash r = true →
  fs w !! (k ++ [("test" +:+ r)%string]) = None →
  let run := CheckWritePermission currentDir w in
  run.1 = None ∧ sameFiles w run.2 ∧ temps run.2 = rest.
Proof.
  intros Hd Hres Hk Hden Ht Hr Hfree. cbv zeta. unfold Path in *.
  split; [|split; [apply Keeps_CheckWritePermission|]].
  - rewrite CheckWritePermission_result.
    unfold CreateTemp. rewrite Ht. simpl. unfold OpenFile. fold tempFlag.
    rewrite openNode_temp.
    change (resolve (setTemps rest w) ?n) with (resolve w n).
    rewrite joinPath_app, resolve_joinPath, Hres; [|done|by apply simpleName_test].
    simpl. change (fs (setTemps rest w)) with (fs w). unfold Path in *. rewrite Hfree.
    change (entryCheck (setTemps rest w) ?n) with (entryCheck w n).
    rewrite (proj2 (entryCheck_child w k _)) by eauto. done.
  - unfold CheckWritePermission, bind, CreateTemp. rewrite Ht. simpl.
    unfold OpenFile. fold tempFlag. rewrite openNode_temp.
    change (resolve (setTemps rest w) ?n) with (resolve w n).
    rewrite joinPath_app, resolve_joinPath, Hres; [|done|by apply simpleName_test].
    simpl. change (fs (setTemps rest w)) with (fs w). unfold Path in *. rewrite Hfree.
    change (entryCheck (setTemps rest w) ?n) with (entryCheck w n).
    rewrite (proj2 (entryCheck_child w k _)) by eauto.
    cbn [fst snd]. unfold Close, Remove, log, ret.
    repeat case_match; simplify_eq; done.
Qed.

(** X3. For a path that is given, [GetJitRootDir] leaves the file system
    as it is; when it succeeds it returns the path as it was given (it is not
    made absolute) and the path names a directory in which entries may be
    made; when it fails it returns the empty string; and it succeeds on every
    such directory in which the first temporary name drawn is free. *)
Theorem GetJitRootDir_checks dirPath w :
  dirPath ≠ "" → plainDraws w →
  let run := GetJitRootDir dirPath w in
  fs run.2 = fs w
  ∧ (run.1.2 = None →
     run.1.1 = dirPath
     ∧ ∃ k m, resolve w dirPath = Some k ∧ fs w !! k = Some (Dir m)
              ∧ k ∉ denied w)
  ∧ (run.1.2 ≠ None → run.1.1 = "")
  ∧ (∀ k m r rest,
       resolve w dirPath = Some k → fs w !! k = Some (Dir m) → k ∉ denied w →
       temps w = r :: rest → fs w !! (k ++ [("test" +:+ r)%string]) = None →
       run.1 = (dirPath, None)).
Proof.
  intros Hd Hp. cbv zeta.
  split; [apply (Keeps_GetJitRootDir dirPath w)|].
  unfold GetJitRootDir, bind, ret.
  apply String.eqb_neq in Hd as Hd'. rewrite Hd'. simpl.
  destruct (ValidateDirPath dirPath w) as [[e|] w1] eqn:Hv.
  { repeat split; try done. intros k m r rest Hres Hk.
    by rewrite (ValidateDirPath_ok _ _ _ _ Hres Hk) in Hv. }
  apply ValidateDirPath_inv in Hv as (k & m & Hres & Hk & ->).
  set (w1 := emit _ w).
  assert (plainDraws w1) as Hp1 by done.
  pose proof (CheckWritePermission_inv dirPath w1 Hd Hp1) as Hok.
  pose proof (CheckWritePermission_ok dirPath w1) as Hcomp.
  destruct (CheckWritePermission dirPath w1) as [[e|] w2]; simpl in *.
  - repeat split; try done. intros k' m' r rest Hres' Hk' Hden Ht Hfree.
    rewrite Hres in Hres'. injection Hres' as <-.
    unfold plainDraws in Hp. rewrite Ht in Hp. apply Forall_cons in Hp as [Hr _].
    by destruct (Hcomp k m' r rest Hd Hres Hk' Hden Ht Hr Hfree) as [? _].
  - repeat split; try done. destruct (Hok eq_refl) as (k' & m' & ? & ? & ?). eauto.
Qed.

(** The fresh directory [/w]. *)
Lemma GetJitRootDir_checks_witness :
  let run := GetJitRootDir "/w" Examples.fresh in
  fs run.2 = fs Examples.fresh
  ∧ (run.1.2 = None →
     run.1.1 = "/w"
     ∧ ∃ k m, resolve Examples.fresh "/w" = Some k
              ∧ fs Examples.fresh !! k = Some (Dir m)
              ∧ k ∉ denied Examples.fresh)
  ∧ (run.1.2 ≠ None → run.1.1 = "")
  ∧ (∀ k m r rest,
       resolve Examples.fresh "/w" = Some k →
       fs Examples.fresh !! k = Some (Dir m) → k ∉ denied Examples.fresh →
       temps Examples.fresh = r :: rest →
       fs Examples.fresh !! (k ++ [("test" +:+ r)%string]) = None →
       run.1 = ("/w", None)).
Proof.
  apply (GetJitRootDir_checks "/w" Examples.fresh); [done|].
  repeat constructor.
Defined.

(** ** Nodes that last

    A node that exists stays: a directory and a link as they are, a file
    with its mode (its content may change). *)

Definition lasts (n n' : Node) : Prop :=
  match n with
  | File m _ => ∃ c, n' = File m c
  | _ => n' = n
  end.

Lemma lasts_refl n : lasts n n.
Proof. destruct n; simpl; eauto. Qed.

Lemma lasts_trans n1 n2 n3 : lasts n1 n2 → lasts n2 n3 → lasts n1 n3.
Proof.
  destruct n1; simpl.
  - intros [c ->]. done.
  - by intros ->.
  - by intros ->.
Qed.

Definition persists (w w' : World) : Prop :=
  ∀ k n, fs w !! k = Some n → ∃ n', fs w' !! k = Some n' ∧ lasts n n'.

Lemma persists_refl w : persists w w.
Proof. intros k n H. eauto using lasts_refl. Qed.

Lemma persists_trans w1 w2 w3 : persists w1 w2 → persists w2 w3 → persists w1 w3.
Proof.
  intros H1 H2 k n Hk. destruct (H1 k n Hk) as (n' & Hk' & L1).
  destruct (H2 k n' Hk') as (n'' & Hk'' & L2). eauto using lasts_trans.
Qed.

Lemma persists_sameFs w w' : fs w' = fs w → persists w w'.
Proof. intros Hf k n Hk. rewrite Hf. eauto using lasts_refl. Qed.

Lemma persists_insert w k n :
  (∀ n0, fs w !! k = Some n0 → lasts n0 n) →
  persists w (setFs (insert k n) w).
Proof.
  intros Hk k' n' Hn'. simpl.
  destruct (decide (k = k')) as [<-|Hne].
  - rewrite lookup_insert_eq. eauto.
  - rewrite lookup_insert_ne by done. eauto using lasts_refl.
Qed.

Definition Persists {A} (m : M A) : Prop := ∀ w, persists w (m w).2.

Lemma Persists_ret {A} (a : A) : Persists (ret a).
Proof. intros w. apply persists_refl. Qed.

Lemma Persists_bind {A B} (m : M A) (k : A → M B) :
  Persists m → (∀ a, Persists (k a)) → Persists (bind m k).
Proof.
  intros Hm Hk w. unfold bind. specialize (Hm w).
  destruct (m w) as [a w1]. eapply persists_trans; [exact Hm|apply Hk].
Qed.

Lemma Keeps_Persists {A} (m : M A) : Keeps m → Persists m.
Proof. intros H w. apply persists_sameFs, H. Qed.

Lemma Persists_log msg e : Persists (log msg e).
Proof. apply Keeps_Persists, Keeps_log. Qed.

Lemma Persists_stage s : Persists (stage s).
Proof. apply Keeps_Persists, Keeps_stage. Qed.

Lemma Persists_Close h : Persists (Close h).
Proof. apply Keeps_Persists, Keeps_Close. Qed.

Lemma persists_openNode name flag perm w : persists w (openNode name flag perm w).2.
Proof.
  unfold openNode.
  repeat case_match; simpl; try apply persists_refl;
    apply persists_insert; intros n0 Hn0; simplify_eq; simpl; eauto.
Qed.

Lemma Persists_OpenFile name flag perm : Persists (OpenFile name flag perm).
Proof.
  intros w. unfold OpenFile. pose proof (persists_openNode name flag perm w) as H.
  destruct (openNode name flag perm w) as [[h [e|]] w1]; exact H.
Qed.

Lemma Persists_Write h data : Persists (Write h data).
Proof.
  intros w. unfold Write, nextWrite. destruct h as [h|]; [|by apply persists_sameFs].
  destruct (writes w) as [|[] rest]; simpl;
    destruct (fs w !! hkey h) as [[m c| |]|] eqn:Hk; simpl;
    try (by apply persists_sameFs).
  - apply (persists_insert w). intros n0 Hn0. simplify_eq. simpl. eauto.
  - apply (persists_trans _ (mkWorld (fs w) (cwd w) (denied w) (linkPriv w) (temps w)
                               rest (events w))); [by apply persists_sameFs|].
    intros k n Hn. simpl in *.
    destruct (decide (hkey h = k)) as [<-|Hne].
    + rewrite lookup_insert_eq. simplify_eq. simpl. eauto.
    + rewrite lookup_insert_ne by done. eauto using lasts_refl.
Qed.

Lemma persists_mkdirNode k perm w : persists w (mkdirNode k perm w).2.
Proof.
  unfold mkdirNode. repeat case_match; simpl; try apply persists_refl.
  apply persists_insert. intros n0 Hn0. by simplify_eq.
Qed.

Lemma Persists_Mkdir name perm : Persists (Mkdir name perm).
Proof.
  intros w. unfold Mkdir. destruct (resolve w name) as [k|]; [|by apply persists_sameFs].
  pose proof (persists_mkdirNode k perm w) as H.
  destruct (mkdirNode k perm w) as [[e|] w1]; exact H.
Qed.

Lemma persists_mkdirAllRev rk perm w : persists w (mkdirAllRev rk perm w).2.
Proof.
  revert w. induction rk as [|c rp IH]; intros w; simpl.
  - repeat case_match; apply persists_refl.
  - destruct (fs w !! _) as [[]|]; simpl; try apply persists_refl.
    specialize (IH w). destruct (mkdirAllRev rp perm w) as [[e|] w1]; [done|].
    simpl in IH. eapply persists_trans; [exact IH|apply persists_mkdirNode].
Qed.

Lemma Persists_MkdirAll name perm : Persists (MkdirAll name perm).
Proof.
  intros w. unfold MkdirAll. destruct (resolve w name) as [k|]; [|by apply persists_sameFs].
  pose proof (persists_mkdirAllRev (rev k) perm w) as H.
  destruct (mkdirAllRev (rev k) perm w) as [[e|] w1]; exact H.
Qed.

Lemma Persists_Symlink old new : Persists (Symlink old new).
Proof.
  intros w. unfold Symlink. repeat case_match; simpl; try (by apply persists_sameFs).
  apply (persists_insert w). intros n0 Hn0. by simplify_eq.
Qed.

Lemma Persists_SetUpInitialBranch jitDir initialBranch :
  Persists (SetUpInitialBranch jitDir initialBranch).
Proof.
  unfold SetUpInitialBranch.
  apply Persists_bind; [apply Persists_OpenFile|]. intros [bf [e|]].
  { apply Persists_bind; [apply Persists_Close|]. intros _. apply Persists_ret. }
  apply Persists_bind; [apply Persists_OpenFile|]. intros [hf [e|]].
  { repeat (apply Persists_bind; [apply Persists_Close|]; intros _). apply Persists_ret. }
  apply Persists_bind; [apply Persists_Write|]. intros [n [e|]];
    repeat (apply Persists_bind; [apply Persists_Close|]; intros _); apply Persists_ret.
Qed.

Lemma Persists_createEntries wkDir entries : Persists (createEntries wkDir entries).
Proof.
  induction entries as [|[k v] rest IH]; simpl; [apply Persists_ret|].
  apply Persists_bind.
  - destruct (decide (v = util.DataFile)) as [Hv|Hv]; [|apply Persists_ret].
    apply Persists_bind; [apply Persists_OpenFile|]. intros [file [e|]].
    + apply Persists_bind; [apply Persists_log|]. intros _. apply Persists_ret.
    + apply Persists_bind; [apply Persists_Close|]. intros [e|]; [|apply Persists_ret].
      apply Persists_bind; [apply Persists_log|]. intros _. apply Persists_ret.
  - intros [|]; [apply Persists_ret|]. apply Persists_bind.
    + destruct (decide (v = util.Directory)) as [Hv|Hv]; [|apply Persists_ret].
      apply Persists_bind; [apply Persists_MkdirAll|]. intros [e|]; [|apply Persists_ret].
      apply Persists_bind; [apply Persists_log|]. intros _. apply Persists_ret.
    + intros [|]; [apply Persists_ret|apply IH].
Qed.

Lemma Persists_CreateJitDir range wkDir sepDir bare perm :
  Persists (CreateJitDir range wkDir sepDir bare perm).
Proof.
  unfold CreateJitDir. destruct (negb sepDir && negb bare).
  - apply Persists_bind; [apply Persists_Mkdir|]. intros [e|]; [apply Persists_ret|].
    apply Persists_bind; [apply Persists_createEntries|]. intros _. apply Persists_ret.
  - apply Persists_bind; [apply Persists_createEntries|]. intros _. apply Persists_ret.
Qed.

Lemma Persists_writeEntries f entries : Persists (writeEntries f entries).
Proof.
  induction entries as [|[k v] rest IH]; simpl; [apply Persists_ret|].
  apply Persists_bind; [apply Persists_Write|]. intros [n [e|]].
  - apply Persists_bind; [apply Persists_log|]. intros _. apply IH.
  - apply Persists_bind; [apply Persists_ret|]. intros _. apply IH.
Qed.

Lemma Persists_WriteToConfigFile range config jitDir :
  Persists (WriteToConfigFile range config jitDir).
Proof.
  unfold WriteToConfigFile.
  apply Persists_bind; [apply Persists_OpenFile|]. intros [f [e|]].
  - apply Persists_bind; [apply Persists_Close|]. intros _. apply Persists_ret.
  - apply Persists_bind; [apply Persists_writeEntries|]. intros _.
    apply Persists_bind; [apply Persists_Close|]. intros _. apply Persists_ret.
Qed.

Lemma Persists_pipeline range o dir : Persists (pipeline range o dir).
Proof.
  unfold pipeline.
  apply Persists_bind; [apply Persists_stage|]. intros _.
  apply Persists_bind.
  { unfold resolveSeparate. destruct (negb _); [|apply Persists_ret].
    apply Keeps_Persists, Keeps_GetJitRootDir. }
  intros [sepDir [e|]]; [apply Persists_ret|].
  apply Persists_bind; [apply Keeps_Persists, Keeps_GetJitRootDir|].
  intros [workingDir [e|]]; [apply Persists_ret|].
  apply Persists_bind.
  { unfold linkAndScaffold. destruct (negb _).
    - apply Persists_bind; [apply Persists_stage|]. intros _.
      apply Persists_bind; [apply Persists_Symlink|]. intros [e|]; [apply Persists_ret|].
      apply Persists_bind; [apply Persists_stage|]. intros _. apply Persists_CreateJitDir.
    - apply Persists_bind; [apply Persists_stage|]. intros _. apply Persists_CreateJitDir. }
  intros [ok [e|]]; [apply Persists_ret|].
  unfold finish.
  apply Persists_bind; [apply Persists_stage|]. intros _.
  apply Persists_bind; [apply Persists_WriteToConfigFile|]. intros [okw ew].
  apply Persists_bind; [destruct ew; [apply Persists_log|apply Persists_ret]|]. intros _.
  apply Persists_bind; [apply Persists_stage|]. intros _.
  apply Persists_bind; [apply Persists_SetUpInitialBranch|]. intros [oks [e|]].
  - apply Persists_bind; [apply Persists_log|]. intros _. apply Persists_ret.
  - apply Persists_bind; [|intros _; apply Persists_ret].
    destruct (negb _); [|apply Persists_ret].
    apply Persists_bind; [apply Keeps_Persists, Keeps_Abs|]. intros [dirAbs x].
    apply Persists_log.
Qed.

Lemma Grows_pipeline range o dir : Grows (pipeline range o dir).
Proof.
  unfold pipeline.
  apply Grows_bind; [apply Grows_stage|]. intros _.
  apply Grows_bind.
  { unfold resolveSeparate. destruct (negb _); [|apply Grows_ret].
    apply Keeps_Grows, Keeps_GetJitRootDir. }
  intros [sepDir [e|]]; [apply Grows_ret|].
  apply Grows_bind; [apply Keeps_Grows, Keeps_GetJitRootDir|].
  intros [workingDir [e|]]; [apply Grows_ret|].
  apply Grows_bind; [apply Grows_linkAndScaffold|].
  intros [ok [e|]]; [apply Grows_ret|apply Grows_finish].
Qed.

(** X4. An initialisation, whatever its options and its outcome, removes
    nothing: every node that was there is there afterwards, a directory and a
    link exactly as they were and a file with its mode (its content may have
    changed); the working directory and the restrictions of the platform are
    unchanged. *)
Theorem InitializeJitRepository_keeps_what_exists range options dir w :
  let w1 := (InitializeJitRepository range options dir w).2 in
  cwd w1 = cwd w ∧ denied w1 = denied w ∧ linkPriv w1 = linkPriv w
  ∧ ∀ k n, fs w !! k = Some n →
      match n with
      | File m _ => ∃ c, fs w1 !! k = Some (File m c)
      | _ => fs w1 !! k = Some n
      end.
Proof.
  cbv zeta. rewrite InitializeJitRepository_unfold.
  set (w0 := note (optionLogs options) w).
  pose proof (sameFiles_note (optionLogs options) w) as [Hf Hc Hd Hl].
  fold w0 in Hf, Hc, Hd, Hl.
  pose proof (Persists_pipeline range (readOptions options) dir w0) as HP.
  pose proof (Grows_pipeline range (readOptions options) dir w0) as [Gc Gd Gl _].
  repeat split; try congruence.
  intros k n Hk. rewrite <- Hf in Hk.
  destruct (HP k n Hk) as (n' & Hn' & L). rewrite Hn'.
  destruct n; simpl in L.
  - destruct L as [c ->]. eauto.
  - by rewrite L.
  - by rewrite L.
Qed.

(** ** Opening files, forwards *)

Lemma OpenFile_new name flag perm w (k : Path) :
  resolve w name = Some k → fs w !! k = None → has flag O_CREATE = true →
  entryCheck w k = None →
  OpenFile name flag perm w
  = ((Some (mkHandle name k flag), None),
     emit (EvCall (COpenFile name flag perm) None)
       (setFs (insert k (File (syscallMode perm) "")) w)).
Proof.
  intros Hr Hk Hc He. unfold OpenFile, openNode. by rewrite Hr, Hk, Hc, He.
Qed.

Lemma OpenFile_file name flag perm w (k : Path) m c :
  resolve w name = Some k → fs w !! k = Some (File m c) →
  has flag O_EXCL = false →
  (writeAccess flag || has flag O_TRUNC = false) ∨ k ∉ denied w →
  OpenFile name flag perm w
  = ((Some (mkHandle name k flag), None),
     emit (EvCall (COpenFile name flag perm) None)
       (if has flag O_TRUNC then setFs (insert k (File m "")) w else w)).
Proof.
  intros Hr Hk Hx Hd. unfold OpenFile, openNode. rewrite Hr, Hk, Hx, andb_false_r.
  assert ((writeAccess flag || has flag O_TRUNC) && bool_decide (k ∈ denied w) = false)
    as ->.
  { destruct Hd as [->|Hd]; [done|]. rewrite bool_decide_eq_false_2 by done.
    apply andb_false_r. }
  by destruct (has flag O_TRUNC).
Qed.

Lemma OpenFile_dir name flag perm w (k : Path) m :
  resolve w name = Some k → fs w !! k = Some (Dir m) →
  has flag O_CREATE = true → has flag O_EXCL = false →
  OpenFile name flag perm w
  = ((None, Some (PathError "open" name EISDIR)),
     emit (EvCall (COpenFile name flag perm) (Some EISDIR)) w).
Proof.
  intros Hr Hk Hc Hx. unfold OpenFile, openNode. by rewrite Hr, Hk, Hc, Hx.
Qed.

Lemma OpenFile_refused name flag perm w (k : Path) e :
  resolve w name = Some k → fs w !! k = None → has flag O_CREATE = true →
  entryCheck w k = Some e →
  OpenFile name flag perm w
  = ((None, Some (PathError "open" name e)),
     emit (EvCall (COpenFile name flag perm) (Some e)) w).
Proof.
  intros Hr Hk Hc He. unfold OpenFile, openNode. by rewrite Hr, Hk, Hc, He.
Qed.

(** A call changes the node of its own path only. *)
Lemma openNode_frame name flag perm w (k : Path) :
  resolve w name ≠ Some k →
  fs (openNode name flag perm w).2 !! k = fs w !! k.
Proof.
  intros Hne. unfold openNode. destruct (resolve w name) as [k'|]; [|done].
  assert (k' ≠ k) by congruence.
  repeat case_match; simpl; try done; by rewrite lookup_insert_ne.
Qed.

Lemma OpenFile_frame name flag perm w (k : Path) :
  resolve w name ≠ Some k →
  fs (OpenFile name flag perm w).2 !! k = fs w !! k.
Proof.
  intros Hne. unfold OpenFile.
  pose proof (openNode_frame name flag perm w k Hne) as H.
  by destruct (openNode name flag perm w) as [[h [e|]] w1].
Qed.

Lemma OpenFile_handle name flag perm w h w1 :
  OpenFile name flag perm w = ((Some h, None), w1) →
  hname h = name ∧ resolve w name = Some (hkey h).
Proof.
  unfold OpenFile.
  destruct (openNode name flag perm w) as [[h0 [e|]] w2] eqn:Hopen; [by intros [=]|].
  intros [= -> <-]. apply openNode_ok in Hopen as (k & n & Hr & [= ->] & _).
  done.
Qed.

Lemma Write_frame h data w (k : Path) :
  (∀ h', h = Some h' → hkey h' ≠ k) →
  fs (Write h data w).2 !! k = fs w !! k.
Proof.
  intros Hne. unfold Write, nextWrite. destruct h as [h|]; [|done].
  specialize (Hne h eq_refl).
  destruct (writes w) as [|[] rest]; simpl;
    destruct (fs w !! hkey h) as [[m c| |]|]; simpl; try done;
    by rewrite lookup_insert_ne.
Qed.

Lemma fs_Close h w : fs (Close h w).2 = fs w.
Proof. apply (Keeps_Close h w). Qed.

(** ** [SetUpInitialBranch] *)

(** X5. [SetUpInitialBranch] changes the nodes of two paths at most, the
    branch file and the head file: every other path holds afterwards what it
    held before, whether the call succeeds or fails. *)
Theorem SetUpInitialBranch_touches_two_paths jitDir initialBranch w (k : Path) :
  resolve w (filepath.Join [jitDir; util.BRANCHES; initialBranch]) ≠ Some k →
  resolve w (filepath.Join [jitDir; util.HEAD]) ≠ Some k →
  fs (SetUpInitialBranch jitDir initialBranch w).2 !! k = fs w !! k.
Proof.
  intros Hb Hh. unfold SetUpInitialBranch, bind, ret.
  pose proof (OpenFile_frame (filepath.Join [jitDir; util.BRANCHES; initialBranch])
                (N.lor O_APPEND O_CREATE) util.DefaultFilePerm w k Hb) as F1.
  pose proof (Grows_OpenFile (filepath.Join [jitDir; util.BRANCHES; initialBranch])
                (N.lor O_APPEND O_CREATE) util.DefaultFilePerm w) as G1.
  destruct (OpenFile _ _ _ w) as [[bf [e|]] wa]; simpl in F1, G1.
  { rewrite <- F1. destruct (Close bf wa) eqn:Hc. simpl.
    pose proof (fs_Close bf wa) as E. rewrite Hc in E. simpl in E. by rewrite E. }
  rewrite <- (resolve_grows _ _ _ G1) in Hh.
  pose proof (OpenFile_frame (filepath.Join [jitDir; util.HEAD])
                (N.lor O_RDWR (N.lor O_CREATE O_TRUNC)) util.DefaultFilePerm wa k Hh) as F2.
  destruct (OpenFile _ _ _ wa) as [[hf [e|]] wb] eqn:Ho; simpl in F2.
  { rewrite <- F1, <- F2.
    pose proof (fs_Close hf wb) as E1. destruct (Close hf wb) as [? wc]. simpl in E1.
    pose proof (fs_Close bf wc) as E2. destruct (Close bf wc) as [? wd]. simpl in *.
    by rewrite E2, E1. }
  assert (∀ h', hf = Some h' → hkey h' ≠ k) as Hkey.
  { intros h' ->. apply OpenFile_handle in Ho as [_ Hr]. congruence. }
  pose proof (Write_frame hf (Name bf) wb k Hkey) as F3.
  destruct (Write hf (Name bf) wb) as [[n [e|]] wc]; simpl in F3;
    rewrite <- F1, <- F2, <- F3;
    pose proof (fs_Close hf wc) as E1; destruct (Close hf wc) as [? wd]; simpl in E1;
    pose proof (fs_Close bf wd) as E2; destruct (Close bf wd) as [? we]; simpl in *;
    by rewrite E2, E1.
Qed.

(** The branch [main] under [/w]: [/home] is not touched. *)
Lemma SetUpInitialBranch_touches_two_paths_witness :
  fs (SetUpInitialBranch "/w" "main" Examples.occupied).2 !! ["home"]
  = fs Examples.occupied !! ["home"].
Proof.
  apply (SetUpInitialBranch_touches_two_paths "/w" "main" Examples.occupied ["home"]);
    vm_compute; intros H; discriminate H.
Defined.

Lemma Write_good h data w m c :
  nextGood (writes w) = true → fs w !! hkey h = Some (File m c) →
  (Write (Some h) data w).1 = (String.length data, None)
  ∧ fs (Write (Some h) data w).2 = <[hkey h := File m (written (hflag h) c data)]> (fs w)
  ∧ writes (Write (Some h) data w).2 = tail (writes w).
Proof.
  intros Hg Hk. unfold Write, nextWrite, nextGood in *.
  destruct (writes w) as [|[] rest] eqn:Ho; simpl in *; try done;
    rewrite Hk; simpl; repeat split; by rewrite ?Ho.
Qed.

Lemma Close_writes h w : writes (Close h w).2 = writes w.
Proof. unfold Close. by destruct h. Qed.

(** A run that opens both files and writes the head. *)
Lemma SetUpInitialBranch_run jitDir initialBranch w (kb kh : Path) mh ch :
  let branchPath := filepath.Join [jitDir; util.BRANCHES; initialBranch] in
  let fa := match fs w !! kb with
            | None => <[kb := File 0x1a4 ""]> (fs w)
            | Some _ => fs w
            end in
  resolve w branchPath = Some kb →
  resolve w (filepath.Join [jitDir; util.HEAD]) = Some kh →
  (fs w !! kb = None ∧ entryCheck w kb = None)
  ∨ (∃ mb cb, fs w !! kb = Some (File mb cb)) →
  fa !! kh = Some (File mh ch) → kh ∉ denied w →
  nextGood (writes w) = true →
  let run := SetUpInitialBranch jitDir initialBranch w in
  run.1 = (true, None)
  ∧ fs run.2 = <[kh := File mh branchPath]> fa
  ∧ sameFiles (setFs (λ _, fs run.2) w) run.2
  ∧ writes run.2 = tail (writes w).
Proof.
  intros branchPath fa Hrb Hrh Hb Hh Hden Hg. cbv zeta.
  unfold SetUpInitialBranch, bind, ret. fold branchPath.
  set (fb := N.lor O_APPEND O_CREATE). set (fh := N.lor O_RDWR (N.lor O_CREATE O_TRUNC)).
  assert (∃ wa, OpenFile branchPath fb util.DefaultFilePerm w
                = ((Some (mkHandle branchPath kb fb), None), wa)
                ∧ fs wa = fa ∧ sameFiles (setFs (λ _, fa) w) wa
                ∧ writes wa = writes w) as (wa & -> & Hfa & Sa & Wa).
  { destruct Hb as [[Hn Hc]|(mb & cb & Hf)].
    - rewrite (OpenFile_new _ _ _ _ kb) by done. eexists. split; [done|].
      subst fa. rewrite Hn. repeat split.
    - rewrite (OpenFile_file _ _ _ _ kb mb cb) by (done || by left).
      eexists. split; [done|]. subst fa. rewrite Hf. repeat split. }
  destruct Sa as [_ Sc Sd Sl]. simpl in Sc, Sd, Sl.
  assert (resolve wa (filepath.Join [jitDir; util.HEAD]) = Some kh) as Hrh'.
  { unfold resolve in *. by rewrite Sc. }
  rewrite <- Hfa in Hh.
  rewrite (OpenFile_file _ fh _ wa kh mh ch Hrh' Hh eq_refl) by (right; by rewrite Sd).
  change (has fh O_TRUNC) with true. cbv iota.
  set (wb := emit _ (setFs _ wa)).
  destruct (Write_good (mkHandle (filepath.Join [jitDir; util.HEAD]) kh fh)
              branchPath wb mh "") as (W1 & W2 & W3).
  { subst wb. simpl. by rewrite Wa. }
  { subst wb. simpl. apply lookup_insert_eq. }
  change (Name (Some (mkHandle branchPath kb fb))) with branchPath.
  destruct (Write _ branchPath wb) as [[n [e|]] wc] eqn:Hw; simpl in W1, W2, W3;
    [done|].
  pose proof (Keeps_Close (Some (mkHandle (filepath.Join [jitDir; util.HEAD]) kh fh)) wc) as K1.
  pose proof (Close_writes (Some (mkHandle (filepath.Join [jitDir; util.HEAD]) kh fh)) wc) as C1.
  destruct (Close _ wc) as [x wd]. simpl in K1, C1.
  pose proof (Keeps_Close (Some (mkHandle branchPath kb fb)) wd) as K2.
  pose proof (Close_writes (Some (mkHandle branchPath kb fb)) wd) as C2.
  destruct (Close _ wd) as [y we]. simpl in K2, C2. simpl.
  assert (fs we = <[kh:=File mh branchPath]> fa) as Hfe.
  { destruct K1 as [E1 _ _ _], K2 as [E2 _ _ _]. rewrite E2, E1, W2.
    subst wb. simpl. rewrite insert_insert_eq, Hfa.
    by rewrite written_fresh. }
  split; [done|]. split; [done|]. split.
  - pose proof (Grows_Write (Some (mkHandle (filepath.Join [jitDir; util.HEAD]) kh fh))
                  branchPath wb) as Gw. rewrite Hw in Gw. simpl in Gw.
    destruct Gw as [Gc Gd Gl _], K1 as [_ K1c K1d K1l], K2 as [_ K2c K2d K2l].
    subst wb. simpl in *. split; simpl; congruence.
  - rewrite C2, C1, W3. subst wb. simpl. by rewrite Wa.
Qed.

(** X6. [SetUpInitialBranch] can be repeated: after a call that
    succeeded, a second call for the same branch (whose write succeeds)
    succeeds too and leaves the file system as the first one left it: the
    branch file is opened without truncation and head is written again with
    the same path. *)
Theorem SetUpInitialBranch_again jitDir initialBranch w w1 :
  SetUpInitialBranch jitDir initialBranch w = ((true, None), w1) →
  (∀ kh, resolve w (filepath.Join [jitDir; util.HEAD]) = Some kh → kh ∉ denied w) →
  nextGood (writes w1) = true →
  let run := SetUpInitialBranch jitDir initialBranch w1 in
  run.1 = (true, None) ∧ fs run.2 = fs w1.
Proof.
  intros Hrun Hden Hg. cbv zeta.
  pose proof (Grows_SetUpInitialBranch jitDir initialBranch w) as G.
  rewrite Hrun in G. simpl in G.
  apply SetUpInitialBranch_ok in Hrun as (_ & kb & kh & mb & cb & mh & Rb & Rh & Fb & Fh).
  specialize (Hden kh Rh).
  rewrite <- (resolve_grows _ _ _ G) in Rb. rewrite <- (resolve_grows _ _ _ G) in Rh.
  destruct G as [_ Gd _ _]. rewrite <- Gd in Hden.
  destruct (SetUpInitialBranch_run jitDir initialBranch w1 kb kh mh
              (filepath.Join [jitDir; util.BRANCHES; initialBranch]))
    as (R1 & R2 & _); try done.
  - right. eauto.
  - by rewrite Fb.
  - split; [done|]. rewrite R2, Fb. by apply insert_id.
Qed.

(** Twice the branch [main] under [/w]. *)
Lemma SetUpInitialBranch_again_witness :
  let w1 := (SetUpInitialBranch "/w" "main" Examples.occupied).2 in
  let run := SetUpInitialBranch "/w" "main" w1 in
  run.1 = (true, None) ∧ fs run.2 = fs w1.
Proof.
  intros w1.
  apply (SetUpInitialBranch_again "/w" "main" Examples.occupied w1).
  - vm_compute. reflexivity.
  - intros kh _. vm_compute. intros H. discriminate H.
  - vm_compute. reflexivity.
Defined.

(** X7. Branch names are not checked.  A name whose branch path is a
    directory (the empty name gives the [branches] directory itself) makes
    the call fail with the "is a directory" error of [open]; a name under a
    directory that is not there (a name with a separator, such as
    [feature/x]) makes it fail with "no such file or directory"; in both
    cases nothing is created and head is not touched. *)
Theorem SetUpInitialBranch_unusable_name jitDir initialBranch w (k : Path) :
  let branchPath := filepath.Join [jitDir; util.BRANCHES; initialBranch] in
  let run := SetUpInitialBranch jitDir initialBranch w in
  resolve w branchPath = Some k →
  ((∃ m, fs w !! k = Some (Dir m)) →
   run.1 = (false, Some (PathError "open" branchPath EISDIR)) ∧ fs run.2 = fs w)
  ∧ (k ≠ [] → fs w !! k = None → fs w !! parent k = None →
     run.1 = (false, Some (PathError "open" branchPath ENOENT)) ∧ fs run.2 = fs w).
Proof.
  intros branchPath run Hr. subst run. unfold SetUpInitialBranch, bind, ret.
  fold branchPath. split.
  - intros [m Hk]. by rewrite (OpenFile_dir _ _ _ _ k m).
  - intros Hne Hk Hp.
    rewrite (OpenFile_refused _ _ _ _ k ENOENT); try done.
    unfold entryCheck. rewrite Hp. by destruct k.
Qed.

(** The empty name and the name [feature/x], where [/w/branches] is a
    directory. *)
Lemma SetUpInitialBranch_unusable_name_witness :
  (let run := SetUpInitialBranch "/w" "" Examples.occupied in
   run.1 = (false, Some (PathError "open" "/w/branches" EISDIR))
   ∧ fs run.2 = fs Examples.occupied)
  ∧ (let run := SetUpInitialBranch "/w" "feature/x" Examples.occupied in
     run.1 = (false, Some (PathError "open" "/w/branches/feature/x" ENOENT))
     ∧ fs run.2 = fs Examples.occupied).
Proof.
  split.
  - apply (proj1 (SetUpInitialBranch_unusable_name "/w" "" Examples.occupied
                    ["w"; "branches"] eq_refl)).
    exists 0x1ed. vm_compute. reflexivity.
  - apply (proj2 (SetUpInitialBranch_unusable_name "/w" "feature/x" Examples.occupied
                    ["w"; "branches"; "feature"; "x"] eq_refl)).
    + done.
    + vm_compute. reflexivity.
    + vm_compute. reflexivity.
Defined.

(** ** The layout *)

Definition createFlag : N := N.lor O_RDWR (N.lor O_CREATE O_TRUNC).

Lemma mkdirAllRev_there (k : Path) perm w m :
  fs w !! k = Some (Dir m) → mkdirAllRev (rev k) perm w = (None, w).
Proof.
  intros Hk. destruct (rev k) eqn:Hr; simpl; rewrite <- ?Hr, ?rev_involutive;
    unfold Path in *.
  - apply (f_equal (@rev string)) in Hr. rewrite rev_involutive in Hr. subst k.
    simpl in *. by rewrite Hk.
  - replace (rev l ++ [s]) with k.
    + by rewrite Hk.
    + apply (f_equal (@rev string)) in Hr. by rewrite rev_involutive in Hr.
Qed.

Lemma mkdirAllRev_child (root : Path) n perm w m0 :
  fs w !! root = Some (Dir m0) → root ∉ denied w → fs w !! (root ++ [n]) = None →
  mkdirAllRev (rev (root ++ [n])) perm w
  = (None, setFs (insert (root ++ [n]) (Dir (syscallMode perm))) w).
Proof.
  intros Hroot Hden Hk. rewrite rev_unit. cbn [mkdirAllRev].
  change (rev (n :: rev root)) with (rev (rev root) ++ [n]).
  rewrite rev_involutive. unfold Path in *. rewrite Hk.
  rewrite (mkdirAllRev_there root perm w m0 Hroot).
  unfold mkdirNode. unfold Path in *. rewrite Hk.
  rewrite (proj2 (entryCheck_child w root n)) by eauto. done.
Qed.

(** The node [CreateJitDir] leaves for an entry of kind [v], where [old]
    was: a file is emptied and keeps its mode, a directory is kept; a new file
    is made by [os.Create] (mode 0666), a new directory with
    [util.DefaultFilePerm]. *)
Definition laidOut (v : util.File) (old : option Node) : Node :=
  match v, old with
  | util.DataFile, Some (File m _) => File m ""
  | util.DataFile, _ => File 0x1b6 ""
  | util.Directory, Some (Dir m) => Dir m
  | util.Directory, _ => Dir util.DefaultFilePerm
  end.

(** An entry can be laid out when its name is free or taken by a node of
    its own kind (a file that may be written). *)
Definition usable (w : World) (root : Path) (n : string) (v : util.File) : Prop :=
  match v with
  | util.DataFile =>
      (fs w !! (root ++ [n]) = None
       ∨ ∃ m c, fs w !! (root ++ [n]) = Some (File m c))
      ∧ root ++ [n] ∉ denied w
  | util.Directory =>
      fs w !! (root ++ [n]) = None ∨ ∃ m, fs w !! (root ++ [n]) = Some (Dir m)
  end.

Lemma alike_refl w : alike w w.
Proof. by split. Qed.

Lemma alike_trans w1 w2 w3 : alike w1 w2 → alike w2 w3 → alike w1 w3.
Proof. intros [] []. split; congruence. Qed.

Lemma createEntries_cons rootName n v rest w (root : Path) m0 :
  rootName ≠ "" → simpleName n = true →
  resolve w rootName = Some root → fs w !! root = Some (Dir m0) → root ∉ denied w →
  usable w root n v →
  ∃ w', createEntries rootName ((n, v) :: rest) w = createEntries rootName rest w'
        ∧ alike (setFs (insert (root ++ [n]) (laidOut v (fs w !! (root ++ [n])))) w) w'.
Proof.
  intros Hname Hn Hres Hroot Hden Hu.
  assert (resolve w (filepath.Join [rootName; n]) = Some (root ++ [n])) as Hr.
  { by rewrite resolve_Join, Hres. }
  cbn [createEntries]. unfold bind. destruct v; simpl in Hu.
  - destruct Hu as [Hu Hd].
    rewrite decide_True by done. unfold Create. fold createFlag.
    destruct Hu as [Hfree|(m & c & Hfile)].
    + rewrite (OpenFile_new _ _ _ _ (root ++ [n])); try done;
        [|by apply entryCheck_child; eauto].
      cbn [fst snd]. unfold Close at 1. cbn [fst snd]. unfold ret at 1.
      rewrite decide_False by done. unfold ret at 1.
      eexists. split; [reflexivity|]. unfold Path in *. rewrite Hfree. by split.
    + rewrite (OpenFile_file _ _ _ _ (root ++ [n]) m c); try done; [|by right].
      change (has createFlag O_TRUNC) with true. cbv iota.
      cbn [fst snd]. unfold Close at 1. cbn [fst snd]. unfold ret at 1.
      rewrite decide_False by done. unfold ret at 1.
      eexists. split; [reflexivity|]. unfold Path in *. rewrite Hfile. by split.
  - rewrite decide_False by done. unfold ret at 1.
    rewrite decide_True by done. unfold MkdirAll. rewrite Hr.
    destruct Hu as [Hfree|(m & Hdir)].
    + rewrite (mkdirAllRev_child root n _ w m0) by done.
      unfold ret at 1.
      eexists. split; [reflexivity|]. unfold Path in *. rewrite Hfree. by split.
    + rewrite (mkdirAllRev_there (root ++ [n]) _ w m) by done.
      unfold ret at 1.
      eexists. split; [reflexivity|]. unfold Path in *. rewrite Hdir. split; try done.
      simpl. symmetry. by apply insert_id.
Qed.

(** The environment of a world: all of it but the files and the events. *)
Record sameEnv (w w' : World) : Prop := mkSameEnv {
  env_cwd : cwd w' = cwd w;
  env_denied : denied w' = denied w;
  env_linkPriv : linkPriv w' = linkPriv w;
  env_temps : temps w' = temps w;
  env_writes : writes w' = writes w
}.

Lemma sameEnv_refl w : sameEnv w w.
Proof. by split. Qed.

Lemma sameEnv_trans w1 w2 w3 : sameEnv w1 w2 → sameEnv w2 w3 → sameEnv w1 w3.
Proof. intros [] []. split; congruence. Qed.

Lemma alike_sameEnv w w' : alike w w' → sameEnv w w'.
Proof. intros []. by split. Qed.

Lemma resolve_sameEnv w w' name : sameEnv w w' → resolve w' name = resolve w name.
Proof. intros []. unfold resolve. by rewrite env_cwd0. Qed.

Lemma child_ne (root : Path) n : root ++ [n] ≠ root.
Proof.
  intros H. apply (f_equal length) in H. rewrite length_app in H. simpl in H. lia.
Qed.

Lemma child_inj (root : Path) n n' : root ++ [n] = root ++ [n'] → n = n'.
Proof. intros H. apply app_inv_head in H. by injection H. Qed.

Lemma createEntries_layout rootName entries w (root : Path) m0 :
  rootName ≠ "" →
  resolve w rootName = Some root → fs w !! root = Some (Dir m0) → root ∉ denied w →
  Forall (λ kv, simpleName kv.1 = true) entries →
  NoDup entries.*1 →
  (∀ n v, (n, v) ∈ entries → usable w root n v) →
  let w1 := (createEntries rootName entries w).2 in
  sameEnv w w1
  ∧ (∀ n v, (n, v) ∈ entries →
       fs w1 !! (root ++ [n]) = Some (laidOut v (fs w !! (root ++ [n]))))
  ∧ (∀ k : Path, (∀ n v, (n, v) ∈ entries → k ≠ root ++ [n]) →
       fs w1 !! k = fs w !! k).
Proof.
  intros Hname. revert w.
  induction entries as [|[n v] rest IH]; intros w Hres Hroot Hden Hs Hnd Hu; cbv zeta.
  { simpl. split; [apply sameEnv_refl|]. split; [|done].
    intros n v H. by apply elem_of_nil in H. }
  apply Forall_cons in Hs as [Hn Hs]. simpl in Hn.
  apply NoDup_cons in Hnd as [Hnotin Hnd].
  destruct (createEntries_cons rootName n v rest w root m0)
    as (w' & -> & A); try done.
  { apply Hu. left. }
  assert (sameEnv w w') as E by (destruct A; by split).
  destruct A as [Af _ _ _ _ _]. simpl in Af.
  assert (∀ n' v', (n', v') ∈ rest → n' ≠ n) as Hfresh.
  { intros n' v' Hin ->. apply Hnotin. apply list_elem_of_fmap.
    exists (n, v'). done. }
  destruct (IH w') as (E1 & L1 & F1); try done.
  { rewrite (resolve_sameEnv _ _ _ E). exact Hres. }
  { rewrite Af, lookup_insert_ne; [done|apply child_ne]. }
  { destruct E as [_ -> _ _ _]. exact Hden. }
  { intros n' v' Hin. specialize (Hu n' v' ltac:(by right)).
    assert (root ++ [n] ≠ root ++ [n']) as Hne.
    { intros Heq%child_inj. by eapply (Hfresh n' v'). }
    unfold usable in *. destruct E as [_ Ed _ _ _].
    rewrite Af, Ed, lookup_insert_ne by done. exact Hu. }
  split; [eapply sameEnv_trans; [exact E|exact E1]|]. split.
  - intros n' v' [[= -> ->]|Hin]%elem_of_cons.
    + rewrite F1.
      * rewrite Af. apply lookup_insert_eq.
      * intros n' v' Hin Heq%child_inj. by eapply (Hfresh n' v').
    + rewrite (L1 n' v' Hin), Af, lookup_insert_ne; [done|].
      intros Heq%child_inj. by eapply (Hfresh n' v').
  - intros k Hk. rewrite F1.
    + rewrite Af, lookup_insert_ne; [done|]. intros Heq. by eapply (Hk n v); [left|].
    + intros n' v' Hin. apply (Hk n' v'). by right.
Qed.

Definition layoutEntries : list (string * util.File) :=
  [ (util.MAIN, util.DataFile);
    (util.HEAD, util.DataFile);
    (util.STAGE, util.DataFile);
    (util.CONFIG, util.DataFile);
    (util.LOGS, util.Directory);
    (util.INFO, util.Directory);
    (util.BRANCHES, util.Directory);
    (util.SNAPSHOTS, util.Directory);
    (util.OBJECTS, util.Directory) ].

Lemma jitFileSystem_entries n v :
  jitFileSystem !! n = Some v ↔ (n, v) ∈ layoutEntries.
Proof.
  unfold jitFileSystem. fold layoutEntries. symmetry.
  apply elem_of_list_to_map. by apply (bool_decide_unpack _).
Qed.

Lemma jitFileSystem_simple n v : jitFileSystem !! n = Some v → simpleName n = true.
Proof.
  intros H%jitFileSystem_entries. unfold layoutEntries in H.
  repeat (apply elem_of_cons in H as [[= -> ->]|H]; [done|]).
  by apply elem_of_nil in H.
Qed.

Section Layout.

Variable range : ∀ V : Type, gmap string V → list (string * V).
Hypothesis range_layout : range _ jitFileSystem ≡ₚ map_to_list jitFileSystem.

Lemma range_layout_elem n v : (n, v) ∈ range _ jitFileSystem ↔ jitFileSystem !! n = Some v.
Proof. rewrite range_layout. apply elem_of_map_to_list. Qed.

Lemma range_layout_simple :
  Forall (λ kv, simpleName kv.1 = true) (range _ jitFileSystem).
Proof.
  apply Forall_forall. intros [n v] H%range_layout_elem. by eapply jitFileSystem_simple.
Qed.

Lemma range_layout_NoDup : NoDup (range _ jitFileSystem).*1.
Proof. rewrite range_layout. apply NoDup_fst_map_to_list. Qed.

End Layout.

Lemma Mkdir_new name perm w (k : Path) :
  resolve w name = Some k → fs w !! k = None → entryCheck w k = None →
  Mkdir name perm w
  = (None, emit (EvCall (CMkdir name perm) None)
             (setFs (insert k (Dir (syscallMode perm))) w)).
Proof.
  intros Hr Hk Hc. unfold Mkdir, mkdirNode. by rewrite Hr, Hk, Hc.
Qed.

(** The restrictions of the platform concern nodes that exist. *)
Definition deniedExist (w : World) : Prop :=
  ∀ k, k ∈ denied w → is_Some (fs w !! k).

(** The fresh world of the examples restricts nothing and holds no [.jit]. *)
Lemma fresh_denies_nothing (k : Path) : k ∉ denied Examples.fresh.
Proof. vm_compute. intros H. discriminate H. Qed.

Lemma fresh_deniedExist : deniedExist Examples.fresh.
Proof. intros k H. by destruct (fresh_denies_nothing k). Qed.

Lemma fresh_no_jit below :
  fs Examples.fresh !! (["w"] ++ util.JitDirName :: below) = None.
Proof.
  apply not_elem_of_list_to_map_1. simpl. intros H.
  repeat (apply elem_of_cons in H as [H|H]; [discriminate H|]).
  by apply elem_of_nil in H.
Qed.

Lemma home_no_jit below :
  fs Examples.fresh !! (["home"] ++ util.JitDirName :: below) = None.
Proof.
  apply not_elem_of_list_to_map_1. simpl. intros H.
  repeat (apply elem_of_cons in H as [H|H]; [discriminate H|]).
  by apply elem_of_nil in H.
Qed.

Lemma CreateJitDir_fresh
    (range : ∀ V : Type, gmap string V → list (string * V))
    wkDir perm w (kw : Path) m0 :
  range _ jitFileSystem ≡ₚ map_to_list jitFileSystem →
  wkDir ≠ "" → resolve w wkDir = Some kw →
  fs w !! kw = Some (Dir m0) → kw ∉ denied w → deniedExist w →
  (∀ below, fs w !! (kw ++ util.JitDirName :: below) = None) →
  let run := CreateJitDir range wkDir false false perm w in
  let jit := kw ++ [util.JitDirName] in
  run.1 = (true, None)
  ∧ sameEnv w run.2
  ∧ fs run.2 !! jit = Some (Dir (syscallMode (FileMode perm)))
  ∧ (∀ n, jitFileSystem !! n = Some util.DataFile →
       fs run.2 !! (jit ++ [n]) = Some (File 0x1b6 ""))
  ∧ (∀ n, jitFileSystem !! n = Some util.Directory →
       fs run.2 !! (jit ++ [n]) = Some (Dir util.DefaultFilePerm))
  ∧ (∀ k : Path, k ≠ jit → (∀ n, is_Some (jitFileSystem !! n) → k ≠ jit ++ [n]) →
       fs run.2 !! k = fs w !! k).
Proof.
  intros Hrange Hwk Hres Hkw Hden Hex Hfree. cbv zeta.
  assert (simpleName util.JitDirName = true) as Hjit by done.
  assert (resolve w (filepath.Join [wkDir; util.JitDirName])
          = Some (kw ++ [util.JitDirName])) as Hrj.
  { by rewrite resolve_Join, Hres. }
  unfold CreateJitDir, bind, ret. cbn [negb andb]. cbv beta.
  rewrite (Mkdir_new _ _ _ (kw ++ [util.JitDirName])); try done;
    [|apply entryCheck_child; eauto].
  set (w0 := emit _ (setFs _ w)).
  assert (∀ n, fs w !! ((kw ++ [util.JitDirName]) ++ [n]) = None) as Hfree'.
  { intros n. rewrite <- app_assoc. apply (Hfree [n]). }
  destruct (createEntries_layout (filepath.Join [wkDir; util.JitDirName])
              (range _ jitFileSystem) w0 (kw ++ [util.JitDirName])
              (syscallMode (FileMode perm))) as (E & L & F).
  { by apply Join_ne. }
  { exact Hrj. }
  { subst w0. simpl. apply lookup_insert_eq. }
  { subst w0. simpl. intros Hin. apply Hex in Hin as [x Hx].
    pose proof (Hfree []) as Hf0. unfold Path in *. simpl in Hf0, Hx. congruence. }
  { by apply range_layout_simple. }
  { by apply range_layout_NoDup. }
  { intros n v Hin. subst w0. unfold usable. simpl.
    rewrite lookup_insert_ne by (apply not_eq_sym, child_ne).
    rewrite Hfree'. destruct v; [split; [by left|]|by left].
    intros Hd. apply Hex in Hd as [x Hx]. by rewrite Hfree' in Hx. }
  destruct (createEntries _ _ w0) as [[] w1]. simpl in *.
  split; [done|]. split; [by destruct E|]. split; [|split; [|split]].
  - rewrite F.
    + subst w0. simpl. apply lookup_insert_eq.
    + intros n v _. apply not_eq_sym, child_ne.
  - intros n Hn. rewrite (L n util.DataFile) by (by apply range_layout_elem).
    subst w0. simpl. rewrite lookup_insert_ne by (apply not_eq_sym, child_ne).
    by rewrite Hfree'.
  - intros n Hn. rewrite (L n util.Directory) by (by apply range_layout_elem).
    subst w0. simpl. rewrite lookup_insert_ne by (apply not_eq_sym, child_ne).
    by rewrite Hfree'.
  - intros k Hk Hks. rewrite F.
    + subst w0. simpl. by rewrite lookup_insert_ne.
    + intros n v Hin%range_layout_elem; [|done]. apply Hks. eauto.
Qed.



(** X9. For a bare repository or a separate directory, [CreateJitDir]
    works in the directory itself.  Where every name of the layout is free or
    taken by a node of its own kind, it returns [(true, nil)] and every entry
    is laid out: a data file that was there is emptied (it keeps its mode), a
    directory that was there is kept, and no other path changes. *)
Theorem CreateJitDir_in_place
    (range : ∀ V : Type, gmap string V → list (string * V))
    wkDir sepDir bare perm w (kw : Path) m0 :
  range _ jitFileSystem ≡ₚ map_to_list jitFileSystem →
  sepDir || bare = true →
  wkDir ≠ "" → resolve w wkDir = Some kw →
  fs w !! kw = Some (Dir m0) → kw ∉ denied w →
  (∀ n v, jitFileSystem !! n = Some v → usable w kw n v) →
  let run := CreateJitDir range wkDir sepDir bare perm w in
  run.1 = (true, None)
  ∧ (∀ n v, jitFileSystem !! n = Some v →
       fs run.2 !! (kw ++ [n]) = Some (laidOut v (fs w !! (kw ++ [n]))))
  ∧ (∀ k : Path, (∀ n, is_Some (jitFileSystem !! n) → k ≠ kw ++ [n]) →
       fs run.2 !! k = fs w !! k).
Proof.
  intros Hrange Hmode Hwk Hres Hkw Hden Hu. cbv zeta.
  unfold CreateJitDir, bind, ret.
  assert (negb sepDir && negb bare = false) as -> by (by destruct sepDir, bare).
  destruct (createEntries_layout wkDir (range _ jitFileSystem) w kw m0)
    as (E & L & F); try done.
  { by apply range_layout_simple. }
  { by apply range_layout_NoDup. }
  { intros n v Hin%range_layout_elem; [|done]. by apply Hu. }
  destruct (createEntries _ _ w) as [[] w1]. simpl in *.
  split; [done|]. split.
  - intros n v Hn. apply L. by apply range_layout_elem.
  - intros k Hks. apply F. intros n v Hin%range_layout_elem; [|done].
    apply Hks. eauto.
Qed.

(** [/w] holds a config file with one line. *)
Definition stocked : World :=
  (WriteToConfigFile Examples.enumerate {["KEY" := "VALUE"]} "/w" Examples.fresh).2.

Lemma stocked_denies_nothing (k : Path) : k ∉ denied stocked.
Proof. vm_compute. intros H. discriminate H. Qed.

(** A bare repository in [/w], where [config] holds a line. *)
Lemma CreateJitDir_in_place_witness :
  let run := CreateJitDir Examples.enumerate "/w" false true 0x1ed stocked in
  fs stocked !! ["w"; "config"]
  = Some (File 0x1a4 ("KEY=VALUE" +:+ String "010" ""))
  ∧ run.1 = (true, None)
  ∧ (∀ n v, jitFileSystem !! n = Some v →
       fs run.2 !! (["w"] ++ [n]) = Some (laidOut v (fs stocked !! (["w"] ++ [n]))))
  ∧ (∀ k : Path, (∀ n, is_Some (jitFileSystem !! n) → k ≠ ["w"] ++ [n]) →
       fs run.2 !! k = fs stocked !! k).
Proof.
  split; [vm_compute; reflexivity|].
  apply (CreateJitDir_in_place Examples.enumerate "/w" false true 0x1ed stocked
           ["w"] 0x1ed).
  - apply merge_sort_Permutation.
  - reflexivity.
  - done.
  - vm_compute. reflexivity.
  - vm_compute. reflexivity.
  - apply stocked_denies_nothing.
  - intros n v H%jitFileSystem_entries. unfold layoutEntries in H.
    repeat (apply elem_of_cons in H as [[= -> ->]|H];
            [first [ split; [left; vm_compute; reflexivity|apply stocked_denies_nothing]
                   | split; [right; eexists _, _; vm_compute; reflexivity
                            |apply stocked_denies_nothing]
                   | left; vm_compute; reflexivity ]|]).
    by apply elem_of_nil in H.
Defined.

(** ** The stages, forwards *)

Lemma Write_writes h data w : writes (Write (Some h) data w).2 = tail (writes w).
Proof.
  unfold Write, nextWrite.
  destruct (writes w) as [|[] rest] eqn:Ho; simpl;
    destruct (fs w !! hkey h) as [[m c| |]|]; simpl; by rewrite ?Ho.
Qed.

Lemma writeEntries_writes h entries w :
  writes (writeEntries (Some h) entries w).2 = drop (length entries) (writes w).
Proof.
  revert w. induction entries as [|[k v] rest IH]; intros w; [done|].
  cbn [writeEntries]. unfold bind.
  pose proof (Write_writes h (k +:+ "=" +:+ v +:+ String "010" "") w) as Hw.
  destruct (Write _ _ w) as [[n [e|]] w1]; simpl in Hw.
  - unfold log at 1. cbn [fst snd]. rewrite IH. simpl. rewrite Hw.
    destruct (writes w); simpl; by rewrite ?drop_nil.
  - unfold ret at 1. rewrite IH, Hw.
    destruct (writes w); simpl; by rewrite ?drop_nil.
Qed.

Lemma writeEntries_env h entries w :
  let w1 := (writeEntries (Some h) entries w).2 in
  cwd w1 = cwd w ∧ denied w1 = denied w ∧ linkPriv w1 = linkPriv w.
Proof.
  pose proof (Grows_writeEntries (Some h) entries w) as [? ? ? _]. done.
Qed.

Lemma WriteToConfigFile_run range (config : gmap string string) jitDir w (kc : Path) m c :
  resolve w (filepath.Join [jitDir; util.CONFIG]) = Some kc →
  fs w !! kc = Some (File m c) →
  let run := WriteToConfigFile range config jitDir w in
  run.1 = (true, None)
  ∧ fs run.2 = <[kc := File m (c +:+ keptLines (writes w) (range _ config))]> (fs w)
  ∧ cwd run.2 = cwd w ∧ denied run.2 = denied w ∧ linkPriv run.2 = linkPriv w
  ∧ writes run.2 = drop (length (range _ config)) (writes w).
Proof.
  intros Hr Hk. cbv zeta. unfold WriteToConfigFile, bind, ret.
  rewrite (OpenFile_file _ (N.lor O_APPEND O_CREATE) _ _ kc m c Hr Hk eq_refl)
    by (by left).
  change (has (N.lor O_APPEND O_CREATE) O_TRUNC) with false. cbv iota.
  set (h := mkHandle _ kc _). set (w0 := emit _ w).
  destruct (writeEntries_spec h (range _ config) w0 m c Hk eq_refl) as [Hf _].
  pose proof (writeEntries_writes h (range _ config) w0) as Hw.
  pose proof (writeEntries_env h (range _ config) w0) as (Hc & Hd & Hl).
  destruct (writeEntries (Some h) (range _ config) w0) as [[] w1].
  simpl in *. unfold Close. simpl. done.
Qed.

Lemma Forall_true_drop n (l : list bool) : Forall (eq true) l → Forall (eq true) (drop n l).
Proof. apply Forall_drop. Qed.

Lemma nextGood_all l : Forall (eq true) l → nextGood l = true.
Proof. unfold nextGood. by destruct 1. Qed.

Lemma GetJitRootDir_writes dirPath w : writes (GetJitRootDir dirPath w).2 = writes w.
Proof.
  unfold GetJitRootDir, bind, ret. destruct (negb _).
  - unfold ValidateDirPath, bind, ret, Stat.
    destruct (resolve w dirPath ≫= _) as [n|]; simpl; [|done].
    destruct (negb (isDirNode n)); simpl; [done|].
    pose proof (CheckWritePermission_writes dirPath
                  (emit (EvCall (CStat dirPath) None) w)) as H.
    by destruct (CheckWritePermission _ _) as [[e|] w1].
  - unfold Getwd. by destruct (cwd w).
Qed.

(** The resolution of the working directory, seen from a world that
    differs in its events only. *)
Lemma GetJitRootDir_resolved dir w w' :
  alike w w' → (GetJitRootDir dir w).1.2 = None →
  ∃ w3, GetJitRootDir dir w' = ((workingDirOf w dir, None), w3)
        ∧ sameFiles w w3 ∧ writes w3 = writes w.
Proof.
  intros A Hok. destruct (Blind_GetJitRootDir dir w w' A) as [Hr _].
  pose proof (Keeps_GetJitRootDir dir w') as K.
  pose proof (GetJitRootDir_writes dir w') as Hw.
  destruct (GetJitRootDir dir w') as [[d e] w3] eqn:Hrun. simpl in *.
  destruct (GetJitRootDir dir w) as [[d0 e0] w3'] eqn:Hrun0. simpl in *.
  injection Hr as -> ->. subst e0.
  apply GetJitRootDir_value in Hrun0 as ->.
  exists w3. split; [done|]. destruct A, K. split; [split|]; congruence.
Qed.



(** ** A first initialisation *)

Lemma linkAndScaffold_plain range o workingDir w :
  separateJitDir o = "" →
  linkAndScaffold range o "" workingDir w
  = CreateJitDir range workingDir false (bare o) (filePermissionOf o)
      (emit (EvStage SCAFFOLD) w).
Proof. intros Hs. unfold linkAndScaffold. by rewrite Hs. Qed.

Lemma pipeline_plain range o dir w w3 :
  separateJitDir o = "" →
  GetJitRootDir dir (emit (EvStage RESOLVE_DIRS) w) = ((workingDirOf w dir, None), w3) →
  pipeline range o dir w
  = (let* (_, scaffoldErr) :=
       CreateJitDir range (workingDirOf w dir) false (bare o) (filePermissionOf o) in
     match scaffoldErr with
     | Some e => ret (false, Some e)
     | None =>
         finish range o (ConstructFinalJitDir (workingDirOf w dir) "" (bare o))
           (workingDirOf w dir)
     end) (emit (EvStage SCAFFOLD) w3).
Proof.
  intros Hs Hg. unfold pipeline, bind, stage, resolveSeparate. rewrite Hs.
  simpl. unfold ret at 1. rewrite Hg.
  by rewrite linkAndScaffold_plain.
Qed.

Section FirstInitialisation.

Variable range : ∀ V : Type, gmap string V → list (string * V).
Hypothesis range_enumerates : ∀ V (m : gmap string V), range V m ≡ₚ map_to_list m.

Variables (options : gmap string any) (dir : string) (w : World).
Variables (k : Path) (m0 : N).

Let o := readOptions options.
Let wd := workingDirOf w dir.
Let jit : Path := k ++ [util.JitDirName].
Let jitDir := filepath.Join [wd; util.JitDirName].
Let branchPath := filepath.Join [jitDir; util.BRANCHES; initialBranch o].

Hypothesis plain_mode : bare o = false ∧ separateJitDir o = "".
Hypothesis branch_simple : simpleName (initialBranch o) = true.
Hypothesis resolves : (GetJitRootDir dir w).1.2 = None.
Hypothesis wd_named : wd ≠ "".
Hypothesis wd_there : resolve w wd = Some k ∧ fs w !! k = Some (Dir m0).
Hypothesis wd_writable : k ∉ denied w.
Hypothesis denied_exist : deniedExist w.
Hypothesis nothing_below : ∀ below, fs w !! (k ++ util.JitDirName :: below) = None.
Hypothesis writes_succeed : Forall (eq true) (writes w).

Lemma first_initialisation :
  let run := InitializeJitRepository range options dir w in
  run.1 = (true, None)
  ∧ fs run.2 !! jit = Some (Dir (syscallMode (FileMode (filePermissionOf o))))
  ∧ (∀ n, jitFileSystem !! n = Some util.Directory →
       fs run.2 !! (jit ++ [n]) = Some (Dir util.DefaultFilePerm))
  ∧ fs run.2 !! (jit ++ [util.MAIN]) = Some (File 0x1b6 "")
  ∧ fs run.2 !! (jit ++ [util.STAGE]) = Some (File 0x1b6 "")
  ∧ fs run.2 !! (jit ++ [util.CONFIG])
    = Some (File 0x1b6 (allLines (range _ (configOf o))))
  ∧ fs run.2 !! (jit ++ [util.HEAD]) = Some (File 0x1b6 branchPath)
  ∧ fs run.2 !! (jit ++ [util.BRANCHES; initialBranch o])
    = Some (File util.DefaultFilePerm "")
  ∧ (∀ p : Path,
       p ≠ jit → p ≠ jit ++ [util.BRANCHES; initialBranch o] →
       (∀ n, is_Some (jitFileSystem !! n) → p ≠ jit ++ [n]) →
       fs run.2 !! p = fs w !! p).
Proof.
  destruct plain_mode as [Hbare Hsep]. destruct wd_there as [Hres Hk].
  cbv zeta.
  destruct (InitializeJitRepository range options dir w) as [r wz] eqn:Hrun.
  cbn [fst snd]. rewrite InitializeJitRepository_unfold in Hrun. fold o in Hrun.
  set (w0 := note (optionLogs options) w) in Hrun.
  assert (alike w (emit (EvStage RESOLVE_DIRS) w0)) as A.
  { pose proof (alike_note (optionLogs options) w) as []. by split. }
  destruct (GetJitRootDir_resolved dir w _ A resolves) as (w3 & Hg & K3 & W3).
  fold wd in Hg.
  assert (workingDirOf w0 dir = wd) as Hwd.
  { unfold wd, workingDirOf. destruct A as [_ Hc _ _ _ _]. simpl in Hc.
    by rewrite Hc. }
  rewrite (pipeline_plain range o dir w0 w3 Hsep) in Hrun; [|rewrite Hwd; exact Hg].
  rewrite Hwd, Hbare in Hrun. unfold bind in Hrun.
  set (w4 := emit (EvStage SCAFFOLD) w3) in Hrun.
  assert (sameFiles w w4) as K4 by (destruct K3; by split).
  assert (writes w4 = writes w) as W4 by done.
  clearbody w4. destruct K4 as [Kf Kc Kd Kl].
  (* the scaffold *)
  destruct (CreateJitDir_fresh range wd (filePermissionOf o) w4 k m0)
    as (C1 & CE & C2 & C3 & C4 & C5).
  { apply range_enumerates. }
  { done. }
  { unfold resolve in *. by rewrite Kc. }
  { by rewrite Kf. }
  { by rewrite Kd. }
  { intros p Hp. rewrite Kf. rewrite Kd in Hp. by apply denied_exist. }
  { intros below. rewrite Kf. apply nothing_below. }
  fold jit in C2, C3, C4, C5.
  destruct (CreateJitDir range wd false false (filePermissionOf o) w4)
    as [[ok e] w5]. cbn [fst snd] in C1, CE, C2, C3, C4, C5.
  injection C1 as -> ->. destruct CE as [Ec Ed El Et Ew].
  change (ConstructFinalJitDir wd "" false) with jitDir in Hrun.
  (* the configuration *)
  unfold finish, bind, stage in Hrun.
  set (w6 := emit (EvStage WRITE_CONFIG) w5) in Hrun.
  assert (alike w5 w6) as A6 by done. clearbody w6.
  destruct A6 as [A6f A6c A6d A6l A6t A6w].
  assert (∀ name, resolve w6 name = resolve w name) as R6.
  { intros name. unfold resolve. by rewrite A6c, Ec, Kc. }
  assert (jitDir ≠ "") as Hjd by (by apply Join_ne).
  assert (resolve w jitDir = Some jit) as Rj.
  { unfold jitDir. by rewrite resolve_Join, Hres. }
  destruct (WriteToConfigFile_run range (configOf o) jitDir w6 (jit ++ [util.CONFIG])
              0x1b6 "") as (F1 & F2 & F3 & F4 & F5 & F6).
  { by rewrite R6, resolve_Join, Rj. }
  { rewrite A6f. by apply C3. }
  assert (writes w6 = writes w) as W6 by (by rewrite A6w, Ew).
  rewrite W6 in F2, F6. rewrite keptLines_all in F2 by done.
  destruct (WriteToConfigFile range (configOf o) jitDir w6) as [[okw ew] w7].
  cbn [fst snd] in F1, F2, F3, F4, F5, F6. injection F1 as -> ->.
  unfold ret at 1 in Hrun. rewrite A6f in F2.
  (* the branch *)
  set (w8 := emit (EvStage SET_BRANCH) w7) in Hrun.
  assert (alike w7 w8) as A8 by done. clearbody w8.
  destruct A8 as [A8f A8c A8d A8l A8t A8w].
  assert (denied w8 = denied w) as D8 by (by rewrite A8d, F4, A6d, Ed, Kd).
  assert (∀ name, resolve w8 name = resolve w name) as R8.
  { intros name. rewrite <- R6. unfold resolve. by rewrite A8c, F3. }
  assert (∀ p, p ∈ denied w → ∀ below, p ≠ k ++ util.JitDirName :: below) as Hnd.
  { intros p Hp below ->. apply denied_exist in Hp as [x Hx].
    by rewrite nothing_below in Hx. }
  set (kb := jit ++ [util.BRANCHES; initialBranch o]).
  set (kh := jit ++ [util.HEAD]).
  assert (∀ n, n ≠ util.HEAD → kh ≠ jit ++ [n]) as Nh.
  { intros n Hn H. apply app_inv_head in H. congruence. }
  assert (∀ n, kb ≠ jit ++ [n]) as Nb.
  { intros n H. apply app_inv_head in H. done. }
  assert (∀ n, n ≠ util.CONFIG → jit ++ [util.CONFIG] ≠ jit ++ [n]) as Nc.
  { intros n Hn H. apply app_inv_head in H. congruence. }
  assert (kb ≠ jit) as Nbj.
  { unfold kb. intros H. apply (f_equal length) in H.
    rewrite length_app in H. simpl in H. lia. }
  assert (fs w8 !! kb = None) as Hkb.
  { rewrite A8f, F2, lookup_insert_ne by (apply not_eq_sym, Nb).
    rewrite C5; [|done|intros n _; apply Nb].
    rewrite Kf. unfold kb, jit. rewrite <- app_assoc. apply nothing_below. }
  destruct (SetUpInitialBranch_run jitDir (initialBranch o) w8 kb kh 0x1b6 "")
    as (S1 & S2 & S3 & S4).
  { rewrite R8. unfold jitDir.
    rewrite resolve_Join3; [|by apply Join_ne|done|done].
    fold jitDir. by rewrite Rj. }
  { by rewrite R8, resolve_Join, Rj. }
  { left. split; [done|]. unfold kb.
    replace (jit ++ [util.BRANCHES; initialBranch o])
      with ((jit ++ [util.BRANCHES]) ++ [initialBranch o])
      by (by rewrite <- app_assoc).
    apply entryCheck_child. exists util.DefaultFilePerm. split.
    - rewrite A8f, F2, lookup_insert_ne by (by apply Nc). by apply C4.
    - rewrite D8. intros Hin. eapply (Hnd _ Hin [util.BRANCHES]).
      unfold jit. by rewrite <- app_assoc. }
  { unfold Path in *. rewrite Hkb. rewrite lookup_insert_ne by apply (Nb util.HEAD).
    rewrite A8f, F2, lookup_insert_ne by (apply not_eq_sym; by apply Nh).
    by apply C3. }
  { rewrite D8. intros Hin. eapply (Hnd _ Hin [util.HEAD]).
    unfold kh, jit. by rewrite <- app_assoc. }
  { apply nextGood_all. rewrite A8w, F6. by apply Forall_true_drop. }
  unfold Path in *. rewrite Hkb in S2. fold branchPath in S2. rewrite A8f, F2 in S2.
  destruct (SetUpInitialBranch jitDir (initialBranch o) w8) as [[oks es] w9].
  cbn [fst snd] in S1, S2, S3, S4. injection S1 as -> ->.
  (* the end *)
  assert (r = (true, None) ∧ fs wz = fs w9) as [-> Hz].
  { revert Hrun. unfold ret. destruct (negb (quiet o)).
    - unfold bind. pose proof (Keeps_Abs wd w9) as [Ka _ _ _].
      destruct (Abs wd w9) as [[dirAbs x] wa]. simpl in Ka.
      unfold log. by intros [= <- <-].
    - by intros [= <- <-]. }
  rewrite Hz, S2.
  split; [done|]. repeat split.
  - rewrite !lookup_insert_ne; [done| | |].
    + apply child_ne.
    + done.
    + apply child_ne.
  - intros n Hn. rewrite !lookup_insert_ne; [by apply C4| | |].
    + apply Nc. intros ->. done.
    + apply Nb.
    + apply Nh. intros ->. done.
  - rewrite !lookup_insert_ne; [by apply C3| | |].
    + by apply Nc.
    + apply Nb.
    + by apply Nh.
  - rewrite !lookup_insert_ne; [by apply C3| | |].
    + by apply Nc.
    + apply Nb.
    + by apply Nh.
  - rewrite lookup_insert_ne by (by apply Nh).
    rewrite lookup_insert_ne by apply Nb.
    by rewrite lookup_insert_eq.
  - by rewrite lookup_insert_eq.
  - rewrite lookup_insert_ne by (apply not_eq_sym, Nb).
    by rewrite lookup_insert_eq.
  - intros p P1 P2 P3.
    rewrite !lookup_insert_ne.
    + rewrite C5; [by rewrite Kf|done|done].
    + apply not_eq_sym, P3. done.
    + by apply not_eq_sym.
    + apply not_eq_sym, P3. done.
Qed.

End FirstInitialisation.



(** ** Directories that do not resolve *)

Lemma GetJitRootDir_seen dir w w' :
  alike w w' →
  (GetJitRootDir dir w').1 = (GetJitRootDir dir w).1
  ∧ alike (GetJitRootDir dir w).2 (GetJitRootDir dir w').2
  ∧ fs (GetJitRootDir dir w').2 = fs w.
Proof.
  intros A. destruct (Blind_GetJitRootDir dir w w' A) as [Hr Ha].
  split; [done|]. split; [done|].
  pose proof (Keeps_GetJitRootDir dir w') as [Kf _ _ _]. rewrite Kf. by destruct A.
Qed.

(** X12. When the first directory looked at does not resolve (the
    separate directory when one is given, else the working directory),
    [InitializeJitRepository] returns [false] with the error of
    [GetJitRootDir] as it is, and the file system is unchanged. *)
Theorem InitializeJitRepository_unresolved range options dir w e :
  let o := readOptions options in
  let run := InitializeJitRepository range options dir w in
  (GetJitRootDir (if String.eqb (separateJitDir o) "" then dir else separateJitDir o) w).1.2
  = Some e →
  run.1 = (false, Some e) ∧ fs run.2 = fs w.
Proof.
  intros o run. subst run. rewrite InitializeJitRepository_unfold. fold o.
  set (w0 := note (optionLogs options) w).
  assert (alike w (emit (EvStage RESOLVE_DIRS) w0)) as A.
  { pose proof (alike_note (optionLogs options) w) as []. by split. }
  unfold pipeline, bind, stage, resolveSeparate.
  set (sep := separateJitDir o). clearbody sep.
  destruct (String.eqb sep "") eqn:Hs; cbn [negb]; intros He.
  - unfold ret.
    destruct (GetJitRootDir_seen dir w _ A) as (Hr & _ & Hf).
    destruct (GetJitRootDir dir (emit _ w0)) as [[d e'] w3].
    destruct (GetJitRootDir dir w) as [[d0 e0] w3']. cbn [fst snd] in *.
    subst e0. injection Hr as -> ->. done.
  - destruct (GetJitRootDir_seen sep w _ A) as (Hr & _ & Hf).
    destruct (GetJitRootDir sep (emit _ w0)) as [[d e'] w3].
    destruct (GetJitRootDir sep w) as [[d0 e0] w3']. cbn [fst snd] in *.
    subst e0. injection Hr as -> ->. done.
Qed.

(** A working directory that is not there. *)
Lemma InitializeJitRepository_unresolved_witness :
  let run :=
    InitializeJitRepository Examples.enumerate
      (Examples.options true false "" "main" "0755") "/nowhere" Examples.fresh in
  run.1 = (false, Some (PathError "stat" "/nowhere" ENOENT))
  ∧ fs run.2 = fs Examples.fresh.
Proof.
  apply (InitializeJitRepository_unresolved Examples.enumerate
           (Examples.options true false "" "main" "0755") "/nowhere" Examples.fresh).
  vm_compute. reflexivity.
Defined.

(** ** A separate directory *)

Lemma Symlink_fails old new w :
  linkPriv w = false ∨ (∃ k, resolve w new = Some k ∧ is_Some (fs w !! k)) →
  ∃ e, Symlink old new w
       = (Some (LinkError "symlink" old new e),
          emit (EvCall (CSymlink old new) (Some e)) w).
Proof.
  intros H. unfold Symlink. destruct (linkPriv w); simpl.
  - destruct H as [|(k & -> & [n ->])]; [done|]. eauto.
  - eauto.
Qed.

(** X13. With a separate directory, whenever the symbolic link cannot be
    made (the process lacks the privilege, or the working directory has a
    [.jit] entry already, as after a first initialisation),
    [InitializeJitRepository] returns the "start the terminal in
    administrative mode" error, whatever the cause, and the file system is
    unchanged: nothing is laid out in the separate directory. *)
Theorem separate_directory_link_refused range options dir w :
  let o := readOptions options in
  let run := InitializeJitRepository range options dir w in
  let resolved := GetJitRootDir (separateJitDir o) w in
  separateJitDir o ≠ "" →
  resolved.1.2 = None →
  (GetJitRootDir dir resolved.2).1.2 = None →
  linkPriv w = false
  ∨ (∃ k, resolve w (filepath.Join [workingDirOf w dir; util.JitDirName]) = Some k
          ∧ is_Some (fs w !! k)) →
  run.1 = (false, Some SymlinkError) ∧ fs run.2 = fs w.
Proof.
  intros o run resolved. subst run resolved.
  rewrite InitializeJitRepository_unfold. fold o.
  set (w0 := note (optionLogs options) w).
  assert (alike w (emit (EvStage RESOLVE_DIRS) w0)) as A.
  { pose proof (alike_note (optionLogs options) w) as []. by split. }
  unfold pipeline, bind, stage, resolveSeparate, linkAndScaffold.
  set (sep := separateJitDir o). clearbody sep.
  intros Hs H1 H2 Hl.
  apply String.eqb_neq in Hs as Hs'. rewrite Hs'. cbn [negb].
  destruct (GetJitRootDir_seen sep w _ A) as (Hr & A2 & Hf).
  pose proof (Keeps_GetJitRootDir sep w) as K1.
  destruct (GetJitRootDir sep w) as [[d0 e0] w2'] eqn:G1.
  destruct (GetJitRootDir sep (emit _ w0)) as [[d e'] w2].
  cbn [fst snd] in *. subst e0. injection Hr as -> ->.
  destruct (GetJitRootDir_seen dir w2' w2 A2) as (Hr & A3 & Hf3).
  pose proof (GetJitRootDir_value dir w2') as Hv.
  pose proof (Keeps_GetJitRootDir dir w2') as K2.
  destruct (GetJitRootDir dir w2') as [[d1 e1] w3'] eqn:G2.
  destruct (GetJitRootDir dir w2) as [[d2 e2] w3].
  cbn [fst snd] in *. subst e1. injection Hr as -> ->.
  specialize (Hv _ _ eq_refl). subst d1.
  assert (sameFiles w w3) as K3.
  { destruct K1, K2, A3. split; congruence. }
  assert (workingDirOf w2' dir = workingDirOf w dir) as Hwd.
  { unfold workingDirOf. by destruct K1 as [_ -> _ _]. }
  rewrite Hwd in *.
  set (w4 := emit (EvStage LINK_IF_SEPARATE) w3).
  destruct (Symlink_fails d0 (filepath.Join [workingDirOf w dir; util.JitDirName]) w4)
    as [e He].
  { destruct K3 as [Kf Kc _ Kl]. destruct Hl as [Hl|(k & Hk & Hn)].
    - left. simpl. congruence.
    - right. exists k. split.
      + unfold resolve in *. simpl. by rewrite Kc.
      + simpl. by rewrite Kf. }
  unfold bind, stage. fold w4. rewrite He. unfold ret. cbn [fst snd].
  split; [done|]. by destruct K3.
Qed.

(** [/w] holds an entry [.jit] already. *)
Definition linked : World :=
  Examples.worldOf [[]; ["home"]; ["w"]; ["w"; ".jit"]] [] ["1"; "2"].

(** The separate directory [/home] for a working directory [/w] that has
    a [.jit] entry: the process has the privilege, and is told it lacks it. *)
Lemma separate_directory_link_refused_witness :
  let run :=
    InitializeJitRepository Examples.enumerate
      (Examples.options true false "/home" "main" "0755") "/w" linked in
  run.1 = (false, Some SymlinkError) ∧ fs run.2 = fs linked.
Proof.
  apply (separate_directory_link_refused Examples.enumerate
           (Examples.options true false "/home" "main" "0755") "/w" linked).
  - vm_compute. intros H. discriminate H.
  - vm_compute. reflexivity.
  - vm_compute. reflexivity.
  - right. exists ["w"; ".jit"]. split; [vm_compute; reflexivity|].
    exists (Dir 0x1ed). vm_compute. reflexivity.
Defined.

(** ** The mode of the metadata directory *)

Lemma land_pow2_small i n m : i < 2 ^ n → n <= m → N.land i (2 ^ m) = 0.
Proof.
  intros Hi Hnm. apply N.bits_inj. intros j.
  rewrite N.land_spec, N.pow2_bits_eqb, N.bits_0.
  destruct (N.eqb_spec m j) as [<-|_]; [|apply andb_false_r].
  rewrite andb_true_r. rewrite <- (N.mod_small i (2 ^ m)).
  - by apply N.mod_pow2_bits_high.
  - eapply N.lt_le_trans; [exact Hi|]. by apply N.pow_le_mono_r.
Qed.

Lemma syscallMode_small perm :
  perm < 2 ^ 20 → syscallMode (FileMode perm) = N.land perm 0x1ff.
Proof.
  intros Hp. unfold FileMode. rewrite N.mod_small by (eapply N.lt_trans; [exact Hp|done]).
  unfold syscallMode, has, ModeSetuid, ModeSetgid, ModeSticky.
  rewrite !(land_pow2_small perm 20) by (done || lia).
  simpl. by rewrite !N.lor_0_r.
Qed.

(** X14. The mode of [.jit] is the permission passed through
    [os.FileMode] and the mode conversion of [os.Mkdir]; for a value below
    2^20 these are its nine low bits: the digits of an octal mode above 0777
    (the 4 of 4755) are dropped. *)
Theorem CreateJitDir_mode_bits range wkDir perm w w1 (k : Path) :
  CreateJitDir range wkDir false false perm w = ((true, None), w1) →
  resolve w (filepath.Join [wkDir; util.JitDirName]) = Some k →
  fs w1 !! k = Some (Dir (syscallMode (FileMode perm)))
  ∧ (perm < 2 ^ 20 → fs w1 !! k = Some (Dir (N.land perm 0x1ff))).
Proof.
  intros Hrun Hres.
  assert (fs w1 !! k = Some (Dir (syscallMode (FileMode perm)))) as H.
  { revert Hrun. unfold CreateJitDir, bind, ret. cbn [negb andb].
    destruct (Mkdir _ _ w) as [[e|] w2] eqn:Hm; [by intros [=]|].
    apply Mkdir_ok in Hm as (k' & Hk' & Hd). rewrite Hres in Hk'. injection Hk' as <-.
    pose proof (Persists_createEntries (filepath.Join [wkDir; util.JitDirName])
                  (range _ jitFileSystem) w2) as P.
    destruct (createEntries _ _ w2) as [[] w3]. intros [= <-]. cbn [snd] in P.
    destruct (P k _ Hd) as (n' & Hn' & L). simpl in L. by rewrite Hn', L. }
  split; [done|]. intros Hp. by rewrite <- syscallMode_small.
Qed.

(** The permission 04755 (0x9ed). *)
Lemma CreateJitDir_mode_bits_witness :
  let w1 := (CreateJitDir Examples.enumerate "/w" false false 0x9ed Examples.fresh).2 in
  fs w1 !! ["w"; ".jit"] = Some (Dir (syscallMode (FileMode 0x9ed)))
  ∧ (0x9ed < 2 ^ 20 → fs w1 !! ["w"; ".jit"] = Some (Dir (N.land 0x9ed 0x1ff))).
Proof.
  intros w1.
  apply (CreateJitDir_mode_bits Examples.enumerate "/w" 0x9ed Examples.fresh w1).
  - vm_compute. reflexivity.
  - vm_compute. reflexivity.
Defined.

(** ** The permission option *)

(** The number an octal numeral stands for: [None] for the empty string and
    for a string with a character that is no octal digit. *)
Definition octalDigit (c : ascii) : option N :=
  let b := N_of_ascii c in
  if (48 <=? b) && (b <=? 55) then Some (b - 48) else None.

Fixpoint octalFrom (n : N) (s : string) : option N :=
  match s with
  | EmptyString => Some n
  | String c r =>
      match octalDigit c with
      | Some d => octalFrom (n * 8 + d) r
      | None => None
      end
  end.

Definition octalValue (s : string) : option N :=
  if String.eqb s "" then None else octalFrom 0 s.

Lemma digit_octal c :
  match strconv.digit c with
  | Some d => if 8 <=? d then octalDigit c = None else octalDigit c = Some d
  | None => octalDigit c = None
  end.
Proof. destruct c as [[] [] [] [] [] [] [] []]; vm_compute; reflexivity. Qed.

Lemma octalDigit_lt c d : octalDigit c = Some d → d < 8.
Proof.
  unfold octalDigit. destruct (_ && _) eqn:H; [|done]. intros [= <-].
  apply andb_true_iff in H as [H1 H2]. apply N.leb_le in H1, H2. lia.
Qed.

Lemma octalFrom_ge s n v : octalFrom n s = Some v → n <= v.
Proof.
  revert n. induction s as [|c r IH]; intros n; simpl.
  - intros [= <-]. lia.
  - destruct (octalDigit c) as [d|]; [|done]. intros H%IH. lia.
Qed.

Lemma parseLoop_octal s n :
  n <= 2 ^ 32 - 1 →
  let r := strconv.parseLoop 8 (strconv.maxUint64 / 8 + 1) (2 ^ 32 - 1) s n in
  match octalFrom n s with
  | Some v => if v <=? 2 ^ 32 - 1 then r = (v, None) else r.2 ≠ None
  | None => r.2 ≠ None
  end.
Proof.
  revert n. induction s as [|c r IH]; intros n Hn; cbv zeta.
  - simpl octalFrom. cbn [strconv.parseLoop].
    by rewrite (proj2 (N.leb_le _ _) Hn).
  - cbn [strconv.parseLoop octalFrom]. pose proof (digit_octal c) as Hd.
    destruct (strconv.digit c) as [d|]; [|by rewrite Hd].
    destruct (8 <=? d) eqn:H8; [by rewrite Hd|]. rewrite Hd.
    assert ((strconv.maxUint64 / 8 + 1 <=? n) = false) as ->.
    { apply N.leb_gt. eapply N.le_lt_trans; [exact Hn|]. by vm_compute. }
    destruct (2 ^ 32 - 1 <? n * 8 + d) eqn:Hmax.
    + apply N.ltb_lt in Hmax.
      destruct (octalFrom (n * 8 + d) r) as [v|] eqn:Hv; [|done].
      apply octalFrom_ge in Hv.
      assert ((v <=? 2 ^ 32 - 1) = false) as -> by (apply N.leb_gt; lia). done.
    + apply N.ltb_ge in Hmax. apply (IH _ Hmax).
Qed.

(** X15. The permission the scaffold is given is the value of the [perm]
    option when this is a non-empty string of octal digits with a value below
    2^32, and 0755 in every other case (an empty or missing option, a sign, a
    prefix such as [0o], a digit 8 or 9, a value too large). *)
Theorem filePermission_is_octal_or_default (o : Options) :
  filePermissionOf o
  = match octalValue (directoryPerm o) with
    | Some n => if n <? 2 ^ 32 then n else 0x1ed
    | None => 0x1ed
    end.
Proof.
  unfold filePermissionOf, strconv.ParseUint, octalValue.
  destruct (String.eqb (directoryPerm o) ""); [done|].
  pose proof (parseLoop_octal (directoryPerm o) 0 ltac:(done)) as H. cbv zeta in H.
  change (0 * 8)%N with 0%N in H.
  destruct (octalFrom 0 (directoryPerm o)) as [v|].
  - destruct (v <=? 2 ^ 32 - 1) eqn:Hv.
    + rewrite H. apply N.leb_le in Hv.
      assert ((v <? 2 ^ 32) = true) as -> by (apply N.ltb_lt; lia). done.
    + apply N.leb_gt in Hv.
      assert ((v <? 2 ^ 32) = false) as -> by (apply N.ltb_ge; lia).
      destruct (strconv.parseLoop _ _ _ _ _) as [p [e|]]; done.
  - destruct (strconv.parseLoop _ _ _ _ _) as [p [e|]]; done.
Qed.

(** ** The command line *)

(** The values [InitializeJitRepository] reads from the map [Initialize]
    builds. *)
Definition optionsRead (v : cmd.Vars) : Options :=
  mkOptions (cmd.quiet v) (cmd.bare v) (cmd.separateJitDir v) (cmd.template v)
    (cmd.objectFormat v) (cmd.branch v) (cmd.permission v).

(** X16. The options map [Initialize] builds is read back in full by
    [InitializeJitRepository]: every option has the value of its variable, and
    none of the "option failed" messages is logged. *)
Theorem Initialize_options_read_back (v : cmd.Vars) :
  readOptions (cmd.optionsOf v) = optionsRead v
  ∧ optionLogs (cmd.optionsOf v) = [].
Proof. split; reflexivity. Qed.

(** An argument that is no flag: shorter than two bytes or without a
    leading dash. *)
Definition positional (s : string) : bool :=
  (String.length s <? 2)%nat || negb (flag.startsWith "-" s).

Lemma Parse_positional {S} (formal : gmap string (flag.Value S)) d rest st :
  positional d = true → flag.Parse formal (d :: rest) st = inl (st, d :: rest).
Proof. unfold positional. intros H. simpl. by rewrite H. Qed.

(** X17. Parsing stops at the first argument that is no flag: this
    argument is the working directory, and what follows it is ignored, flags
    too ([jit init repo -bare] initialises a repository that is not bare). *)
Theorem Initialize_stops_at_directory range d rest v w :
  positional d = true →
  cmd.Initialize range (d :: rest) v w
  = (let* (_, initErr) := InitializeJitRepository range (cmd.optionsOf v) d in
     match initErr with
     | Some e => log "" (Some e) ;; ret (cmd.Exited 1)
     | None => ret (cmd.Returned v)
     end) w.
Proof.
  intros H. unfold cmd.Initialize. by rewrite Parse_positional.
Qed.

(** [jit init repo -bare]. *)
Lemma Initialize_stops_at_directory_witness :
  cmd.Initialize Examples.enumerate ["repo"; "-bare"] cmd.defaults Examples.fresh
  = (let* (_, initErr) :=
       InitializeJitRepository Examples.enumerate (cmd.optionsOf cmd.defaults) "repo" in
     match initErr with
     | Some e => log "" (Some e) ;; ret (cmd.Exited 1)
     | None => ret (cmd.Returned cmd.defaults)
     end) Examples.fresh.
Proof.
  apply (Initialize_stops_at_directory Examples.enumerate "repo" ["-bare"]
           cmd.defaults Examples.fresh).
  reflexivity.
Defined.

(** A name a flag can be written with: not empty, no leading dash or
    equals sign, and no equals sign further on. *)
Definition flagName (name : string) : bool :=
  match name with
  | EmptyString => false
  | String c r =>
      negb (Ascii.eqb c "-") && negb (Ascii.eqb c "=")
      && forallb (λ d, negb (Ascii.eqb d "=")) (list_ascii_of_string r)
  end.

(** A flag on the command line: one or two dashes, the name, and the
    value when it is given in the same argument. *)
Definition token (double : bool) (name : string) (value : option string) : string :=
  (if double then "--" else "-")
    +:+ name +:+ match value with Some x => "=" +:+ x | None => "" end.

Lemma substring_all s : String.substring 0 (String.length s) s = s.
Proof. induction s as [|c s IH]; [done|]. simpl. by rewrite IH. Qed.

Lemma dropDashes_1 s : flag.dropDashes 1 (String "-" s) = s.
Proof.
  unfold flag.dropDashes. simpl. rewrite Nat.sub_0_r. apply substring_all.
Qed.

Lemma dropDashes_2 s : flag.dropDashes 2 (String "-" (String "-" s)) = s.
Proof.
  unfold flag.dropDashes. simpl. rewrite Nat.sub_0_r. apply substring_all.
Qed.

Lemma cutEq_none r :
  forallb (λ d, negb (Ascii.eqb d "=")) (list_ascii_of_string r) = true →
  flag.cutEq r = None.
Proof.
  induction r as [|c r IH]; [done|]. simpl.
  intros [Hc Hr]%andb_true_iff. apply negb_true_iff in Hc. by rewrite Hc, IH.
Qed.

Lemma cutEq_value r x :
  forallb (λ d, negb (Ascii.eqb d "=")) (list_ascii_of_string r) = true →
  flag.cutEq (r +:+ "=" +:+ x) = Some (r, x).
Proof.
  induction r as [|c r IH]; intros H; [done|].
  simpl in H. apply andb_true_iff in H as [Hc Hr]. apply negb_true_iff in Hc.
  rewrite string_app_cons. cbn [flag.cutEq]. by rewrite Hc, (IH Hr).
Qed.

Lemma nameValue_token name value :
  flagName name = true →
  flag.nameValue (name +:+ match value with Some x => "=" +:+ x | None => "" end)
  = (name, value).
Proof.
  destruct name as [|c r]; [done|]. intros H. simpl in H.
  apply andb_true_iff in H as [_ Hr]. destruct value as [x|].
  - rewrite string_app_cons. unfold flag.nameValue. by rewrite cutEq_value.
  - rewrite string_app_nil_r. unfold flag.nameValue. by rewrite cutEq_none.
Qed.

(** What [Parse] does with one flag. *)
Lemma Parse_token {S} (formal : gmap string (flag.Value S)) double name value rest st :
  flagName name = true →
  flag.Parse formal (token double name value :: rest) st
  = match formal !! name with
    | None =>
        if String.eqb name "help" || String.eqb name "h" then inr flag.ErrHelp
        else inr (flag.notDefined name)
    | Some (flag.boolValue set) =>
        match value with
        | Some v =>
            match flag.ParseBool v with
            | Some b => flag.Parse formal rest (set b st)
            | None => inr (flag.invalidBoolean v name)
            end
        | None => flag.Parse formal rest (set true st)
        end
    | Some (flag.stringValue set) =>
        match value with
        | Some v => flag.Parse formal rest (set v st)
        | None =>
            match rest with
            | v :: rest' => flag.Parse formal rest' (set v st)
            | [] => inr (flag.needsArgument name)
            end
        end
    end.
Proof.
  intros Hn. set (tail := match value with Some x => "=" +:+ x | None => "" end).
  assert (∃ c r, name +:+ tail = String c r ∧ Ascii.eqb "-" c = false
                 ∧ Ascii.eqb "=" c = false) as (c & r & Hnt & Hc1 & Hc2).
  { destruct name as [|c r]; [done|]. exists c, (r +:+ tail). split; [done|].
    simpl in Hn. apply andb_true_iff in Hn as [Hn _].
    apply andb_true_iff in Hn as [H1 H2].
    apply negb_true_iff in H1, H2. rewrite Ascii.eqb_sym in H1.
    rewrite Ascii.eqb_sym in H2. done. }
  pose proof (nameValue_token name value Hn) as Hnv. fold tail in Hnv.
  unfold token. fold tail. rewrite Hnt in Hnv.
  destruct double.
  - change ("--" +:+ name +:+ tail) with (String "-" (String "-" (name +:+ tail))).
    rewrite Hnt. cbn [flag.Parse]. rewrite dropDashes_1.
    cbn [String.length flag.startsWith Nat.ltb Nat.leb Nat.eqb orb andb negb].
    rewrite Ascii.eqb_refl. cbn [negb andb]. rewrite dropDashes_2.
    cbn [String.length flag.startsWith Nat.eqb orb].
    rewrite Hc1, Hc2. cbn [orb]. by rewrite Hnv.
  - change ("-" +:+ name +:+ tail) with (String "-" (name +:+ tail)).
    rewrite Hnt. cbn [flag.Parse]. rewrite dropDashes_1.
    cbn [String.length flag.startsWith Nat.ltb Nat.leb Nat.eqb orb andb negb].
    rewrite Ascii.eqb_refl, Hc1. cbn [negb andb]. rewrite dropDashes_1.
    cbn [String.length flag.startsWith Nat.eqb orb].
    rewrite Hc1, Hc2. cbn [orb]. by rewrite Hnv.
Qed.

Lemma initCmd_names name f :
  cmd.initCmd !! name = Some f → flagName name = true.
Proof.
  intros H. unfold cmd.initCmd in H. apply elem_of_list_to_map_2 in H.
  repeat (apply elem_of_cons in H as [[= -> _]|H]; [done|]).
  by apply elem_of_nil in H.
Qed.

(** X18. The flags of [initCmd], with one dash or two.  A string flag
    takes its value from the same argument after [=] or else from the next
    argument, whatever this is; a boolean flag alone sets its variable to
    [true] and never takes the next argument, and with [=] it takes the value
    [strconv.ParseBool] reads, an unreadable one being an error. *)
Theorem initCmd_flag_forms name double rest v :
  (∀ set x, cmd.initCmd !! name = Some (flag.stringValue set) →
     flag.Parse cmd.initCmd (token double name (Some x) :: rest) v
     = flag.Parse cmd.initCmd rest (set x v)
     ∧ flag.Parse cmd.initCmd (token double name None :: x :: rest) v
       = flag.Parse cmd.initCmd rest (set x v))
  ∧ (∀ set, cmd.initCmd !! name = Some (flag.boolValue set) →
       flag.Parse cmd.initCmd (token double name None :: rest) v
       = flag.Parse cmd.initCmd rest (set true v)
       ∧ ∀ x, flag.Parse cmd.initCmd (token double name (Some x) :: rest) v
              = match flag.ParseBool x with
                | Some b => flag.Parse cmd.initCmd rest (set b v)
                | None => inr (flag.invalidBoolean x name)
                end).
Proof.
  split.
  - intros set x H. pose proof (initCmd_names _ _ H) as Hn.
    rewrite !Parse_token by done. by rewrite H.
  - intros set H. pose proof (initCmd_names _ _ H) as Hn.
    split; [|intros x]; rewrite Parse_token by done; by rewrite H.
Qed.



(** X20. With neither the help nor the version flag set, [jit init ARGS]
    is [Initialize(ARGS)]; and unless the command line, after the global
    flags, starts with the [init] command with both flags unset, a run of
    [Jit] leaves the file system unchanged. *)
Theorem Jit_dispatch range args g v w :
  (cmd.help g = false → cmd.version g = false →
   cmd.Jit range ("init" :: args) g v w
   = (let (out, w') := cmd.Initialize range args v w in ((None, out), w')))
  ∧ ((∀ g' rest, flag.Parse cmd.commandLine args g = inl (g', "init" :: rest) →
        cmd.help g' = true ∨ cmd.version g' = true) →
     fs (cmd.Jit range args g v w).2 = fs w).
Proof.
  split.
  - intros Hh Hv. unfold cmd.Jit. rewrite Parse_positional by done.
    rewrite Hh, Hv. unfold bind, cmd.handleCommand. simpl.
    by destruct (cmd.Initialize range args v w).
  - intros H. unfold cmd.Jit.
    destruct (flag.Parse cmd.commandLine args g) as [[g' rest]|e]; [|done].
    destruct (cmd.help g') eqn:Hh; [done|].
    destruct (cmd.version g') eqn:Hv; [done|].
    destruct rest as [|command commandArgs]; [done|].
    unfold bind, cmd.handleCommand, util.Init.
    destruct (String.eqb_spec command "init") as [->|Hne]; [|done].
    destruct (H g' commandArgs eq_refl); congruence.
Qed.

End Props.
